(** * Mai Shan Yun sales dashboard: the analytics pipeline of MSY_Final.py

    A shallow embedding of the data pipeline of [MSY_Final.py]
    (classification, item summary, What-If simulation, growth analysis,
    Pareto analysis, category rollup, the monthly charts, the top 10
    items and the Executive Summary of the dashboard), the properties its
    specification states about it, and further properties of the code.

    Modelling conventions.
    - A pandas DataFrame is the list of its rows, one record per row; a
      Series is a list.  Where the index labels of a frame are read
      ([make_plot7_pareto_analysis]) the row record carries its label.
    - Python [str] is [string]; [str.lower] acts on the letters A-Z, so item
      names are taken to be ASCII.
    - Python [int] is [Z].  The [Count] column is an int64 column: its
      values are integers of the int64 range, and a sum of the column wraps
      around at [2^63] ([wrap64], [sum_int]).
    - Python and numpy floats are an abstract type with the operations of
      the class [Float].  Two instances are given: [xq], exact rational
      arithmetic extended with the special values nan, +inf and -inf that
      a division by zero produces (no rounding, no overflow), in which the
      general theorems are proved; and [b64], IEEE-754 binary64 as
      specified by the standard library's [SpecFloat], in which the
      concrete runs are evaluated again.
    - A DataFrame that the code copies and then updates in place lives in a
      store of frames, addressed by a reference. *)

From Stdlib Require Import ZArith QArith Qcanon Lqa SpecFloat Ascii String.
From stdpp Require Import gmap strings list sorting pretty.

Local Open Scope Z_scope.
Local Open Scope string_scope.

(** ** Floating-point numbers *)

(** The operations the pipeline applies to floats.  Comparisons are the
    IEEE ones: every comparison with nan is false. *)
Class Float (F : Type) := {
  of_int : Z -> F;            (* conversion of a Python int *)
  lit_1e_6 : F;               (* the literal 1e-6 *)
  nan : F;                    (* np.nan *)
  fadd : F -> F -> F;
  fsub : F -> F -> F;
  fmul : F -> F -> F;
  fdiv : F -> F -> F;
  fltb : F -> F -> bool;
  fleb : F -> F -> bool;
  is_nan : F -> bool;
  is_inf : F -> bool
}.

Declare Scope float_scope.
Delimit Scope float_scope with F.
Infix "+" := fadd : float_scope.
Infix "-" := fsub : float_scope.
Infix "*" := fmul : float_scope.
Infix "/" := fdiv : float_scope.
Notation "x <? y" := (fltb x y) : float_scope.
Notation "x <=? y" := (fleb x y) : float_scope.
Notation "x >? y" := (fltb y x) : float_scope.
Notation "x >=? y" := (fleb y x) : float_scope.

(** *** Exact arithmetic with the special values *)

Inductive xq : Type :=
  | XFin (q : Qc)
  | XInf (negative : bool)
  | XNaN.

Definition Qc_ltb (p q : Qc) : bool := negb (Qle_bool q p).
Definition Qc_leb (p q : Qc) : bool := Qle_bool p q.
Definition Qc_is0 (p : Qc) : bool := Qeq_bool p 0.

Definition xq_add (x y : xq) : xq :=
  match x, y with
  | XNaN, _ | _, XNaN => XNaN
  | XInf s, XInf t => if Bool.eqb s t then XInf s else XNaN
  | XInf s, XFin _ => XInf s
  | XFin _, XInf t => XInf t
  | XFin p, XFin q => XFin (p + q)
  end.

Definition xq_sub (x y : xq) : xq :=
  match x, y with
  | XNaN, _ | _, XNaN => XNaN
  | XInf s, XInf t => if Bool.eqb s t then XNaN else XInf s
  | XInf s, XFin _ => XInf s
  | XFin _, XInf t => XInf (negb t)
  | XFin p, XFin q => XFin (p - q)
  end.

Definition xq_mul (x y : xq) : xq :=
  match x, y with
  | XNaN, _ | _, XNaN => XNaN
  | XInf s, XInf t => XInf (xorb s t)
  | XInf s, XFin q | XFin q, XInf s =>
      if Qc_is0 q then XNaN else XInf (xorb s (Qc_ltb q 0))
  | XFin p, XFin q => XFin (p * q)
  end.

(** Zero has no sign here: a non-zero number divided by zero gives the
    infinity of the sign of the numerator, and 0/0 is nan. *)
Definition xq_div (x y : xq) : xq :=
  match x, y with
  | XNaN, _ | _, XNaN => XNaN
  | XInf _, XInf _ => XNaN
  | XInf s, XFin q => XInf (xorb s (Qc_ltb q 0))
  | XFin _, XInf _ => XFin 0
  | XFin p, XFin q =>
      if Qc_is0 q then (if Qc_is0 p then XNaN else XInf (Qc_ltb p 0))
      else XFin (p / q)
  end.

Definition xq_ltb (x y : xq) : bool :=
  match x, y with
  | XNaN, _ | _, XNaN => false
  | XInf s, XInf t => s && negb t
  | XInf s, XFin _ => s
  | XFin _, XInf t => negb t
  | XFin p, XFin q => Qc_ltb p q
  end.

Definition xq_leb (x y : xq) : bool :=
  match x, y with
  | XNaN, _ | _, XNaN => false
  | XInf s, XInf t => s || negb t
  | XInf s, XFin _ => s
  | XFin _, XInf t => negb t
  | XFin p, XFin q => Qc_leb p q
  end.

Definition Qc_of_Z (z : Z) : Qc := Q2Qc (inject_Z z).

#[export] Instance xq_float : Float xq := {|
  of_int z := XFin (Qc_of_Z z);
  lit_1e_6 := XFin (Q2Qc (1 # 1000000));
  nan := XNaN;
  fadd := xq_add;
  fsub := xq_sub;
  fmul := xq_mul;
  fdiv := xq_div;
  fltb := xq_ltb;
  fleb := xq_leb;
  is_nan x := match x with XNaN => true | _ => false end;
  is_inf x := match x with XInf _ => true | _ => false end
|}.

(** Decidable equality of two exact values. *)
Definition xq_eqb (x y : xq) : bool :=
  match x, y with
  | XFin p, XFin q => Qc_eq_bool p q
  | XInf s, XInf t => Bool.eqb s t
  | XNaN, XNaN => true
  | _, _ => false
  end.

(** The rational a finite value stands for. *)
Definition xq_val (x : xq) : Qc :=
  match x with
  | XFin q => q
  | _ => 0%Qc
  end.

Definition finite (x : xq) : Prop := exists q : Qc, x = XFin q.

Definition nonneg (x : xq) : Prop := exists q : Qc, x = XFin q /\ (0 <= q)%Qc.

(** The sum of a list of rationals. *)
Definition qsum (l : list Qc) : Qc := foldr Qcplus 0%Qc l.

(** The running sums of a list of rationals, from [acc]. *)
Fixpoint running_sums (acc : Qc) (l : list Qc) : list Qc :=
  match l with
  | [] => []
  | q :: l' => (acc + q)%Qc :: running_sums (acc + q)%Qc l'
  end.

(** *** IEEE-754 binary64 *)

Definition b64 : Type := spec_float.

(** Conversion of an integer, rounded to nearest even. *)
Definition b64_of_int (z : Z) : b64 := binary_normalize 53 1024 z 0 false.

#[export] Instance b64_float : Float b64 := {|
  of_int := b64_of_int;
  (* 1 and 10^6 are binary64 numbers, so the correctly rounded quotient is
     the binary64 number nearest to 10^-6, which is what the literal
     denotes *)
  lit_1e_6 := SFdiv 53 1024 (b64_of_int 1) (b64_of_int 1000000);
  nan := S754_nan;
  fadd := SFadd 53 1024;
  fsub := SFsub 53 1024;
  fmul := SFmul 53 1024;
  fdiv := SFdiv 53 1024;
  fltb := SFltb;
  fleb := SFleb;
  is_nan x := match x with S754_nan => true | _ => false end;
  is_inf x := match x with S754_infinity _ => true | _ => false end
|}.

(** ** Strings *)

(** [str.lower] on ASCII. *)
Definition lower_ascii (c : ascii) : ascii :=
  let n := N_of_ascii c in
  if ((65 <=? n) && (n <=? 90))%N then ascii_of_N (n + 32) else c.

Fixpoint lower (s : string) : string :=
  match s with
  | EmptyString => EmptyString
  | String c s' => String (lower_ascii c) (lower s')
  end.

(** [kw in s] for two Python strings: [kw] occurs in [s] as a substring. *)
Fixpoint contains (kw s : string) : bool :=
  String.prefix kw s ||
  match s with
  | EmptyString => false
  | String _ s' => contains kw s'
  end.

(** ** The classifier *)

Definition categorize_item (item_name : string) : string :=
  let item_name_low := lower item_name in
  (* 1. Appetizers (checked first to catch 'steam' before 'tea') *)
  if existsb (fun app => contains app item_name_low)
       ["dumpling"; "wings"; "tenders"; "roll"; "crab"; "rangoon"; "bun"; "steam"]
  then "Appetizers"
  (* 2. Noodles *)
  else if contains "ramen" item_name_low || contains "noodle" item_name_low
  then "Noodle Dishes"
  (* 3. Rice *)
  else if contains "rice" item_name_low
  then "Rice Dishes"
  (* 4. Combos *)
  else if contains "combo" item_name_low || contains "special" item_name_low
  then "Combos/Specials"
  (* 5. Drinks *)
  else if existsb (fun drink => contains drink item_name_low)
       ["tea"; "lemonade"; "soda"; "coke"; "pepsi"; "starry"; "crush"]
  then "Drinks"
  (* Default category *)
  else "Other Entrees".

(** The classifier as the specification words it: an ordered list of rule
    groups, each a list of keywords and a category; the first group one of
    whose keywords occurs in the lower-cased name wins, and a name that
    matches no group falls into the default category. *)
Inductive category : Type :=
  | Appetizers | Noodle_Dishes | Rice_Dishes | Combos_Specials | Drinks
  | Other_Entrees.

Definition category_name (c : category) : string :=
  match c with
  | Appetizers => "Appetizers"
  | Noodle_Dishes => "Noodle Dishes"
  | Rice_Dishes => "Rice Dishes"
  | Combos_Specials => "Combos/Specials"
  | Drinks => "Drinks"
  | Other_Entrees => "Other Entrees"
  end.

Definition rule_groups : list (list string * category) :=
  [ (["dumpling"; "wings"; "tenders"; "roll"; "crab"; "rangoon"; "bun"; "steam"],
     Appetizers);
    (["ramen"; "noodle"], Noodle_Dishes);
    (["rice"], Rice_Dishes);
    (["combo"; "special"], Combos_Specials);
    (["tea"; "lemonade"; "soda"; "coke"; "pepsi"; "starry"; "crush"], Drinks) ].

Definition group_matches (low : string) (g : list string * category) : bool :=
  existsb (fun kw => contains kw low) (fst g).

Fixpoint first_match (groups : list (list string * category)) (low : string)
  : category :=
  match groups with
  | [] => Other_Entrees
  | g :: rest => if group_matches low g then snd g else first_match rest low
  end.

Definition classify_spec (item_name : string) : category :=
  first_match rule_groups (lower item_name).

(** The closed set of category names. *)
Definition category_names : list string :=
  ["Appetizers"; "Noodle Dishes"; "Rice Dishes"; "Combos/Specials"; "Drinks";
   "Other Entrees"].

(** ** pandas operations on Series and DataFrames *)

(** Stable insertion sort: [before y x] tells that [y], although it comes
    later in the input, has to be placed before [x]. *)
Fixpoint insert_by {A} (before : A -> A -> bool) (x : A) (l : list A) : list A :=
  match l with
  | [] => [x]
  | y :: l' => if before y x then y :: insert_by before x l' else x :: y :: l'
  end.

Definition sort_by {A} (before : A -> A -> bool) (l : list A) : list A :=
  foldr (insert_by before) [] l.

(** The group keys of [groupby]: the distinct keys, sorted. *)
Definition group_keys (keys : list string) : list string :=
  sort_by String.ltb (remove_dups keys).

(** [df.groupby(key)]: the groups in key order, each with its rows in the
    order of the frame. *)
Definition groupby {A} (key : A -> string) (df : list A) : list (string * list A) :=
  (fun k => (k, filter (fun r => key r = k) df)) <$> group_keys (key <$> df).

(** int64 arithmetic: a result outside [-2^63, 2^63) wraps around. *)
Definition wrap64 (z : Z) : Z := (z + 2 ^ 63) mod 2 ^ 64 - 2 ^ 63.

(** Sum of an integer column: the dtype is int64 ([astype(int)]), and the
    sum of a group is accumulated in int64, without an overflow check. *)
Definition sum_int (xs : list Z) : Z :=
  fold_left (fun acc x => wrap64 (acc + x)) xs 0.

(** The sum of a list of integers as a number, with no wrap-around. *)
Definition exact_sum (xs : list Z) : Z := foldr Z.add 0 xs.

(** A Series indexed by strings. *)
Definition series_get {V} (absent : V) (k : string) (s : list (string * V)) : V :=
  match List.find (fun p => String.eqb (fst p) k) s with
  | Some p => snd p
  | None => absent
  end.

Section Pandas.
Context {F : Type} `{Float F}.
Local Open Scope float_scope.

Definition notna (x : F) : Prop := is_nan x = false.

#[global] Instance notna_dec (x : F) : Decision (notna x).
Proof. unfold notna. apply _. Defined.

(** [Series.sum()] of a float column: nan entries are skipped, and the
    sum of no entry is 0. *)
Definition nansum (xs : list F) : F :=
  fold_left fadd (filter notna xs) (of_int 0).

(** [Series.fillna(v)], elementwise. *)
Definition fillna (v : F) (x : F) : F := if is_nan x then v else x.

(** [replace([np.inf, -np.inf], np.nan)], elementwise. *)
Definition replace_inf (x : F) : F := if is_inf x then nan else x.

(** [df.groupby(key)[val].sum()] *)
Definition groupby_sum {A} (key : A -> string) (val : A -> F) (df : list A)
  : list (string * F) :=
  (fun g => (fst g, nansum (val <$> snd g))) <$> groupby key df.

(** [Series.cumsum()]: a nan entry stays nan and is skipped by the
    running sum. *)
Fixpoint cumsum_from (acc : F) (xs : list F) : list F :=
  match xs with
  | [] => []
  | x :: xs' =>
      if is_nan x then nan :: cumsum_from acc xs'
      else (acc + x) :: cumsum_from (acc + x) xs'
  end.

Definition cumsum (xs : list F) : list F := cumsum_from (of_int 0) xs.

(** [sort_values(by=col, ascending=False)]: decreasing values, nan last.
    pandas sorts with an unstable quicksort; rows of equal value are kept
    here in their input order. *)
Definition sort_values_desc {A} (col : A -> F) (df : list A) : list A :=
  sort_by (fun y x => col x <? col y) (filter (fun r => notna (col r)) df)
  ++ filter (fun r => ~ notna (col r)) df.

(** [nlargest(n, col)] and [nsmallest(n, col)] with the default
    [keep='first']: rows with a nan value are left out, the rest is
    ordered by value, rows of equal value in their input order. *)
Definition nlargest {A} (n : nat) (col : A -> F) (df : list A) : list A :=
  take n (sort_by (fun y x => col x <? col y) (filter (fun r => notna (col r)) df)).

Definition nsmallest {A} (n : nat) (col : A -> F) (df : list A) : list A :=
  take n (sort_by (fun y x => col y <? col x) (filter (fun r => notna (col r)) df)).

(** [Series.max()], skipping nan; nan for no entry. *)
Definition nanmax (xs : list F) : F :=
  match filter notna xs with
  | [] => nan
  | x :: xs' => fold_left (fun m y => if m <? y then y else m) xs' x
  end.

(** [Series.median()], skipping nan; nan for no entry. *)
Definition median (xs : list F) : F :=
  let s := sort_by (fun y x => y <? x) (filter notna xs) in
  let n := length s in
  if Nat.eqb n 0 then nan
  else if Nat.odd n then List.nth (n / 2)%nat s nan
  else (List.nth (n / 2 - 1)%nat s nan + List.nth (n / 2)%nat s nan) / of_int 2.

(** ** The dataset *)

(** A row of the file, with [Amount] and [Count] already numeric: reading
    the file and stripping the currency signs and the thousands
    separators are not part of the model.  [raw_Count] is the value of the
    row in the int64 column that [astype(int)] yields. *)
Record raw_sale := {
  raw_Item_Name : string;
  raw_Month : string;
  raw_Amount : F;
  raw_Count : Z
}.

(** A row of the cleaned dataset.  [Month] is an ordered categorical:
    [None] stands for the nan of a value outside the categories. *)
Record sale := {
  Item_Name : string;
  Month : option string;
  Amount : F;
  Count : Z;
  Category : string
}.

Definition month_order : list string :=
  ["May"; "June"; "July"; "August"; "September"; "October"].

(** [pd.Categorical(values, categories=cats)], elementwise. *)
Definition categorical (cats : list string) (v : string) : option string :=
  if bool_decide (v ∈ cats) then Some v else None.

(** [Series.isin(vals)] on a categorical column, elementwise. *)
Definition isin (vals : list string) (m : option string) : Prop :=
  match m with
  | Some v => v ∈ vals
  | None => False
  end.

#[global] Instance isin_dec vals m : Decision (isin vals m).
Proof. destruct m; simpl; apply _. Defined.

Definition load_and_clean_data (rows : list raw_sale) : list sale :=
  (fun r => {| Item_Name := raw_Item_Name r;
               Month := categorical month_order (raw_Month r);
               Amount := raw_Amount r;
               Count := raw_Count r;
               Category := categorize_item (raw_Item_Name r) |}) <$> rows.

(** ** The item summary *)

Record summary_row := {
  s_Item_Name : string;
  Total_Amount : F;
  Total_Count : F;
  Avg_Price : F
}.

Definition get_item_summary (df : list sale) : list summary_row :=
  (fun g =>
     let total_amount := nansum (Amount <$> snd g) in
     let total_count := of_int (sum_int (Count <$> snd g)) in
     {| s_Item_Name := fst g;
        Total_Amount := total_amount;
        Total_Count := total_count;
        (* a small epsilon to avoid division by zero if count is 0 *)
        Avg_Price := fillna (of_int 0) (total_amount / (total_count + lit_1e_6)) |})
  <$> groupby Item_Name df.

(** ** The What-If simulation *)

(** The store: the DataFrames that are alive, by reference, and the
    messages shown through [st.error]. *)
Definition ref : Type := positive.

Record state := {
  frames : gmap ref (list summary_row);
  st_errors : list string
}.

(** Computations on the store.  [None] is a dangling reference, which
    Python rules out. *)
Definition M (A : Type) : Type := state -> option (A * state).

Definition ret {A} (a : A) : M A := fun s => Some (a, s).

Definition bind {A B} (m : M A) (k : A -> M B) : M B :=
  fun s => match m s with
           | Some (a, s') => k a s'
           | None => None
           end.

Notation "'let*' x := m 'in' k" := (bind m (fun x => k))
  (at level 10, x name, m at level 100, k at level 200).
Notation "'do' m 'then' k" := (bind m (fun _ => k))
  (at level 10, m at level 100, k at level 200).

(** [df.copy()]: a new frame with the same rows. *)
Definition df_copy (df : ref) : M ref :=
  fun s => match frames s !! df with
           | Some rows =>
               let new := fresh (dom (frames s)) in
               Some (new, {| frames := <[new := rows]> (frames s);
                             st_errors := st_errors s |})
           | None => None
           end.

(** Reading the rows of a frame. *)
Definition df_rows (df : ref) : M (list summary_row) :=
  fun s => match frames s !! df with
           | Some rows => Some (rows, s)
           | None => None
           end.

Inductive column : Type := Col_Total_Amount | Col_Total_Count | Col_Avg_Price.

Definition set_column (c : column) (v : F) (r : summary_row) : summary_row :=
  match c with
  | Col_Total_Amount =>
      {| s_Item_Name := s_Item_Name r; Total_Amount := v;
         Total_Count := Total_Count r; Avg_Price := Avg_Price r |}
  | Col_Total_Count =>
      {| s_Item_Name := s_Item_Name r; Total_Amount := Total_Amount r;
         Total_Count := v; Avg_Price := Avg_Price r |}
  | Col_Avg_Price =>
      {| s_Item_Name := s_Item_Name r; Total_Amount := Total_Amount r;
         Total_Count := Total_Count r; Avg_Price := v |}
  end.

(** [df.loc[df['Item Name'] == item, c] = v] on the rows: every row of
    that name gets [v] in column [c]. *)
Definition assign_where (item : string) (c : column) (v : F)
    (rows : list summary_row) : list summary_row :=
  (fun r => if decide (s_Item_Name r = item) then set_column c v r else r) <$> rows.

(** The assignment updates the frame in place.  The column takes the value
    as it is: the integer column [Total_Count] becomes a float column. *)
Definition df_loc_set (df : ref) (item : string) (c : column) (v : F) : M unit :=
  fun s => match frames s !! df with
           | Some rows =>
               Some (tt, {| frames := <[df := assign_where item c v rows]> (frames s);
                            st_errors := st_errors s |})
           | None => None
           end.

(** [st.error(msg)] *)
Definition st_error (msg : string) : M unit :=
  fun s => Some (tt, {| frames := frames s; st_errors := st_errors s ++ [msg] |}).

(** The data of the figure: the two scatter traces and the two median
    lines.  Annotations, titles and styling are left out. *)
Record scatter := {
  sc_name : string;
  sc_x : list F;
  sc_y : list F;
  sc_marker_size : list F;
  sc_marker_color : list F;
  sc_text : list string
}.

Record line_shape := { x0 : F; y0 : F; x1 : F; y1 : F }.

Record figure := { fig_data : list scatter; fig_shapes : list line_shape }.

(** [go.Figure()] *)
Definition empty_figure : figure := {| fig_data := []; fig_shapes := [] |}.

(** The figure drawn from the rows of [df_what_if]. *)
Definition what_if_figure (item_to_change : string) (rows : list summary_row)
  : figure :=
  let median_amount := median (Total_Amount <$> rows) in
  let median_count := median (Total_Count <$> rows) in
  let others := filter (fun r => s_Item_Name r <> item_to_change) rows in
  let what_if_item := filter (fun r => s_Item_Name r = item_to_change) rows in
  {| fig_data :=
       [ {| sc_name := "Other Items";
            sc_x := Total_Count <$> others;
            sc_y := Total_Amount <$> others;
            sc_marker_size := (fun r => Total_Amount r / of_int 2000) <$> rows;
            sc_marker_color := Avg_Price <$> rows;
            sc_text := s_Item_Name <$> rows |};
         {| sc_name := "WHAT-IF: " ++ item_to_change;
            sc_x := Total_Count <$> what_if_item;
            sc_y := Total_Amount <$> what_if_item;
            sc_marker_size :=
              (fun r => Total_Amount r / of_int 2000) <$> what_if_item;
            sc_marker_color := Avg_Price <$> what_if_item;
            sc_text := s_Item_Name <$> what_if_item |} ];
     fig_shapes :=
       [ {| x0 := median_count; y0 := of_int 0;
            x1 := median_count; y1 := nanmax (Total_Amount <$> rows) |};
         {| x0 := of_int 0; y0 := median_amount;
            x1 := nanmax (Total_Count <$> rows); y1 := median_amount |} ] |}.

Definition make_plot3_what_if_quadrant (item_summary_df : ref)
    (item_to_change : string) (count_change_pct price_change_pct : F) : M figure :=
  let* df_what_if := df_copy item_summary_df in
  let* rows := df_rows df_what_if in
  (* df_what_if[df_what_if['Item Name'] == item_to_change].iloc[0] *)
  match head (filter (fun r => s_Item_Name r = item_to_change) rows) with
  | None =>
      (* except IndexError *)
      do st_error ("Could not find item '" ++ item_to_change ++ "' to model.")
      then ret empty_figure
  | Some item_row =>
      (* Apply "what-if" logic *)
      let new_count :=
        Total_Count item_row * (of_int 1 + count_change_pct / of_int 100) in
      let new_price :=
        Avg_Price item_row * (of_int 1 + price_change_pct / of_int 100) in
      let new_amount := new_count * new_price in
      do df_loc_set df_what_if item_to_change Col_Total_Count new_count then
      do df_loc_set df_what_if item_to_change Col_Total_Amount new_amount then
      do df_loc_set df_what_if item_to_change Col_Avg_Price new_price then
      let* rows := df_rows df_what_if in
      ret (what_if_figure item_to_change rows)
  end.

(** ** The Growth Analyzer *)

Record growth_row := {
  g_Item_Name : string;
  First_Half : F;
  Second_Half : F;
  Growth_Pct : F;
  Total_Sales : F
}.

(** [growth_df] with its four columns, before any row is removed.  The
    DataFrame built from the two Series has the union of their indexes,
    sorted, and nan where a Series has no entry. *)
Definition growth_table (df : list sale) : list growth_row :=
  let first_half := filter (fun r => isin ["May"; "June"; "July"] (Month r)) df in
  let second_half :=
    filter (fun r => isin ["August"; "September"; "October"] (Month r)) df in
  let first_half_sales := groupby_sum Item_Name Amount first_half in
  let second_half_sales := groupby_sum Item_Name Amount second_half in
  (fun k =>
     let fh := fillna (of_int 0) (series_get nan k first_half_sales) in
     let sh := fillna (of_int 0) (series_get nan k second_half_sales) in
     {| g_Item_Name := k;
        First_Half := fh;
        Second_Half := sh;
        (* Calculate % Growth, handle division by zero *)
        Growth_Pct := of_int 100 * (sh - fh) / (fh + lit_1e_6);
        Total_Sales := fh + sh |})
  <$> group_keys (first_half_sales.*1 ++ second_half_sales.*1)%list.

Definition row_notna (r : growth_row) : Prop :=
  notna (First_Half r) /\ notna (Second_Half r) /\
  notna (Growth_Pct r) /\ notna (Total_Sales r).

#[global] Instance row_notna_dec (r : growth_row) : Decision (row_notna r).
Proof. unfold row_notna. apply _. Defined.

(** [growth_df] after [replace], the volume filter and [dropna]. *)
Definition growth_kept (df : list sale) : list growth_row :=
  let growth_df := growth_table df in
  let growth_df :=
    (fun r => {| g_Item_Name := g_Item_Name r;
                 First_Half := replace_inf (First_Half r);
                 Second_Half := replace_inf (Second_Half r);
                 Growth_Pct := replace_inf (Growth_Pct r);
                 Total_Sales := replace_inf (Total_Sales r) |}) <$> growth_df in
  let growth_df := filter (fun r => (Total_Sales r >? of_int 500) = true) growth_df in
  filter row_notna growth_df.

(** The two tables the function returns, [rising_stars] and
    [fading_items]; the two bar charts show the same rows. *)
Definition make_plot6_movers_and_shakers (df : list sale)
  : list growth_row * list growth_row :=
  let growth_df := growth_kept df in
  let rising_stars := nlargest 10 Growth_Pct growth_df in
  let fading_items := nsmallest 10 Growth_Pct growth_df in
  (rising_stars, fading_items).

(** ** The Pareto analysis *)

(** A row of [item_sales], with its index label. *)
Record item_sales_row := {
  i_index : Z;
  i_Item_Name : string;
  i_Amount : F
}.

(** A row of [pareto_df], with its index label. *)
Record pareto_row := {
  p_index : Z;
  p_Item_Name : string;
  p_Amount : F;
  Cumulative_Amount : F;
  Cumulative_Pct : F
}.

(** [pareto_summary]: the default text, or the sentence
    "Your Top n items (just p% of your menu) drive 80% of your revenue."
    given by n and p. *)
Inductive pareto_summary : Type :=
  | Insufficient_item_diversity
  | Top_items (num_items_for_80 : Z) (pct_items : F).

(** [reset_index]: the rows are labelled 0, 1, 2, ... *)
Definition reset_index (rows : list (string * F)) : list item_sales_row :=
  imap (fun i r => {| i_index := Z.of_nat i;
                      i_Item_Name := fst r;
                      i_Amount := snd r |}) rows.

Definition N_TOP_ITEMS : nat := 20.

(** [item_sales]: the revenue of every item, by decreasing revenue. *)
Definition item_sales (df : list sale) : list item_sales_row :=
  let item_sales := reset_index (groupby_sum Item_Name Amount df) in
  sort_values_desc i_Amount item_sales.

(** [pareto_df] before the cumulative columns are added: beyond
    [N_TOP_ITEMS] items the tail is collapsed into one row. *)
Definition top_n_and_other (item_sales : list item_sales_row)
  : list item_sales_row :=
  if (N_TOP_ITEMS <? length item_sales)%nat then
    let df_top_n := take N_TOP_ITEMS item_sales in
    let df_other := drop N_TOP_ITEMS item_sales in
    let other_row := ("All Other Items", nansum (i_Amount <$> df_other)) in
    (* pd.concat([df_top_n, other_row]).reset_index(drop=True) *)
    reset_index (((fun r => (i_Item_Name r, i_Amount r)) <$> df_top_n)
                 ++ [other_row])%list
  else item_sales.

(** The rows of [pareto_df] and [pareto_summary]; the figure shows the same
    rows.  [.index[0]] is read on a frame that is not empty, so the handler
    of [IndexError] is never entered. *)
Definition make_plot7_pareto_analysis (df : list sale)
  : list pareto_row * pareto_summary :=
  let item_sales := item_sales df in
  let pareto_df := top_n_and_other item_sales in
  let total_revenue := nansum (i_Amount <$> pareto_df) in
  let cumulative_amount := cumsum (i_Amount <$> pareto_df) in
  let pareto_df :=
    zip_with (fun r c => {| p_index := i_index r;
                            p_Item_Name := i_Item_Name r;
                            p_Amount := i_Amount r;
                            Cumulative_Amount := c;
                            Cumulative_Pct := of_int 100 * c / total_revenue |})
      pareto_df cumulative_amount in
  let total_items := length item_sales in
  let pareto_summary :=
    match filter (fun r => (Cumulative_Pct r >=? of_int 80) = true) pareto_df with
    | [] => Insufficient_item_diversity
    | r :: _ =>
        let num_items_for_80 := (p_index r + 1)%Z in
        let pct_items :=
          of_int (100 * num_items_for_80) / of_int (Z.of_nat total_items) in
        Top_items num_items_for_80 pct_items
    end in
  (pareto_df, pareto_summary).

(** ** The category treemap *)

(** The values plotly computes for the treemap of
    [path=[Constant("All Items"), 'Category', 'Item Name']] and
    [values='Amount']: the value of a node is the sum of [Amount] over the
    rows below it.  The order of the nodes of a level gives the order of
    the tiles only. *)
Record treemap := {
  tm_root : F;
  tm_categories : list (string * F);
  tm_leaves : list (string * string * F)
}.

Definition make_plot5_category_treemap (df : list sale) : treemap :=
  {| tm_root := nansum (Amount <$> df);
     tm_categories := groupby_sum Category Amount df;
     tm_leaves :=
       (fun kc =>
          let '(c, k) := kc in
          (c, k, nansum (Amount <$>
                   filter (fun r => Category r = c /\ Item_Name r = k) df)))
       <$> remove_dups ((fun r => (Category r, Item_Name r)) <$> df) |}.

(** ** The monthly revenue chart *)

(** The groups of [groupby('Month')] on the categorical column, in the
    order of the categories; a row whose month is nan is in no group.
    [observed] is the parameter of that name, which the code leaves at its
    default: [False] in pandas 1 and 2 (every category has a group, an
    empty one when no row has the month), [True] from pandas 3 on (only
    the months that occur). *)
Definition month_groups (observed : bool) (df : list sale) : list string :=
  filter (fun m => observed = false \/ Some m ∈ Month <$> df) month_order.

(** [sales_per_month], the table of the bar chart. *)
Definition make_plot1_sales_per_month (observed : bool) (df : list sale)
  : list (string * F) :=
  (fun m => (m, nansum (Amount <$> filter (fun r => Month r = Some m) df)))
  <$> month_groups observed df.

(** ** The top 10 items *)

(** [top_10_items], the table the function returns beside the bar chart.
    A total is nan only when infinite amounts of both signs are added;
    [nlargest] tells where such a row goes. *)
Definition make_plot2_top_10_items (df : list sale) : list (string * F) :=
  nlargest 10 snd (groupby_sum Item_Name Amount df).

(** ** The monthly trends of the top 10 items *)

Record trend_row := {
  t_Month : string;
  t_Item_Name : string;
  t_Amount : F
}.

(** [list.index(x)]: the position of the first occurrence of [x]; [None]
    stands for the [ValueError] of a value that does not occur. *)
Fixpoint list_index (x : string) (l : list string) : option nat :=
  match l with
  | [] => None
  | y :: l' => if String.eqb y x then Some 0%nat else S <$> list_index x l'
  end.

(** The code of a month in the ordered categorical. *)
Definition month_code (m : string) : nat :=
  default (length month_order) (list_index m month_order).

(** [monthly_sales_top_10], the table the function returns beside the line
    chart.  Grouping by the categorical [Month] and by [Item Name] gives,
    with [observed=False], one row for every month and every item of
    [df_top_10], of amount 0 where the item has no sale in the month, and
    with [observed=True] the rows of the pairs that occur; the rows come by
    month, then by item name.  [sort_values('Month')] orders by the code of
    the month; pandas sorts with an unstable quicksort, rows of equal month
    are kept here in their input order. *)
Definition make_plot4_top_10_trends (observed : bool) (df : list sale)
    (top_10_item_names : list string) : list trend_row :=
  let df_top_10 := filter (fun r => Item_Name r ∈ top_10_item_names) df in
  let groups :=
    filter (fun mk => observed = false \/
                      (Some (fst mk), snd mk) ∈
                        (fun r => (Month r, Item_Name r)) <$> df_top_10)
      (list_prod month_order (group_keys (Item_Name <$> df_top_10))) in
  let monthly_sales_top_10 :=
    (fun mk =>
       {| t_Month := fst mk;
          t_Item_Name := snd mk;
          t_Amount :=
            nansum (Amount <$>
                    filter (fun r => Month r = Some (fst mk) /\ Item_Name r = snd mk)
                      df_top_10) |}) <$> groups in
  sort_by (fun y x => (month_code (t_Month y) <? month_code (t_Month x))%nat)
    monthly_sales_top_10.

(** ** The dashboard *)

(** The four entries of the Executive Summary. *)
Record action_plan := {
  pareto_str : pareto_summary;
  superstar_str : string;
  rising_str : string;
  fading_str : string
}.

(** The entries are read off the first rows of the tables.  [.iloc[0]] is
    applied to a frame that is not empty, so the handler of [Exception] is
    never entered. *)
Definition executive_summary (summary : pareto_summary)
    (top_10_items : list (string * F)) (rising_stars fading_items : list growth_row)
  : action_plan :=
  {| pareto_str := summary;
     superstar_str :=
       match top_10_items with
       | r :: _ => fst r
       | [] => "N/A"
       end;
     rising_str :=
       match rising_stars with
       | r :: _ => g_Item_Name r
       | [] => "N/A (no significant rising stars)"
       end;
     fading_str :=
       match fading_items with
       | r :: _ => g_Item_Name r
       | [] => "N/A (no significant fading items)"
       end |}.

(** The Executive Summary that [main] shows for the dataset [df]. *)
Definition main_action_plan (df : list sale) : action_plan :=
  let top_10_items := make_plot2_top_10_items df in
  let '(rising_stars, fading_items) := make_plot6_movers_and_shakers df in
  let '(_, summary) := make_plot7_pareto_analysis df in
  executive_summary summary top_10_items rising_stars fading_items.

(** [Series.unique()]: the distinct values, in the order of their first
    occurrence. *)
Fixpoint unique_from (seen l : list string) : list string :=
  match l with
  | [] => []
  | x :: l' =>
      if bool_decide (x ∈ seen) then unique_from seen l'
      else x :: unique_from (x :: seen) l'
  end.

Definition unique (l : list string) : list string := unique_from [] l.

(** The preselected option of the item selector: "Beef Ramen" if it
    exists, otherwise the first item. *)
Definition default_index (item_list : list string) : nat :=
  match list_index "Beef Ramen" item_list with
  | Some i => i
  | None => 0%nat
  end.

(** [st.selectbox(label, options, index)] returns the option the user has
    picked, and [options[index]] as long as none was picked; with no option
    to choose from it returns [None].  [pick] is the position of the option
    picked by the user, if any. *)
Definition selectbox (options : list string) (index : nat) (pick : option nat)
  : option string :=
  options !! default index pick.

(** The "What-If" Menu Item Planner of [main]: the item and the two
    percentages come from the widgets, and the figure from
    [make_plot3_what_if_quadrant]. *)
Definition main_what_if (item_summary_df : ref) (pick : option nat)
    (count_change_pct price_change_pct : Z) : M figure :=
  let* rows := df_rows item_summary_df in
  let item_list := unique (s_Item_Name <$> rows) in
  match selectbox item_list (default_index item_list) pick with
  | Some item_to_change =>
      make_plot3_what_if_quadrant item_summary_df item_to_change
        (of_int count_change_pct) (of_int price_change_pct)
  | None =>
      (* item_to_change is None: no row has this name *)
      let* df_what_if := df_copy item_summary_df in
      do st_error "Could not find item 'None' to model."
      then ret empty_figure
  end.
End Pandas.

Arguments raw_sale : clear implicits.
Arguments sale : clear implicits.
Arguments summary_row : clear implicits.
Arguments growth_row : clear implicits.
Arguments pareto_row : clear implicits.
Arguments item_sales_row : clear implicits.
Arguments pareto_summary : clear implicits.
Arguments state : clear implicits.
Arguments figure : clear implicits.
Arguments scatter : clear implicits.
Arguments line_shape : clear implicits.
Arguments treemap : clear implicits.
Arguments trend_row : clear implicits.
Arguments action_plan : clear implicits.

(** ** Sample data *)

Section Samples.
Context {F : Type} `{Float F}.

(** A summary table with the item of the specification's example: 100
    units at 10 each. *)
Definition sample_summary : list (summary_row F) :=
  [ {| s_Item_Name := "Beef Ramen"; Total_Amount := of_int 1000;
       Total_Count := of_int 100; Avg_Price := of_int 10 |};
    {| s_Item_Name := "Thai Tea"; Total_Amount := of_int 300;
       Total_Count := of_int 100; Avg_Price := of_int 3 |} ].

Definition sample_state : state F :=
  {| frames := {[ 1%positive := sample_summary ]}; st_errors := [] |}.

Definition raw (name month : string) (amount count : Z) : raw_sale F :=
  {| raw_Item_Name := name; raw_Month := month;
     raw_Amount := of_int amount; raw_Count := count |}.

(** A small dataset. *)
Definition sample_rows : list (raw_sale F) :=
  [ raw "Beef Ramen" "May" 700 70; raw "Thai Tea" "June" 300 100;
    raw "Beef Ramen" "August" 300 30; raw "Spring Rolls" "September" 600 50 ].

Definition sample_sales : list (sale F) := load_and_clean_data sample_rows.

(** The store that holds the item summary of the small dataset. *)
Definition sample_summary_state : state F :=
  {| frames := {[ 1%positive := get_item_summary sample_sales ]};
     st_errors := [] |}.

(** One item, sold in the second half of the season only. *)
Definition new_item_sales : list (sale F) :=
  load_and_clean_data [ raw "Spring Rolls" "September" 600 50 ].

(** One item that was given away: every amount is zero. *)
Definition free_item_sales : list (sale F) :=
  load_and_clean_data [ raw "Hot Water" "May" 0 12 ].

(** [n] items, all sold in the second half of the season only, the
    [i]-th for 600 + 10 i. *)
Definition new_menu_sales (n : nat) : list (sale F) :=
  load_and_clean_data
    ((fun i => raw ("Item " ++ pretty i) "September" (600 + 10 * Z.of_nat i) 1)
     <$> seq 0 n).

(** Three items sold for 0.10, 0.70 and 0.20. *)
Definition dime_sales : list (sale F) :=
  load_and_clean_data
    [ {| raw_Item_Name := "Thai Tea"; raw_Month := "May";
         raw_Amount := (of_int 1 / of_int 10)%F; raw_Count := 1 |};
      {| raw_Item_Name := "Fried Rice"; raw_Month := "May";
         raw_Amount := (of_int 7 / of_int 10)%F; raw_Count := 1 |};
      {| raw_Item_Name := "Soda"; raw_Month := "May";
         raw_Amount := (of_int 2 / of_int 10)%F; raw_Count := 1 |} ].

(** A menu of [n] items of equal revenue. *)
Definition flat_menu (n : nat) : list (sale F) :=
  load_and_clean_data
    ((fun i => raw ("Item " ++ pretty i) "May" 10 1) <$> seq 0 n).

(** An item that was sold but never counted. *)
Definition uncounted_sales : list (sale F) :=
  load_and_clean_data [ raw "Fortune Cookie" "May" 5 0 ].

(** Two items; the one that comes second by name has nine tenths of the
    revenue. *)
Definition tea_house_sales : list (sale F) :=
  load_and_clean_data
    [ raw "Thai Tea" "May" 900 300; raw "Beef Ramen" "June" 100 10 ].

(** The small dataset with one more row, whose month is not one of the six
    categories. *)
Definition off_season_rows : list (raw_sale F) :=
  (sample_rows ++ [ raw "Beef Ramen" "April" 50 5 ])%list.

Definition off_season_sales : list (sale F) := load_and_clean_data off_season_rows.

(** One item, sold twice in bulk: [2^62] units each time. *)
Definition bulk_sales : list (sale F) :=
  load_and_clean_data
    [ raw "Beef Ramen" "May" 1 (2 ^ 62); raw "Beef Ramen" "June" 1 (2 ^ 62) ].

(** One item: five billion units, for 75 in all. *)
Definition penny_sales : list (sale F) :=
  load_and_clean_data [ raw "Beef Ramen" "May" 75 5000000000 ].

(** One item, sold three times; the counts add up to [2^64 - 1]. *)
Definition wrapped_sales : list (sale F) :=
  load_and_clean_data
    [ raw "Beef Ramen" "May" 25 (2 ^ 63 - 1); raw "Beef Ramen" "June" 25 (2 ^ 63 - 1);
      raw "Beef Ramen" "July" 25 1 ].

(** The store that holds the item summary of a dataset. *)
Definition summary_state (df : list (sale F)) : state F :=
  {| frames := {[ 1%positive := get_item_summary df ]}; st_errors := [] |}.

(** One item, sold in the second half of the season only, for [2^1000]. *)
Definition windfall_sales : list (sale F) :=
  load_and_clean_data [ raw "Spring Rolls" "September" (2 ^ 1000) 1 ].

(** One item, sold for [2^1020]. *)
Definition fortune_sales : list (sale F) :=
  load_and_clean_data [ raw "Beef Ramen" "May" (2 ^ 1020) 1 ].

(** Two items, each sold for [2^1023]. *)
Definition twin_fortune_sales : list (sale F) :=
  load_and_clean_data
    [ raw "Beef Ramen" "May" (2 ^ 1023) 1; raw "Thai Tea" "June" (2 ^ 1023) 1 ].
End Samples.

(** * Properties *)

Local Open Scope list_scope.

(** ** Lists *)

Lemma insert_by_Permutation {A} (before : A -> A -> bool) (x : A) (l : list A) :
  insert_by before x l ≡ₚ x :: l.
Proof.
  induction l as [|y l IH]; simpl; [done|].
  destruct (before y x); [|done]. rewrite IH. apply Permutation_swap.
Qed.

Lemma sort_by_Permutation {A} (before : A -> A -> bool) (l : list A) :
  sort_by before l ≡ₚ l.
Proof.
  induction l as [|x l IH]; simpl; [done|].
  rewrite insert_by_Permutation. by rewrite IH.
Qed.

Lemma insert_by_ext_in {A} (b1 b2 : A -> A -> bool) (x : A) (l : list A) :
  (forall y, y ∈ l -> b1 y x = b2 y x) -> insert_by b1 x l = insert_by b2 x l.
Proof.
  induction l as [|y l IH]; intros Hl; [done|]. simpl.
  rewrite (Hl y) by (by left). rewrite IH; [done|].
  intros z Hz. apply Hl. by right.
Qed.

Lemma sort_by_ext_in {A} (b1 b2 : A -> A -> bool) (l : list A) :
  (forall x y, x ∈ l -> y ∈ l -> b1 y x = b2 y x) -> sort_by b1 l = sort_by b2 l.
Proof.
  induction l as [|x l IH]; intros Hl; [done|]. simpl.
  rewrite IH by (intros y z Hy Hz; apply Hl; by right).
  apply insert_by_ext_in. intros y Hy. apply Hl; [by left|].
  right. by rewrite sort_by_Permutation in Hy.
Qed.

Lemma filter_fmap {A B} (f : A -> B) (P : B -> Prop) `{!forall y, Decision (P y)}
    (l : list A) :
  filter P (f <$> l) = f <$> filter (fun x => P (f x)) l.
Proof.
  induction l as [|x l IH]; [done|]. rewrite fmap_cons, !filter_cons.
  destruct (decide (P (f x))); by rewrite IH.
Qed.

Lemma filter_ext_in {A} (P Q : A -> Prop) `{!forall x, Decision (P x)}
    `{!forall x, Decision (Q x)} (l : list A) :
  (forall x, x ∈ l -> P x <-> Q x) -> filter P l = filter Q l.
Proof.
  induction l as [|x l IH]; intros Hl; [done|].
  rewrite !filter_cons, IH by (intros y Hy; apply Hl; by right).
  apply decide_ext, Hl. by left.
Qed.

Lemma filter_all {A} (P : A -> Prop) `{!forall x, Decision (P x)} (l : list A) :
  (forall x, x ∈ l -> P x) -> filter P l = l.
Proof.
  induction l as [|x l IH]; intros Hl; [done|].
  rewrite filter_cons_True by (apply Hl; by left).
  rewrite IH; [done|]. intros y Hy. apply Hl. by right.
Qed.

Lemma filter_none {A} (P : A -> Prop) `{!forall x, Decision (P x)} (l : list A) :
  (forall x, x ∈ l -> ~ P x) -> filter P l = [].
Proof.
  induction l as [|x l IH]; intros Hl; [done|].
  rewrite filter_cons_False by (apply Hl; by left).
  apply IH. intros y Hy. apply Hl. by right.
Qed.

Lemma fmap_zip_with_snd {A B C D} (f : A -> B -> C) (g : C -> D) (h : B -> D)
    (l : list A) (k : list B) :
  (forall x y, g (f x y) = h y) -> length l = length k ->
  g <$> zip_with f l k = h <$> k.
Proof.
  intros Hg. revert k. induction l as [|x l IH]; intros [|y k] Hlen; try done.
  simpl in *. rewrite Hg, IH; [done|lia].
Qed.

Lemma StronglySorted_lookup_le {A} (R : relation A) `{!Reflexive R} (l : list A)
    (i j : nat) (x y : A) :
  StronglySorted R l -> (i <= j)%nat -> l !! i = Some x -> l !! j = Some y -> R x y.
Proof.
  intros Hs. revert i j. induction Hs as [|z l _ IH Hz]; intros i j Hij Hi Hj; [done|].
  destruct i as [|i], j as [|j]; simpl in *; try lia.
  - by simplify_eq.
  - simplify_eq. rewrite Forall_forall in Hz. by eapply Hz, list_elem_of_lookup_2.
  - eapply (IH i j); [lia|done..].
Qed.

Lemma elem_of_take_all {A} (n : nat) (l s : list A) (r : A) :
  s ≡ₚ l -> (length l <= n)%nat -> r ∈ l -> r ∈ take n s.
Proof.
  intros Hperm Hlen Hr. rewrite take_ge; [by rewrite Hperm|].
  by rewrite (Permutation_length Hperm).
Qed.

(** ** Exact arithmetic *)

Lemma xq_eqb_eq (x y : xq) : xq_eqb x y = true -> x = y.
Proof.
  destruct x as [p|s|], y as [q|t|]; simpl; try discriminate; intros Hb.
  - f_equal. by apply Qc_eq_bool_correct.
  - f_equal. by apply Bool.eqb_prop.
  - reflexivity.
Qed.

Lemma Qc_ltb_lt (p q : Qc) : Qc_ltb p q = true <-> (p < q)%Qc.
Proof.
  unfold Qc_ltb, Qclt. rewrite negb_true_iff, <- not_true_iff_false, Qle_bool_iff.
  split; [apply Qnot_le_lt|apply Qlt_not_le].
Qed.

Lemma Qc_leb_le (p q : Qc) : Qc_leb p q = true <-> (p <= q)%Qc.
Proof. unfold Qc_leb, Qcle. apply Qle_bool_iff. Qed.

Lemma Qc_is0_true (p : Qc) : Qc_is0 p = true <-> p = 0%Qc.
Proof.
  unfold Qc_is0. rewrite Qeq_bool_iff. split.
  - intros Hq. apply Qc_is_canon. exact Hq.
  - by intros ->.
Qed.

Lemma Qc_is0_false (p : Qc) : p <> 0%Qc -> Qc_is0 p = false.
Proof. intros Hp. apply not_true_iff_false. by rewrite Qc_is0_true. Qed.

Lemma Qc_of_Z_nonneg (z : Z) : 0 <= z -> (0 <= Qc_of_Z z)%Qc.
Proof.
  intros Hz. unfold Qcle, Qc_of_Z. cbn [this Q2Qc]. rewrite !Qred_correct.
  change 0%Q with (inject_Z 0). by rewrite <- Zle_Qle.
Qed.

Lemma Qc_1e_6_pos : (0 < Q2Qc (1 # 1000000))%Qc.
Proof. reflexivity. Qed.

Lemma Qclt_neq0 (q : Qc) : (0 < q)%Qc -> q <> 0%Qc.
Proof. intros Hq ->. by apply (Qclt_not_eq _ _ Hq). Qed.

Ltac Qc_unfold :=
  repeat (progress (unfold Qcle, Qclt, Qcdiv, Qcminus, Qcplus, Qcmult, Qcinv, Qcopp;
                    cbn [this Q2Qc]; rewrite ?Qred_correct)).

Lemma Qcplus_pos_nonneg (p q : Qc) : (0 <= p -> 0 < q -> 0 < p + q)%Qc.
Proof.
  unfold Qcle, Qclt, Qcplus. simpl. rewrite !Qred_correct. intros. lra.
Qed.

Lemma Qcplus_nonneg (p q : Qc) : (0 <= p -> 0 <= q -> 0 <= p + q)%Qc.
Proof.
  unfold Qcle, Qcplus. simpl. rewrite !Qred_correct. intros. lra.
Qed.

Lemma Qcdiv_nonneg (p q : Qc) : (0 <= p -> 0 < q -> 0 <= p / q)%Qc.
Proof.
  unfold Qcle, Qclt, Qcdiv, Qcmult, Qcinv. simpl. rewrite !Qred_correct.
  intros Hp Hq. apply Qmult_le_0_compat; [done|].
  apply Qlt_le_weak, Qinv_lt_0_compat, Hq.
Qed.

Lemma Qc_scaled_below (c a e : Qc) :
  (0 <= c -> 0 < e -> 0 < a -> c * (a / (c + e)) < a)%Qc.
Proof.
  Qc_unfold. intros Hc He Ha.
  assert (Hd : (0 < c + e)%Q) by lra.
  assert (Hi : (0 < / (c + e))%Q) by (by apply Qinv_lt_0_compat).
  assert (Hq : (c * / (c + e) < 1)%Q).
  { apply Qlt_shift_div_r; [done|]. lra. }
  apply Qle_lt_trans with (a * (c * / (c + e)))%Q.
  { apply Qle_lteq; right. ring. }
  apply Qlt_le_trans with (a * 1)%Q; [by apply Qmult_lt_l|].
  apply Qle_lteq; right; ring.
Qed.

Lemma Qc_pct_mono (c c' t : Qc) :
  (0 < t -> c <= c' -> Qc_of_Z 100 * c / t <= Qc_of_Z 100 * c' / t)%Qc.
Proof.
  intros Ht Hc. unfold Qcdiv. apply Qcmult_le_compat_r.
  - rewrite !(Qcmult_comm (Qc_of_Z 100)). apply Qcmult_le_compat_r; [done|].
    by apply Qc_of_Z_nonneg.
  - revert Ht. Qc_unfold. intros Ht. by apply Qlt_le_weak, Qinv_lt_0_compat.
Qed.

Lemma Qc_ltb_opp (p q : Qc) : Qc_ltb (- q) (- p) = Qc_ltb p q.
Proof.
  apply eq_true_iff_eq. rewrite !Qc_ltb_lt. Qc_unfold. split; intros; lra.
Qed.

Lemma Qcle_opp (p q : Qc) : (- q <= - p)%Qc <-> (p <= q)%Qc.
Proof. Qc_unfold. split; intros; lra. Qed.

Lemma Qc_growth_from_zero (s : Qc) :
  (Qc_of_Z 100 * (s - 0) / (0 + Q2Qc (1 # 1000000)))%Qc = (Qc_of_Z 100000000 * s)%Qc.
Proof.
  apply Qc_is_canon. unfold Qc_of_Z. Qc_unfold. field.
Qed.

Lemma nonneg_finite (x : xq) : nonneg x -> finite x.
Proof. intros (q & -> & _). by exists q. Qed.

(** ** Sums *)

Lemma qsum_cons (q : Qc) (l : list Qc) : qsum (q :: l) = (q + qsum l)%Qc.
Proof. reflexivity. Qed.

Lemma qsum_app (l1 l2 : list Qc) : qsum (l1 ++ l2) = (qsum l1 + qsum l2)%Qc.
Proof.
  induction l1 as [|q l1 IH]; simpl; [by rewrite Qcplus_0_l|].
  by rewrite IH, Qcplus_assoc.
Qed.

Lemma qsum_Permutation (l1 l2 : list Qc) : l1 ≡ₚ l2 -> qsum l1 = qsum l2.
Proof.
  induction 1 as [|q l1 l2 _ IH|p q l|l1 l2 l3 _ IH1 _ IH2]; simpl.
  - done.
  - by rewrite IH.
  - rewrite !Qcplus_assoc. f_equal. apply Qcplus_comm.
  - congruence.
Qed.

Lemma qsum_nonneg (l : list Qc) : Forall (fun q => (0 <= q)%Qc) l -> (0 <= qsum l)%Qc.
Proof.
  induction 1 as [|q l Hq _ IH]; simpl; [apply Qcle_refl|by apply Qcplus_nonneg].
Qed.

Lemma qsum_zero {K} (ks : list K) : qsum ((fun _ => 0%Qc) <$> ks) = 0%Qc.
Proof.
  induction ks as [|k ks IH]; [done|].
  by rewrite fmap_cons, qsum_cons, IH, Qcplus_0_l.
Qed.

Lemma qsum_plus {K} (f g : K -> Qc) (ks : list K) :
  qsum ((fun k => f k + g k)%Qc <$> ks) = (qsum (f <$> ks) + qsum (g <$> ks))%Qc.
Proof.
  induction ks as [|k ks IH]; [by rewrite Qcplus_0_l|].
  rewrite !fmap_cons, !qsum_cons, IH. ring.
Qed.

Lemma qsum_indicator `{EqDecision K} (k0 : K) (v : Qc) (ks : list K) :
  NoDup ks -> k0 ∈ ks ->
  qsum ((fun k => if decide (k0 = k) then v else 0%Qc) <$> ks) = v.
Proof.
  induction 1 as [|k ks Hk Hnd IH]; intros Hin; [by apply elem_of_nil in Hin|].
  rewrite fmap_cons, qsum_cons. apply elem_of_cons in Hin as [->|Hin].
  - rewrite decide_True by done.
    rewrite (list_fmap_ext _ (fun _ => 0%Qc) ks), qsum_zero; [ring|].
    intros i x Hx. rewrite decide_False; [done|]. intros ->.
    by apply list_elem_of_lookup_2 in Hx.
  - rewrite decide_False by (intros ->; done). rewrite IH by done. ring.
Qed.

(** Every row falls into exactly one group. *)
Lemma qsum_groups {A} `{EqDecision K} (key : A -> K) (val : A -> Qc)
    (ks : list K) (df : list A) :
  NoDup ks ->
  (forall r, r ∈ df -> key r ∈ ks) ->
  qsum ((fun k => qsum (val <$> filter (fun r => key r = k) df)) <$> ks) =
  qsum (val <$> df).
Proof.
  intros Hnd. induction df as [|r df IH]; intros Hks.
  - apply (qsum_zero ks).
  - rewrite (list_fmap_ext _
      (fun k => (if decide (key r = k) then val r else 0) +
                qsum (val <$> filter (fun r => key r = k) df))%Qc ks).
    + rewrite qsum_plus, qsum_indicator, IH; [done| |done|].
      * intros x Hx. apply Hks. by right.
      * apply Hks. by left.
    + intros _ k _. destruct (decide (key r = k)) as [Hk|Hk].
      * by rewrite filter_cons_True.
      * rewrite filter_cons_False by done. by rewrite Qcplus_0_l.
Qed.

(** The sum of a column without nan and infinities. *)
Lemma fold_left_xq_add (qs : list Qc) (a : Qc) :
  fold_left xq_add (XFin <$> qs) (XFin a) = XFin (a + qsum qs)%Qc.
Proof.
  revert a. induction qs as [|q qs IH]; intros a; simpl.
  - by rewrite Qcplus_0_r.
  - rewrite IH. by rewrite Qcplus_assoc.
Qed.

Lemma filter_notna_XFin (qs : list Qc) :
  filter (notna (F:=xq)) (XFin <$> qs) = XFin <$> qs.
Proof.
  induction qs as [|q qs IH]; [done|].
  rewrite fmap_cons, filter_cons_True by done. by rewrite IH.
Qed.

Lemma nansum_XFin (qs : list Qc) : nansum (XFin <$> qs) = XFin (qsum qs).
Proof.
  unfold nansum. rewrite filter_notna_XFin.
  change (of_int 0) with (XFin 0%Qc). cbn [fadd xq_float].
  by rewrite fold_left_xq_add, Qcplus_0_l.
Qed.

Lemma Forall_finite_fmap (xs : list xq) :
  Forall finite xs -> xs = XFin <$> (xq_val <$> xs).
Proof.
  induction 1 as [|x xs [q ->] _ IH]; [done|]. rewrite !fmap_cons. by f_equal.
Qed.

Lemma nansum_finite (xs : list xq) :
  Forall finite xs -> nansum xs = XFin (qsum (xq_val <$> xs)).
Proof. intros Hxs. by rewrite (Forall_finite_fmap _ Hxs) at 1; rewrite nansum_XFin. Qed.

Lemma Forall_finite_filter {A} (val : A -> xq) (P : A -> Prop)
    `{forall r, Decision (P r)} (df : list A) :
  Forall finite (val <$> df) -> Forall finite (val <$> filter P df).
Proof.
  rewrite !Forall_fmap, !Forall_forall. intros Hdf r Hr.
  apply list_elem_of_filter in Hr as [_ Hr]. by apply Hdf.
Qed.

Lemma wrap64_small (z : Z) : - 2 ^ 63 <= z < 2 ^ 63 -> wrap64 z = z.
Proof. intros Hz. unfold wrap64. rewrite Z.mod_small; lia. Qed.

Lemma wrap64_add_l (a b : Z) : wrap64 (wrap64 a + b) = wrap64 (a + b).
Proof.
  unfold wrap64. f_equal.
  replace ((a + 2 ^ 63) mod 2 ^ 64 - 2 ^ 63 + b + 2 ^ 63)
    with ((a + 2 ^ 63) mod 2 ^ 64 + b) by lia.
  rewrite Zplus_mod_idemp_l. f_equal. lia.
Qed.

Lemma wrap64_add_r (a b : Z) : wrap64 (a + wrap64 b) = wrap64 (a + b).
Proof. by rewrite (Z.add_comm a), wrap64_add_l, Z.add_comm. Qed.

Lemma fold_left_wrap64 (xs : list Z) (a : Z) :
  fold_left (fun acc x => wrap64 (acc + x)) xs (wrap64 a) = wrap64 (a + exact_sum xs).
Proof.
  revert a. induction xs as [|x xs IH]; intros a; simpl.
  - by rewrite Z.add_0_r.
  - rewrite wrap64_add_l, IH. f_equal. lia.
Qed.

(** The int64 sum of a column is its sum, wrapped around. *)
Lemma sum_int_wrap (xs : list Z) : sum_int xs = wrap64 (exact_sum xs).
Proof.
  pose proof (fold_left_wrap64 xs 0) as Hsum.
  rewrite (wrap64_small 0) in Hsum by lia. exact Hsum.
Qed.

Lemma exact_sum_cons (x : Z) (xs : list Z) : exact_sum (x :: xs) = x + exact_sum xs.
Proof. reflexivity. Qed.

Lemma exact_sum_nonneg (xs : list Z) : Forall (fun z => 0 <= z) xs -> 0 <= exact_sum xs.
Proof. induction 1; rewrite ?exact_sum_cons; [done|lia]. Qed.

(** Counts that are not negative and add up to less than [2^63] are added
    without a wrap-around. *)
Lemma sum_int_in_range (xs : list Z) :
  Forall (fun z => 0 <= z) xs -> exact_sum xs < 2 ^ 63 -> sum_int xs = exact_sum xs.
Proof.
  intros Hxs Hlt. rewrite sum_int_wrap. apply wrap64_small.
  pose proof (exact_sum_nonneg xs Hxs). lia.
Qed.

Lemma exact_sum_filter_le {A} (f : A -> Z) (P : A -> Prop) `{!forall x, Decision (P x)}
    (l : list A) :
  Forall (fun x => 0 <= f x) l ->
  0 <= exact_sum (f <$> filter P l) <= exact_sum (f <$> l).
Proof.
  induction 1 as [|x l Hx _ IH]; [done|]. rewrite filter_cons.
  destruct (decide (P x)); rewrite ?fmap_cons, ?exact_sum_cons; lia.
Qed.

(** The count of a group of a dataset whose counts are not negative and add
    up to less than [2^63]. *)
Lemma sum_int_group {A} (f : A -> Z) (P : A -> Prop) `{!forall x, Decision (P x)}
    (l : list A) :
  Forall (fun x => 0 <= f x) l -> exact_sum (f <$> l) < 2 ^ 63 ->
  sum_int (f <$> filter P l) = exact_sum (f <$> filter P l) /\
  0 <= sum_int (f <$> filter P l).
Proof.
  intros Hl Hlt. pose proof (exact_sum_filter_le f P l Hl) as Hle.
  rewrite sum_int_in_range; [lia| |lia].
  rewrite Forall_fmap. apply Forall_forall. intros x Hx.
  apply list_elem_of_filter in Hx as [_ Hx]. rewrite Forall_forall in Hl. by apply Hl.
Qed.

Lemma cumsum_from_XFin (a : Qc) (qs : list Qc) :
  cumsum_from (XFin a) (XFin <$> qs) = XFin <$> running_sums a qs.
Proof.
  revert a. induction qs as [|q qs IH]; intros a; [done|].
  simpl. f_equal. apply IH.
Qed.

Lemma length_cumsum_from {F} `{Float F} (acc : F) (xs : list F) :
  length (cumsum_from acc xs) = length xs.
Proof.
  revert acc. induction xs as [|x xs IH]; intros acc; [done|]. simpl.
  destruct (is_nan x); simpl; by rewrite IH.
Qed.

Lemma running_sums_bounds (a : Qc) (qs : list Qc) :
  Forall (fun q => (0 <= q)%Qc) qs ->
  Forall (fun c => (a <= c)%Qc) (running_sums a qs) /\
  StronglySorted Qcle (running_sums a qs).
Proof.
  intros Hqs. revert a. induction Hqs as [|q qs Hq _ IH]; intros a; simpl.
  - split; constructor.
  - assert (Ha : (a <= a + q)%Qc).
    { rewrite <- (Qcplus_0_r a) at 1. rewrite !(Qcplus_comm a).
      apply Qcplus_le_compat; [done|apply Qcle_refl]. }
    destruct (IH (a + q)%Qc) as [Hb Hs]. split.
    + constructor; [done|]. eapply Forall_impl; [exact Hb|].
      intros c Hc. by apply Qcle_trans with (a + q)%Qc.
    + by constructor.
Qed.

Lemma last_running_sums (a : Qc) (qs : list Qc) :
  qs <> [] -> last (running_sums a qs) = Some (a + qsum qs)%Qc.
Proof.
  revert a. induction qs as [|q qs IH]; intros a Hne; [done|].
  destruct qs as [|q' qs].
  - simpl. by rewrite Qcplus_0_r.
  - change (running_sums a (q :: q' :: qs))
      with ((a + q)%Qc :: running_sums (a + q)%Qc (q' :: qs)).
    rewrite last_cons, IH by done. simpl. by rewrite <- !Qcplus_assoc.
Qed.

(** ** Ranking *)

Section Ranking.
Context {A : Type} (rank : A -> Qc).

Local Abbreviation by_rank := (fun y x : A => Qc_ltb (rank y) (rank x)).
Local Abbreviation rank_le := (fun x y : A => (rank x <= rank y)%Qc).

Lemma insert_by_rank_sorted (x : A) (l : list A) :
  StronglySorted rank_le l -> StronglySorted rank_le (insert_by by_rank x l).
Proof.
  induction 1 as [|y l Hs IH Hy]; simpl; [repeat constructor|].
  destruct (Qc_ltb (rank y) (rank x)) eqn:Hlt.
  - apply Qc_ltb_lt in Hlt. constructor; [done|].
    rewrite insert_by_Permutation. constructor; [|done].
    by apply Qclt_le_weak.
  - assert (Hxy : (rank x <= rank y)%Qc).
    { apply Qcnot_lt_le. intros Hlt'. apply Qc_ltb_lt in Hlt'. congruence. }
    constructor; [by constructor|]. constructor; [done|].
    eapply Forall_impl; [exact Hy|]. intros z Hz.
    by apply Qcle_trans with (rank y).
Qed.

Lemma sort_by_rank_sorted (l : list A) :
  StronglySorted rank_le (sort_by by_rank l).
Proof.
  induction l as [|x l IH]; simpl; [constructor|by apply insert_by_rank_sorted].
Qed.

(** A row that at most [n] rows (itself included) do not outrank is among
    the first [n]. *)
Lemma elem_of_take_sorted (s : list A) (n : nat) (r : A) :
  StronglySorted rank_le s -> r ∈ s ->
  (length (filter (fun x => (rank x <= rank r)%Qc) s) <= n)%nat ->
  r ∈ take n s.
Proof.
  intros Hs. revert n. induction Hs as [|y s _ IH Hy]; intros n Hr Hlen.
  - by apply elem_of_nil in Hr.
  - apply elem_of_cons in Hr as [->|Hr].
    + rewrite filter_cons_True in Hlen by apply Qcle_refl.
      destruct n; simpl in *; [lia|]. by left.
    + rewrite Forall_forall in Hy.
      rewrite filter_cons_True in Hlen by (by apply Hy).
      destruct n; simpl in *; [lia|]. right. apply IH; [done|lia].
Qed.

(** A row that at least [n] rows precede strictly is not among the first
    [n]. *)
Lemma not_elem_of_take_sorted (s : list A) (n : nat) (r : A) :
  StronglySorted rank_le s ->
  (n <= length (filter (fun x => (rank x < rank r)%Qc) s))%nat ->
  r ∉ take n s.
Proof.
  intros Hs. revert n. induction Hs as [|y s _ IH Hy]; intros n Hlen.
  - rewrite take_nil. apply not_elem_of_nil.
  - destruct n as [|n]; [apply not_elem_of_nil|]. simpl.
    rewrite Forall_forall in Hy.
    apply not_elem_of_cons. split.
    + intros ->. rewrite filter_cons_False, filter_none in Hlen.
      * simpl in Hlen. lia.
      * intros x Hx Hlt. by apply (Qclt_not_le _ _ Hlt), Hy.
      * intros Hlt. by apply (Qclt_not_le _ _ Hlt), Qcle_refl.
    + apply IH. rewrite filter_cons in Hlen.
      destruct (decide (rank y < rank r)%Qc); simpl in Hlen; lia.
Qed.
End Ranking.

(** ** The classifier *)

Lemma lower_ascii_idemp (c : ascii) : lower_ascii (lower_ascii c) = lower_ascii c.
Proof. destruct c as [[] [] [] [] [] [] [] []]; reflexivity. Qed.

Lemma lower_idemp (s : string) : lower (lower s) = lower s.
Proof.
  induction s as [|c s IH]; simpl; [reflexivity|].
  now rewrite lower_ascii_idemp, IH.
Qed.

Lemma categorize_item_lower (item_name : string) :
  categorize_item (lower item_name) = categorize_item item_name.
Proof. unfold categorize_item. now rewrite lower_idemp. Qed.

Lemma categorize_item_first_match (item_name : string) :
  categorize_item item_name = category_name (classify_spec item_name).
Proof.
  unfold categorize_item, classify_spec, rule_groups.
  cbn [first_match group_matches existsb fst snd].
  rewrite !orb_false_r.
  repeat match goal with
         | |- context [if ?b then _ else _] => destruct b
         end; reflexivity.
Qed.

(** C3.  [categorize_item] is the first-match evaluation of the ordered rule
    groups Appetizers, Noodles, Rice, Combos/Specials, Drinks on the
    lower-cased name, with Other Entrees as the default; it returns one of the
    six category names for every name, and does not depend on the case of the
    letters.  "Steamed Dumplings" matches the Drinks group too (through "tea")
    and is classified as Appetizers, the earlier group, not as Drinks. *)
Theorem categorize_item_ordered_rules :
  (forall item_name : string,
     categorize_item item_name = category_name (classify_spec item_name)) /\
  (forall item_name : string,
     categorize_item item_name ∈ category_names) /\
  (forall item_name : string,
     categorize_item (lower item_name) = categorize_item item_name) /\
  group_matches (lower "Steamed Dumplings")
    (["tea"; "lemonade"; "soda"; "coke"; "pepsi"; "starry"; "crush"], Drinks) = true /\
  categorize_item "Steamed Dumplings" = "Appetizers" /\
  categorize_item "Steamed Dumplings" <> "Drinks".
Proof.
  split; [exact categorize_item_first_match|].
  split.
  { intros n. rewrite categorize_item_first_match.
    destruct (classify_spec n); unfold category_names; simpl; set_solver. }
  split; [exact categorize_item_lower|].
  split; [reflexivity|].
  split; [reflexivity|discriminate].
Qed.

(** ** Groups *)

Lemma group_keys_Permutation (keys : list string) :
  group_keys keys ≡ₚ remove_dups keys.
Proof. apply sort_by_Permutation. Qed.

Lemma elem_of_group_keys (keys : list string) (k : string) :
  k ∈ group_keys keys <-> k ∈ keys.
Proof. by rewrite group_keys_Permutation, elem_of_remove_dups. Qed.

Lemma NoDup_group_keys (keys : list string) : NoDup (group_keys keys).
Proof. rewrite group_keys_Permutation. apply NoDup_remove_dups. Qed.

Lemma elem_of_groupby {A} (key : A -> string) (df : list A) (k : string) (g : list A) :
  (k, g) ∈ groupby key df <->
  g = filter (fun r => key r = k) df /\ k ∈ key <$> df.
Proof.
  unfold groupby. rewrite list_elem_of_fmap. setoid_rewrite elem_of_group_keys.
  split.
  - by intros (k' & [= -> ->] & Hk).
  - intros [-> Hk]. by exists k.
Qed.

Lemma groupby_keys {A} (key : A -> string) (df : list A) :
  (groupby key df).*1 = group_keys (key <$> df).
Proof.
  unfold groupby. rewrite <- list_fmap_compose. apply list_fmap_id.
Qed.

(** The groups of the keys [ks] are a partition of the rows. *)
Lemma groups_partition {A} `{EqDecision K} (key : A -> K) (ks : list K) (df : list A) :
  NoDup ks ->
  (forall r, r ∈ df -> key r ∈ ks) ->
  concat ((fun k => filter (fun r => key r = k) df) <$> ks) ≡ₚ df.
Proof.
  intros Hnd. revert df. induction Hnd as [|k ks Hk Hnd IH]; intros df Hdf.
  - destruct df as [|r df]; [done|]. specialize (Hdf r). rewrite elem_of_nil in Hdf.
    destruct Hdf. by left.
  - rewrite fmap_cons, concat_cons.
    etrans; [|apply (filter_app_complement (fun r => key r = k) df)].
    f_equiv.
    rewrite (list_fmap_ext _
      (fun k' => filter (fun r => key r = k') (filter (fun r => ~ key r = k) df)) ks).
    + apply IH. intros r Hr. apply list_elem_of_filter in Hr as [Hne Hr].
      specialize (Hdf r Hr). apply elem_of_cons in Hdf as [?|?]; done.
    + intros i k' Hk'. apply list_elem_of_lookup_2 in Hk'. symmetry.
      apply list_filter_filter_l. intros r -> ->. done.
Qed.

Lemma groupby_partition {A} (key : A -> string) (df : list A) :
  concat (groupby key df).*2 ≡ₚ df.
Proof.
  unfold groupby. rewrite <- list_fmap_compose. apply groups_partition.
  - apply NoDup_group_keys.
  - intros r Hr. apply elem_of_group_keys, list_elem_of_fmap. by exists r.
Qed.

Lemma elem_of_groupby_sum {F} `{Float F} {A} (key : A -> string) (val : A -> F)
    (df : list A) (k : string) (v : F) :
  (k, v) ∈ groupby_sum key val df <->
  k ∈ key <$> df /\ v = nansum (val <$> filter (fun r => key r = k) df).
Proof.
  unfold groupby_sum. rewrite list_elem_of_fmap. split.
  - intros ([k' g] & [= -> ->] & Hg). apply elem_of_groupby in Hg as [-> Hk]. done.
  - intros [Hk ->]. exists (k, filter (fun r => key r = k) df). split; [done|].
    by apply elem_of_groupby.
Qed.

Lemma groupby_sum_finite {A} (key : A -> string) (val : A -> xq) (df : list A) :
  Forall finite (val <$> df) ->
  groupby_sum key val df =
  (fun k => (k, XFin (qsum (xq_val <$> (val <$> filter (fun r => key r = k) df)))))
  <$> group_keys (key <$> df).
Proof.
  intros Hfin. unfold groupby_sum, groupby. rewrite <- list_fmap_compose.
  apply list_fmap_ext. intros _ k _. simpl. f_equal.
  by apply nansum_finite, Forall_finite_filter.
Qed.

(** The totals of the groups add up to the total of the column. *)
Lemma groupby_sum_total {A} (key : A -> string) (val : A -> xq) (df : list A) :
  Forall finite (val <$> df) ->
  nansum (groupby_sum key val df).*2 = nansum (val <$> df).
Proof.
  intros Hfin. rewrite groupby_sum_finite by done.
  set (gk := group_keys (key <$> df)).
  set (v := fun r => xq_val (val r)).
  assert (Hrw : ((fun k => (k, XFin (qsum (xq_val <$> (val <$>
                    filter (fun r => key r = k) df))))) <$> gk).*2 =
                XFin <$> ((fun k => qsum (v <$> filter (fun r => key r = k) df))
                          <$> gk)).
  { rewrite <- !list_fmap_compose. apply list_fmap_ext. intros _ k _. simpl.
    by rewrite <- list_fmap_compose. }
  rewrite Hrw, nansum_XFin, nansum_finite by done. f_equal.
  rewrite <- list_fmap_compose. apply qsum_groups.
  - apply NoDup_group_keys.
  - intros r Hr. apply elem_of_group_keys, list_elem_of_fmap. by exists r.
Qed.

(** ** The sample data *)

Lemma sample_rows_nonneg :
  Forall (fun r => nonneg (raw_Amount r)) (sample_rows (F:=xq)).
Proof.
  repeat constructor; eexists; (split; [reflexivity|apply Qc_of_Z_nonneg; lia]).
Defined.

Lemma sample_sales_nonneg :
  Forall (fun x => nonneg (Amount x) /\ 0 <= Count x) (sample_sales (F:=xq)).
Proof.
  repeat constructor;
    try (eexists; split; [reflexivity|apply Qc_of_Z_nonneg; lia]); simpl; lia.
Defined.

(** ** The item summary *)

Lemma get_item_summary_names {F} `{Float F} (df : list (sale F)) :
  s_Item_Name <$> get_item_summary df = group_keys (Item_Name <$> df).
Proof.
  unfold get_item_summary. rewrite <- list_fmap_compose, <- groupby_keys.
  by apply list_fmap_ext.
Qed.

Lemma NoDup_get_item_summary {F} `{Float F} (df : list (sale F)) :
  NoDup (s_Item_Name <$> get_item_summary df).
Proof. rewrite get_item_summary_names. apply NoDup_group_keys. Qed.

Lemma elem_of_get_item_summary {F} `{Float F} (df : list (sale F)) (r : summary_row F) :
  r ∈ get_item_summary df ->
  let g := filter (fun x => Item_Name x = s_Item_Name r) df in
  s_Item_Name r ∈ Item_Name <$> df /\
  Total_Amount r = nansum (Amount <$> g) /\
  Total_Count r = of_int (sum_int (Count <$> g)) /\
  Avg_Price r =
    fillna (of_int 0) (Total_Amount r / (Total_Count r + lit_1e_6))%F.
Proof.
  unfold get_item_summary. rewrite list_elem_of_fmap.
  intros ([k g] & -> & Hg). apply elem_of_groupby in Hg as [-> Hk]. by simpl.
Qed.




(** In binary64, at an item that was never counted: the divisor is 1e-6,
    and the price is a number, not below 0. *)
Lemma avg_price_zero_count_b64 :
  (fun r => (Total_Count r + lit_1e_6, is_nan (Avg_Price r), is_inf (Avg_Price r),
             of_int 0 <=? Avg_Price r)%F)
  <$> get_item_summary (F:=b64) (load_and_clean_data [raw "Fortune Cookie" "May" 5 0])
  = [(lit_1e_6, false, false, true)].
Proof. vm_compute. reflexivity. Qed.

(** ** The What-If simulation *)

Section WhatIf.
Context {F : Type} `{Float F}.
Local Open Scope float_scope.
Implicit Types (s : state F) (df : ref) (rows : list (summary_row F))
  (r : summary_row F) (item : string).

Lemma fresh_frame s : frames s !! fresh (dom (frames s)) = None.
Proof. apply not_elem_of_dom, is_fresh. Qed.

Lemma head_filter_absent item rows :
  item ∉ s_Item_Name <$> rows ->
  head (filter (fun r => s_Item_Name r = item) rows) = None.
Proof.
  induction rows as [|r rows IH]; intros Hni; [reflexivity|].
  rewrite fmap_cons, not_elem_of_cons in Hni. destruct Hni as [Hne Hni].
  rewrite filter_cons_False by congruence. auto.
Qed.


Lemma head_filter_unique item rows i r :
  NoDup (s_Item_Name <$> rows) ->
  rows !! i = Some r -> s_Item_Name r = item ->
  head (filter (fun r => s_Item_Name r = item) rows) = Some r.
Proof.
  revert i. induction rows as [|r0 rows IH]; intros i Hnd Hi Hname; [done|].
  rewrite fmap_cons, NoDup_cons in Hnd. destruct Hnd as [Hni Hnd].
  destruct i as [|i]; simpl in Hi.
  - injection Hi as ->. by rewrite filter_cons_True.
  - rewrite filter_cons_False; [eauto|].
    intros Heq. apply Hni. rewrite Heq, <- Hname.
    apply list_elem_of_fmap. exists r. split; [done|]. by eapply list_elem_of_lookup_2.
Qed.

(** The rows of [df_what_if] after the three assignments. *)
Lemma set_column_name c v r : s_Item_Name (set_column c v r) = s_Item_Name r.
Proof. by destruct c. Qed.

Lemma assign_where_target item c v rows i r :
  rows !! i = Some r -> s_Item_Name r = item ->
  assign_where item c v rows !! i = Some (set_column c v r).
Proof.
  intros Hi Hname. unfold assign_where. rewrite list_lookup_fmap, Hi. simpl.
  by rewrite decide_True.
Qed.

Lemma assign_where_other item c v rows i r :
  rows !! i = Some r -> s_Item_Name r <> item ->
  assign_where item c v rows !! i = Some r.
Proof.
  intros Hi Hname. unfold assign_where. rewrite list_lookup_fmap, Hi. simpl.
  by rewrite decide_False.
Qed.

Lemma assign_where_none item c v rows i :
  rows !! i = None -> assign_where item c v rows !! i = None.
Proof. intros Hi. unfold assign_where. by rewrite list_lookup_fmap, Hi. Qed.

(** The rows of [df_what_if] after the three assignments. *)
Lemma what_if_rows_target item nc na np rows i r :
  rows !! i = Some r -> s_Item_Name r = item ->
  assign_where item Col_Avg_Price np
    (assign_where item Col_Total_Amount na
       (assign_where item Col_Total_Count nc rows)) !! i =
  Some {| s_Item_Name := item; Total_Amount := na; Total_Count := nc;
          Avg_Price := np |}.
Proof.
  intros Hi Hname.
  erewrite assign_where_target;
    [|erewrite assign_where_target;
       [reflexivity|by apply assign_where_target|by rewrite set_column_name]
     |by rewrite !set_column_name].
  simpl. by rewrite Hname.
Qed.

Lemma what_if_rows_other item nc na np rows i r :
  rows !! i = Some r -> s_Item_Name r <> item ->
  assign_where item Col_Avg_Price np
    (assign_where item Col_Total_Amount na
       (assign_where item Col_Total_Count nc rows)) !! i = Some r.
Proof. intros Hi Hname. by do 3 (apply assign_where_other; [|done]). Qed.


(** The run of the simulation when the item is found. *)
Lemma what_if_found s df rows item c p item_row :
  frames s !! df = Some rows ->
  head (filter (fun r => s_Item_Name r = item) rows) = Some item_row ->
  let new_count := Total_Count item_row * (of_int 1 + c / of_int 100) in
  let new_price := Avg_Price item_row * (of_int 1 + p / of_int 100) in
  let new_amount := new_count * new_price in
  let rows' :=
    assign_where item Col_Avg_Price new_price
      (assign_where item Col_Total_Amount new_amount
         (assign_where item Col_Total_Count new_count rows)) in
  make_plot3_what_if_quadrant df item c p s =
  Some (what_if_figure item rows',
        {| frames := <[fresh (dom (frames s)) := rows']> (frames s);
           st_errors := st_errors s |}).
Proof.
  intros Hdf Hhead. cbv zeta.
  unfold make_plot3_what_if_quadrant, bind, df_copy, df_rows, df_loc_set, ret.
  rewrite Hdf. cbn [frames st_errors]. rewrite lookup_insert_eq, Hhead.
  repeat first [ progress cbn [frames st_errors]
               | rewrite lookup_insert_eq
               | rewrite insert_insert_eq ].
  reflexivity.
Qed.

(** The run of the simulation when the item is not found. *)
Lemma what_if_not_found s df rows item c p :
  frames s !! df = Some rows ->
  head (filter (fun r => s_Item_Name r = item) rows) = None ->
  make_plot3_what_if_quadrant df item c p s =
  Some (empty_figure,
        {| frames := <[fresh (dom (frames s)) := rows]> (frames s);
           st_errors := st_errors s ++
             ["Could not find item '" ++ item ++ "' to model."]%string |}).
Proof.
  intros Hdf Hhead.
  unfold make_plot3_what_if_quadrant, bind, df_copy, df_rows, st_error, ret.
  rewrite Hdf. cbn [frames st_errors]. rewrite lookup_insert_eq, Hhead.
  reflexivity.
Qed.

Lemma what_if_frames s df rows item c p :
  frames s !! df = Some rows ->
  exists fig rows' errs,
    make_plot3_what_if_quadrant df item c p s =
    Some (fig, {| frames := <[fresh (dom (frames s)) := rows']> (frames s);
                  st_errors := errs |}).
Proof.
  intros Hdf.
  destruct (head (filter (fun r => s_Item_Name r = item) rows)) as [item_row|] eqn:Hh.
  - eexists _, _, _. by apply what_if_found.
  - eexists _, _, _. by apply what_if_not_found.
Qed.

Lemma what_if_target_row_run s df rows item c p i r :
  frames s !! df = Some rows ->
  NoDup (s_Item_Name <$> rows) ->
  rows !! i = Some r ->
  s_Item_Name r = item ->
  let new_count := Total_Count r * (of_int 1 + c / of_int 100) in
  let new_price := Avg_Price r * (of_int 1 + p / of_int 100) in
  let new_amount := new_count * new_price in
  exists fig rows',
    make_plot3_what_if_quadrant df item c p s =
      Some (fig, {| frames := <[fresh (dom (frames s)) := rows']> (frames s);
                    st_errors := st_errors s |}) /\
    rows' !! i = Some {| s_Item_Name := item; Total_Amount := new_amount;
                         Total_Count := new_count; Avg_Price := new_price |} /\
    forall j r', j <> i -> rows !! j = Some r' -> rows' !! j = Some r'.
Proof.
  intros Hdf Hnd Hi Hname. cbv zeta.
  pose proof (head_filter_unique item rows i r Hnd Hi Hname) as Hhead.
  eexists _, _. split; [by apply what_if_found|].
  split; [by eapply what_if_rows_target|].
  intros j r' Hji Hj. apply what_if_rows_other; [done|].
  intros Hname'. apply Hji.
  eapply (NoDup_lookup (s_Item_Name <$> rows)); [done| |].
  - rewrite list_lookup_fmap, Hj. simpl. by rewrite Hname'.
  - rewrite list_lookup_fmap, Hi. simpl. by rewrite Hname.
Qed.
End WhatIf.

(** C2.  The What-If simulation never changes the summary table it is given,
    whether the item is present or not: after the call the source frame, and
    every other frame that existed before, holds the rows it held before.  The
    only change to the frames is one new frame, the private copy. *)
Theorem what_if_source_unchanged {F : Type} `{Float F} (s : state F) (df : ref)
    (rows : list (summary_row F)) (item : string) (c p : F) :
  frames s !! df = Some rows ->
  exists fig s',
    make_plot3_what_if_quadrant df item c p s = Some (fig, s') /\
    frames s' !! df = Some rows /\
    (forall l, is_Some (frames s !! l) -> frames s' !! l = frames s !! l) /\
    exists new rows',
      frames s !! new = None /\ frames s' = <[new := rows']> (frames s).
Proof.
  intros Hdf.
  destruct (what_if_frames s df rows item c p Hdf) as (fig & rows' & errs & Hrun).
  pose proof (fresh_frame s) as Hfresh.
  eexists _, _. split; [exact Hrun|]. cbn [frames].
  split; [|split].
  - rewrite lookup_insert_ne; [done|]. intros Heq. rewrite Heq in Hfresh. congruence.
  - intros l [x Hl]. rewrite lookup_insert_ne; [done|]. intros Heq. rewrite Heq in Hfresh. congruence.
  - eauto.
Qed.

(** The theorem of C2 at the sample table. *)
Lemma what_if_source_unchanged_witness :
  exists fig s',
    make_plot3_what_if_quadrant 1%positive "Beef Ramen" (of_int 50) (of_int (-10))
      (sample_state (F:=b64)) = Some (fig, s') /\
    frames s' !! 1%positive = Some sample_summary /\
    (forall l, is_Some (frames sample_state !! l) ->
               frames s' !! l = frames (sample_state (F:=b64)) !! l) /\
    exists new rows',
      frames (sample_state (F:=b64)) !! new = None /\
      frames s' = <[new := rows']> (frames sample_state).
Proof.
  apply (what_if_source_unchanged sample_state 1%positive sample_summary).
  reflexivity.
Defined.

(** C8.  For a target item that is not in the summary table, the What-If
    simulation shows the error message that names the item and returns the
    empty figure instead of a simulation; the private copy has the rows of the
    source, unmodified, and the source frame is untouched. *)
Theorem what_if_item_not_found {F : Type} `{Float F} (s : state F) (df : ref)
    (rows : list (summary_row F)) (item : string) (c p : F) :
  frames s !! df = Some rows ->
  item ∉ s_Item_Name <$> rows ->
  exists s',
    make_plot3_what_if_quadrant df item c p s = Some (empty_figure, s') /\
    st_errors s' =
      (st_errors s ++ [("Could not find item '" ++ item ++ "' to model.")%string])%list /\
    frames s' = <[fresh (dom (frames s)) := rows]> (frames s) /\
    frames s !! fresh (dom (frames s)) = None /\
    frames s' !! df = Some rows.
Proof.
  intros Hdf Hni. eexists. split.
  - apply what_if_not_found; [done|]. by apply head_filter_absent.
  - cbn [frames st_errors]. pose proof (fresh_frame s) as Hfresh.
    repeat split; try done.
    rewrite lookup_insert_ne; [done|]. intros Heq. rewrite Heq in Hfresh. congruence.
Qed.

(** The theorem of C8 at the sample table, for an item that is not on it. *)
Lemma what_if_item_not_found_witness :
  exists s',
    make_plot3_what_if_quadrant 1%positive "Pad Thai" (of_int 50) (of_int (-10))
      (sample_state (F:=b64)) = Some (empty_figure, s') /\
    st_errors s' =
      st_errors (sample_state (F:=b64)) ++ ["Could not find item 'Pad Thai' to model."] /\
    frames s' = <[fresh (dom (frames (sample_state (F:=b64)))) := sample_summary]>
                  (frames sample_state) /\
    frames (sample_state (F:=b64)) !! fresh (dom (frames (sample_state (F:=b64)))) = None /\
    frames s' !! 1%positive = Some sample_summary.
Proof.
  apply (what_if_item_not_found sample_state 1%positive sample_summary "Pad Thai").
  - reflexivity.
  - apply (bool_decide_unpack _). vm_compute. reflexivity.
Defined.

Lemma what_if_example_xq :
  (of_int 100 * (of_int 1 + of_int 50 / of_int 100))%F = of_int (F:=xq) 150 /\
  (of_int 10 * (of_int 1 + of_int (-10) / of_int 100))%F = of_int (F:=xq) 9 /\
  (of_int 150 * of_int 9)%F = of_int (F:=xq) 1350.
Proof.
  split; [|split]; apply xq_eqb_eq; vm_compute; reflexivity.
Qed.

Lemma what_if_example_b64 :
  (of_int 100 * (of_int 1 + of_int 50 / of_int 100))%F = of_int (F:=b64) 150 /\
  (of_int 10 * (of_int 1 + of_int (-10) / of_int 100))%F = of_int (F:=b64) 9 /\
  (of_int 150 * of_int 9)%F = of_int (F:=b64) 1350.
Proof.
  split; [|split]; vm_compute; reflexivity.
Qed.

(** C1.  In a summary table with one row per item name, the What-If
    simulation leaves, in the modified copy, the row of the target item with
    [Total_Count] replaced by [count * (1 + count_change_pct / 100)],
    [Avg_Price] by [avg_price * (1 + price_change_pct / 100)] and
    [Total_Amount] by the product of the two, and every other row as it was:
    for every number type.  For a target row with a count of 100 and an
    average price of 10, the changes 50 and -10 give the count 150, the price
    9 and the amount 1350, in exact arithmetic and in binary64 alike (the
    [Total_Amount] of the row, 1000 in the example, is not read). *)
Theorem what_if_target_row :
  (forall (F : Type) (HF : Float F) (s : state F) (df : ref)
          (rows : list (summary_row F)) (item : string) (c p : F) (i : nat)
          (r : summary_row F),
     frames s !! df = Some rows ->
     NoDup (s_Item_Name <$> rows) ->
     rows !! i = Some r ->
     s_Item_Name r = item ->
     let new_count := (Total_Count r * (of_int 1 + c / of_int 100))%F in
     let new_price := (Avg_Price r * (of_int 1 + p / of_int 100))%F in
     let new_amount := (new_count * new_price)%F in
     exists fig rows',
       make_plot3_what_if_quadrant df item c p s =
         Some (fig, {| frames := <[fresh (dom (frames s)) := rows']> (frames s);
                       st_errors := st_errors s |}) /\
       rows' !! i = Some {| s_Item_Name := item; Total_Amount := new_amount;
                            Total_Count := new_count; Avg_Price := new_price |} /\
       forall j r', j <> i -> rows !! j = Some r' -> rows' !! j = Some r') /\
  (forall (s : state xq) (df : ref) (rows : list (summary_row xq)) (item : string)
          (i : nat) (r : summary_row xq),
     frames s !! df = Some rows ->
     NoDup (s_Item_Name <$> rows) ->
     rows !! i = Some r ->
     s_Item_Name r = item ->
     Total_Count r = of_int 100 -> Avg_Price r = of_int 10 ->
     exists fig rows',
       make_plot3_what_if_quadrant df item (of_int 50) (of_int (-10)) s =
         Some (fig, {| frames := <[fresh (dom (frames s)) := rows']> (frames s);
                       st_errors := st_errors s |}) /\
       rows' !! i = Some {| s_Item_Name := item; Total_Amount := of_int 1350;
                            Total_Count := of_int 150; Avg_Price := of_int 9 |}) /\
  (forall (s : state b64) (df : ref) (rows : list (summary_row b64)) (item : string)
          (i : nat) (r : summary_row b64),
     frames s !! df = Some rows ->
     NoDup (s_Item_Name <$> rows) ->
     rows !! i = Some r ->
     s_Item_Name r = item ->
     Total_Count r = of_int 100 -> Avg_Price r = of_int 10 ->
     exists fig rows',
       make_plot3_what_if_quadrant df item (of_int 50) (of_int (-10)) s =
         Some (fig, {| frames := <[fresh (dom (frames s)) := rows']> (frames s);
                       st_errors := st_errors s |}) /\
       rows' !! i = Some {| s_Item_Name := item; Total_Amount := of_int 1350;
                            Total_Count := of_int 150; Avg_Price := of_int 9 |}).
Proof.
  split; [|split].
  - intros F HF s df rows item c p i r. apply what_if_target_row_run.
  - intros s df rows item i r Hdf Hnd Hi Hname Hc Hp.
    destruct (what_if_target_row_run s df rows item (of_int 50) (of_int (-10)) i r
                Hdf Hnd Hi Hname) as (fig & rows' & Hrun & Hrow & _).
    exists fig, rows'. split; [done|]. rewrite Hrow, Hc, Hp.
    destruct what_if_example_xq as (-> & -> & ->). done.
  - intros s df rows item i r Hdf Hnd Hi Hname Hc Hp.
    destruct (what_if_target_row_run s df rows item (of_int 50) (of_int (-10)) i r
                Hdf Hnd Hi Hname) as (fig & rows' & Hrun & Hrow & _).
    exists fig, rows'. split; [done|]. rewrite Hrow, Hc, Hp.
    destruct what_if_example_b64 as (-> & -> & ->). done.
Qed.

(** The theorem of C1 at the sample table, in binary64. *)
Lemma what_if_target_row_witness :
  exists fig rows',
    make_plot3_what_if_quadrant 1%positive "Beef Ramen" (of_int 50) (of_int (-10))
      (sample_state (F:=b64)) =
      Some (fig, {| frames := <[fresh (dom (frames sample_state)) := rows']>
                                (frames sample_state);
                    st_errors := st_errors sample_state |}) /\
    rows' !! 0%nat = Some {| s_Item_Name := "Beef Ramen"; Total_Amount := of_int 1350;
                             Total_Count := of_int 150; Avg_Price := of_int 9 |}.
Proof.
  apply (proj2 (proj2 what_if_target_row) sample_state 1%positive sample_summary
           "Beef Ramen" 0%nat
           {| s_Item_Name := "Beef Ramen"; Total_Amount := of_int 1000;
              Total_Count := of_int 100; Avg_Price := of_int 10 |}).
  - reflexivity.
  - apply (bool_decide_unpack _). vm_compute. reflexivity.
  - reflexivity.
  - reflexivity.
  - reflexivity.
  - reflexivity.
Defined.

Lemma xq_unit_factor : (of_int 1 + of_int 0 / of_int 100)%F = XFin 1%Qc.
Proof. apply xq_eqb_eq. vm_compute. reflexivity. Qed.

(** C10, amended.  With both changes at 0 the What-If simulation is not
    the identity on the target row of an item summary: it replaces
    [Total_Amount] by [Total_Count * Avg_Price], where [Avg_Price] is
    [Total_Amount / (Total_Count + 1e-6)]; count and price of the row are
    unchanged.  For a dataset whose counts are not negative and add up to
    less than [2^63], and a target of positive [Total_Amount], the new amount
    is strictly below the old one, the product and the quotient being
    computed exactly: the statement is one of exact arithmetic. *)
Theorem what_if_zero_change_lowers_amount (df : list (sale xq)) (s : state xq)
    (summary : ref) (item : string) (i : nat) (r : summary_row xq) (a : Qc) :
  Forall (fun x => 0 <= Count x) df ->
  exact_sum (Count <$> df) < 2 ^ 63 ->
  frames s !! summary = Some (get_item_summary df) ->
  get_item_summary df !! i = Some r ->
  s_Item_Name r = item ->
  Total_Amount r = XFin a ->
  (0 < a)%Qc ->
  exists fig rows' (a' : Qc),
    make_plot3_what_if_quadrant summary item (of_int 0) (of_int 0) s =
      Some (fig, {| frames := <[fresh (dom (frames s)) := rows']> (frames s);
                    st_errors := st_errors s |}) /\
    rows' !! i = Some {| s_Item_Name := item; Total_Amount := XFin a';
                         Total_Count := Total_Count r; Avg_Price := Avg_Price r |} /\
    XFin a' = (Total_Count r * Avg_Price r)%F /\
    Avg_Price r = (Total_Amount r / (Total_Count r + lit_1e_6))%F /\
    (a' < a)%Qc.
Proof.
  intros Hcnt Hrange Hdf Hi Hname Ha Hpos.
  destruct (what_if_target_row_run s summary _ item (of_int 0) (of_int 0) i r
              Hdf (NoDup_get_item_summary df) Hi Hname)
    as (fig & rows' & Hrun & Hrow & _).
  apply list_elem_of_lookup_2, elem_of_get_item_summary in Hi
    as (_ & _ & Hc & Hp).
  set (g := filter (fun x => Item_Name x = s_Item_Name r) df) in *.
  assert (Hc0 : 0 <= sum_int (Count <$> g)) by (by apply sum_int_group).
  set (c := Qc_of_Z (sum_int (Count <$> g))) in *.
  set (e := Q2Qc (1 # 1000000)).
  assert (Hc1 : (0 <= c)%Qc) by (by apply Qc_of_Z_nonneg).
  assert (Hd : (0 < c + e)%Qc) by (by apply Qcplus_pos_nonneg).
  assert (Hp' : Avg_Price r = XFin (a / (c + e))%Qc).
  { rewrite Hp, Ha, Hc. cbn [fadd fdiv of_int lit_1e_6 xq_float xq_add xq_div].
    fold c e. by rewrite (Qc_is0_false _ (Qclt_neq0 _ Hd)). }
  exists fig, rows', (c * (a / (c + e)))%Qc.
  split; [done|]. rewrite Hrow, !xq_unit_factor, Hp', Hc.
  cbn [fmul of_int xq_float xq_mul]. fold c. rewrite !Qcmult_1_r.
  repeat split.
  - rewrite Ha. cbn [fadd fdiv of_int lit_1e_6 xq_float xq_add xq_div].
    fold c e. by rewrite (Qc_is0_false _ (Qclt_neq0 _ Hd)).
  - by apply Qc_scaled_below.
Qed.

(** The theorem of C10 at the item summary of the sample dataset. *)
Lemma what_if_zero_change_lowers_amount_witness :
  exists (r : summary_row xq) fig rows' (a a' : Qc),
    get_item_summary sample_sales !! 0%nat = Some r /\
    Total_Amount r = XFin a /\
    make_plot3_what_if_quadrant 1%positive "Beef Ramen" (of_int 0) (of_int 0)
      sample_summary_state =
      Some (fig, {| frames := <[fresh (dom (frames sample_summary_state)) := rows']>
                                (frames sample_summary_state);
                    st_errors := st_errors sample_summary_state |}) /\
    rows' !! 0%nat = Some {| s_Item_Name := "Beef Ramen"; Total_Amount := XFin a';
                             Total_Count := Total_Count r; Avg_Price := Avg_Price r |} /\
    XFin a' = (Total_Count r * Avg_Price r)%F /\
    Avg_Price r = (Total_Amount r / (Total_Count r + lit_1e_6))%F /\
    (a' < a)%Qc.
Proof.
  destruct (get_item_summary (sample_sales (F:=xq)) !! 0%nat) as [r|] eqn:Hr;
    [|vm_compute in Hr; discriminate Hr].
  assert (Hname : s_Item_Name r = "Beef Ramen").
  { vm_compute in Hr. injection Hr as <-. reflexivity. }
  assert (Ha : Total_Amount r = XFin (xq_val (Total_Amount r))).
  { vm_compute in Hr. injection Hr as <-. reflexivity. }
  assert (Hpos : (0 < xq_val (Total_Amount r))%Qc).
  { vm_compute in Hr. injection Hr as <-. reflexivity. }
  destruct (what_if_zero_change_lowers_amount sample_sales sample_summary_state
              1%positive "Beef Ramen" 0%nat r (xq_val (Total_Amount r))
              (Forall_impl _ _ _ sample_sales_nonneg (fun x Hx => proj2 Hx))
              eq_refl eq_refl Hr Hname Ha Hpos) as (fig & rows' & a' & Hrun).
  exists r, fig, rows', (xq_val (Total_Amount r)), a'.
  split; [reflexivity|]. split; [exact Ha|exact Hrun].
Defined.

(** In binary64, at the item summary of the sample dataset: with both
    changes at 0 the amount of "Beef Ramen" falls below its 1000. *)
Lemma what_if_zero_change_b64 :
  exists fig rows' r',
    make_plot3_what_if_quadrant 1%positive "Beef Ramen" (of_int 0) (of_int 0)
      (sample_summary_state (F:=b64)) =
      Some (fig, {| frames := <[2%positive := rows']> (frames sample_summary_state);
                    st_errors := [] |}) /\
    rows' !! 0%nat = Some r' /\
    (Total_Amount r' <? of_int 1000)%F = true /\
    (of_int 999 <? Total_Amount r')%F = true.
Proof.
  eexists _, _, _. split; [vm_compute; reflexivity|].
  split; [vm_compute; reflexivity|]. split; vm_compute; reflexivity.
Qed.

(** C10 fails as stated.  In binary64, for the one item of [penny_sales]
    (five billion units, 75 in all, a positive [Total_Amount]), the product
    of [Total_Count] and [Avg_Price] is rounded to 75, and the simulation
    with both changes at 0 leaves [Total_Amount] as it is: the new amount is
    75, not below 75. *)
Lemma what_if_zero_change_counterexample :
  exists fig rows' r r',
    get_item_summary (penny_sales (F:=b64)) !! 0%nat = Some r /\
    s_Item_Name r = "Beef Ramen" /\
    Total_Amount r = of_int 75 /\
    (of_int 0 <? Total_Amount r)%F = true /\
    make_plot3_what_if_quadrant 1%positive "Beef Ramen" (of_int 0) (of_int 0)
      (summary_state (penny_sales (F:=b64))) =
      Some (fig, {| frames := <[2%positive := rows']>
                                (frames (summary_state penny_sales));
                    st_errors := [] |}) /\
    rows' !! 0%nat = Some r' /\
    s_Item_Name r' = "Beef Ramen" /\
    Total_Amount r' = of_int 75 /\
    (Total_Amount r' <? Total_Amount r)%F = false.
Proof.
  eexists _, _, _, _. split; [vm_compute; reflexivity|].
  split; [vm_compute; reflexivity|]. split; [vm_compute; reflexivity|].
  split; [vm_compute; reflexivity|]. split; [vm_compute; reflexivity|].
  split; [vm_compute; reflexivity|]. split; [vm_compute; reflexivity|].
  split; vm_compute; reflexivity.
Qed.

(** The condition on the counts is needed.  The counts of [wrapped_sales]
    are not negative, but their int64 sum is -1: [Avg_Price] is negative,
    and with both changes at 0 the new amount is above the old one, in exact
    arithmetic and in binary64. *)
Lemma what_if_zero_change_wrapped_count :
  Forall (fun x => 0 <= Count x) (wrapped_sales (F:=b64)) /\
  sum_int (Count <$> wrapped_sales (F:=b64)) = -1 /\
  (exists fig rows' r r',
     get_item_summary (wrapped_sales (F:=b64)) !! 0%nat = Some r /\
     Total_Amount r = of_int 75 /\
     Total_Count r = of_int (-1) /\
     (Avg_Price r <? of_int 0)%F = true /\
     make_plot3_what_if_quadrant 1%positive "Beef Ramen" (of_int 0) (of_int 0)
       (summary_state (wrapped_sales (F:=b64))) =
       Some (fig, {| frames := <[2%positive := rows']>
                                 (frames (summary_state wrapped_sales));
                     st_errors := [] |}) /\
     rows' !! 0%nat = Some r' /\
     (Total_Amount r <? Total_Amount r')%F = true) /\
  (exists fig rows' r r',
     get_item_summary (wrapped_sales (F:=xq)) !! 0%nat = Some r /\
     (Avg_Price r <? of_int 0)%F = true /\
     make_plot3_what_if_quadrant 1%positive "Beef Ramen" (of_int 0) (of_int 0)
       (summary_state (wrapped_sales (F:=xq))) =
       Some (fig, {| frames := <[2%positive := rows']>
                                 (frames (summary_state wrapped_sales));
                     st_errors := [] |}) /\
     rows' !! 0%nat = Some r' /\
     (Total_Amount r <? Total_Amount r')%F = true).
Proof.
  split; [repeat constructor; simpl; lia|]. split; [vm_compute; reflexivity|].
  split.
  - eexists _, _, _, _. split; [vm_compute; reflexivity|].
    split; [vm_compute; reflexivity|]. split; [vm_compute; reflexivity|].
    split; [vm_compute; reflexivity|]. split; [vm_compute; reflexivity|].
    split; vm_compute; reflexivity.
  - eexists _, _, _, _. split; [vm_compute; reflexivity|].
    split; [vm_compute; reflexivity|]. split; [vm_compute; reflexivity|].
    split; vm_compute; reflexivity.
Qed.

(** ** The category rollup *)

Lemma load_and_clean_data_Category {F} `{Float F} (rows : list (raw_sale F))
    (r : sale F) :
  r ∈ load_and_clean_data rows -> Category r = categorize_item (Item_Name r).
Proof.
  unfold load_and_clean_data. rewrite list_elem_of_fmap. by intros (x & -> & _).
Qed.

Lemma load_and_clean_data_Amount {F} `{Float F} (rows : list (raw_sale F)) :
  Amount <$> load_and_clean_data rows = raw_Amount <$> rows.
Proof.
  unfold load_and_clean_data. rewrite <- list_fmap_compose. by apply list_fmap_ext.
Qed.

(** The leaves of the treemap below the pairs selected by [P] add up to the
    rows of these pairs. *)
Lemma treemap_leaves_total (df : list (sale xq)) (P : string * string -> Prop)
    `{!forall p, Decision (P p)} :
  Forall finite (Amount <$> df) ->
  nansum (filter (fun l => P l.1) (tm_leaves (make_plot5_category_treemap df))).*2 =
  nansum (Amount <$> filter (fun r => P (Category r, Item_Name r)) df).
Proof.
  intros Hfin. cbn [tm_leaves make_plot5_category_treemap].
  set (pair_of := fun r : sale xq => (Category r, Item_Name r)).
  set (v := fun r : sale xq => xq_val (Amount r)).
  set (ps := filter P (remove_dups (pair_of <$> df))).
  set (df' := filter (fun r => P (pair_of r)) df).
  rewrite (filter_fmap _ (fun l => P l.1)).
  rewrite (list_filter_iff _ P) by (by intros [c k]). fold ps.
  assert (Hrw : ((fun kc : string * string =>
                    let '(c, k) := kc in
                    (c, k, nansum (Amount <$>
                       filter (fun r => Category r = c /\ Item_Name r = k) df)))
                 <$> ps).*2 =
                XFin <$> ((fun p => qsum (v <$> filter (fun r => pair_of r = p) df'))
                          <$> ps)).
  { rewrite <- !list_fmap_compose. apply list_fmap_ext. intros i [c k] Hp.
    apply list_elem_of_lookup_2, list_elem_of_filter in Hp as [Hp _]. simpl.
    rewrite nansum_finite by (by apply Forall_finite_filter).
    rewrite <- list_fmap_compose. do 3 f_equal. unfold df'.
    rewrite list_filter_filter. apply list_filter_iff. intros r. unfold pair_of.
    split.
    - intros [Hc Hk]. split; [by rewrite Hc, Hk|]. by rewrite Hc, Hk.
    - intros [[= Hc Hk] _]. done. }
  rewrite Hrw, nansum_XFin, nansum_finite by (by apply Forall_finite_filter).
  f_equal. rewrite <- list_fmap_compose. apply qsum_groups.
  - apply NoDup_filter, NoDup_remove_dups.
  - intros r Hr. apply list_elem_of_filter in Hr as [HP Hr].
    apply list_elem_of_filter. split; [done|].
    apply elem_of_remove_dups, list_elem_of_fmap. by exists r.
Qed.

(** C6, amended.  In the rollup of a dataset built by [load_and_clean_data]
    every row is counted exactly once at each level: the category totals and
    the per-item totals are the sums of groups that partition the rows, and
    every leaf is the total of its item, filed under the category of that
    item.  Hence, for non-negative amounts added exactly, the category totals,
    the per-item totals and the leaves all add up to the sum of all row
    amounts, and every category total is the sum of the leaves below it. *)
Theorem category_rollup_no_leakage :
  (forall (F : Type) (HF : Float F) (rows : list (raw_sale F)),
     let df := load_and_clean_data rows in
     let tm := make_plot5_category_treemap df in
     let item_totals := groupby_sum Item_Name Amount df in
     tm_categories tm
       = (fun g => (g.1, nansum (Amount <$> g.2))) <$> groupby Category df /\
     concat (groupby Category df).*2 ≡ₚ df /\
     item_totals
       = (fun g => (g.1, nansum (Amount <$> g.2))) <$> groupby Item_Name df /\
     concat (groupby Item_Name df).*2 ≡ₚ df /\
     (forall c k v, (c, k, v) ∈ tm_leaves tm ->
        c = categorize_item k /\ (k, v) ∈ item_totals)) /\
  (forall rows : list (raw_sale xq),
     Forall (fun r => nonneg (raw_Amount r)) rows ->
     let df := load_and_clean_data rows in
     let tm := make_plot5_category_treemap df in
     let item_totals := groupby_sum Item_Name Amount df in
     nansum (tm_categories tm).*2 = nansum item_totals.*2 /\
     nansum item_totals.*2 = nansum (Amount <$> df) /\
     nansum (tm_leaves tm).*2 = nansum (Amount <$> df) /\
     tm_root tm = nansum (Amount <$> df) /\
     (forall c v, (c, v) ∈ tm_categories tm ->
        v = nansum (filter (fun l => l.1.1 = c) (tm_leaves tm)).*2)).
Proof.
  split.
  - intros F HF rows df tm item_totals.
    split; [reflexivity|]. split; [apply groupby_partition|].
    split; [reflexivity|]. split; [apply groupby_partition|].
    intros c k v Hl. unfold tm in Hl.
    cbn [tm_leaves make_plot5_category_treemap] in Hl.
    apply list_elem_of_fmap in Hl as ([c' k'] & [= -> -> ->] & Hp).
    apply elem_of_remove_dups, list_elem_of_fmap in Hp as (r & [= -> ->] & Hr).
    assert (Hcat : forall x, x ∈ df -> Category x = categorize_item (Item_Name x)).
    { intros x. apply load_and_clean_data_Category. }
    split; [by apply Hcat|].
    apply elem_of_groupby_sum. split; [apply list_elem_of_fmap; by exists r|].
    f_equal. f_equal. apply filter_ext_in. intros x Hx. split; [by intros [_ ?]|].
    intros Hname. split; [|done]. by rewrite !Hcat, Hname.
  - intros rows Hrows df tm item_totals.
    assert (Hfin : Forall finite (Amount <$> df)).
    { unfold df. rewrite load_and_clean_data_Amount, Forall_fmap.
      eapply Forall_impl; [exact Hrows|]. intros r. apply nonneg_finite. }
    clearbody df. clear Hrows rows.
    split; [|split; [|split; [|split]]].
    + unfold tm, item_totals. cbn [tm_categories make_plot5_category_treemap].
      by rewrite !groupby_sum_total.
    + by apply groupby_sum_total.
    + pose proof (treemap_leaves_total df (fun _ => True) Hfin) as Hl.
      rewrite !filter_all in Hl by done. exact Hl.
    + done.
    + intros c v Hcv. apply elem_of_groupby_sum in Hcv as [_ ->].
      symmetry. exact (treemap_leaves_total df (fun p => p.1 = c) Hfin).
Qed.

(** The theorem of C6 at the sample dataset. *)
Lemma category_rollup_no_leakage_witness :
  nansum (tm_categories (make_plot5_category_treemap (sample_sales (F:=xq)))).*2
    = nansum (groupby_sum Item_Name Amount (sample_sales (F:=xq))).*2 /\
  nansum (groupby_sum Item_Name Amount (sample_sales (F:=xq))).*2
    = nansum (Amount <$> sample_sales (F:=xq)) /\
  nansum (tm_leaves (make_plot5_category_treemap (sample_sales (F:=xq)))).*2
    = nansum (Amount <$> sample_sales (F:=xq)).
Proof.
  destruct (proj2 category_rollup_no_leakage sample_rows sample_rows_nonneg)
    as (H1 & H2 & H3 & _).
  exact (conj H1 (conj H2 H3)).
Defined.

(** C6 fails as stated in binary64.  For the three items sold for 0.10, 0.70
    and 0.20 the category totals add up to 1, and so do the row amounts, but
    the per-item totals add up to the number just below 1. *)
Lemma category_rollup_rounding :
  Forall (fun r => (of_int 0 <=? Amount r)%F = true) (dime_sales (F:=b64)) /\
  nansum (tm_categories (make_plot5_category_treemap (dime_sales (F:=b64)))).*2
    = of_int 1 /\
  nansum (Amount <$> dime_sales (F:=b64)) = of_int 1 /\
  nansum (groupby_sum Item_Name Amount (dime_sales (F:=b64))).*2 <> of_int 1 /\
  (nansum (groupby_sum Item_Name Amount (dime_sales (F:=b64))).*2 <? of_int 1)%F
    = true.
Proof.
  split; [apply (bool_decide_unpack _); vm_compute; reflexivity|].
  split; [vm_compute; reflexivity|]. split; [vm_compute; reflexivity|].
  split; [vm_compute; discriminate|vm_compute; reflexivity].
Qed.

(** ** The Pareto analysis *)

Lemma reset_index_Amount {F} `{Float F} (rows : list (string * F)) :
  i_Amount <$> reset_index rows = rows.*2.
Proof.
  unfold reset_index. generalize Z.of_nat as g. revert rows.
  induction rows as [|x l IH]; intros g; [done|].
  simpl. f_equal. apply (IH (g ∘ S)).
Qed.

Lemma sort_values_desc_Permutation {F} `{Float F} {A} (col : A -> F) (df : list A) :
  sort_values_desc col df ≡ₚ df.
Proof.
  unfold sort_values_desc. rewrite sort_by_Permutation.
  apply (filter_app_complement (fun r => notna (col r))).
Qed.

Lemma length_item_sales {F} `{Float F} (df : list (sale F)) :
  length (item_sales df) = length (group_keys (Item_Name <$> df)).
Proof.
  unfold item_sales. rewrite (Permutation_length (sort_values_desc_Permutation _ _)).
  unfold reset_index, groupby_sum, groupby. by rewrite length_imap, !length_fmap.
Qed.

(** The revenues of [item_sales]: finite, non-negative, and adding up to the
    revenue of the dataset. *)
Lemma item_sales_amounts (df : list (sale xq)) :
  Forall (fun r => nonneg (Amount r)) df ->
  exists qs : list Qc,
    i_Amount <$> item_sales df = XFin <$> qs /\
    Forall (fun q => (0 <= q)%Qc) qs /\
    nansum (Amount <$> df) = XFin (qsum qs).
Proof.
  intros Hdf.
  assert (Hfin : Forall finite (Amount <$> df)).
  { rewrite Forall_fmap. eapply Forall_impl; [exact Hdf|].
    intros r. apply nonneg_finite. }
  set (totals := groupby_sum Item_Name Amount df).
  assert (Htot : Forall nonneg totals.*2).
  { unfold totals. rewrite groupby_sum_finite by done.
    rewrite <- list_fmap_compose, Forall_fmap. apply Forall_forall.
    intros k _. simpl. eexists. split; [done|].
    apply qsum_nonneg. rewrite <- list_fmap_compose, Forall_fmap.
    apply Forall_forall. intros x Hx. apply list_elem_of_filter in Hx as [_ Hx].
    rewrite Forall_forall in Hdf. destruct (Hdf x Hx) as (q & Hq & Hq0).
    simpl. by rewrite Hq. }
  assert (Hperm : i_Amount <$> item_sales df ≡ₚ totals.*2).
  { unfold item_sales. by rewrite sort_values_desc_Permutation, reset_index_Amount. }
  assert (Hnn : Forall nonneg (i_Amount <$> item_sales df)) by (by rewrite Hperm).
  exists (xq_val <$> (i_Amount <$> item_sales df)). split; [|split].
  - apply Forall_finite_fmap. eapply Forall_impl; [exact Hnn|].
    intros x. apply nonneg_finite.
  - rewrite Forall_fmap. eapply Forall_impl; [exact Hnn|].
    by intros x (q & -> & Hq).
  - rewrite <- (groupby_sum_total Item_Name Amount df Hfin). fold totals.
    rewrite nansum_finite.
    + f_equal. apply qsum_Permutation. by rewrite Hperm.
    + eapply Forall_impl; [exact Htot|]. intros x. apply nonneg_finite.
Qed.

Lemma top_n_and_other_amounts (sales : list (item_sales_row xq)) (qs : list Qc) :
  i_Amount <$> sales = XFin <$> qs ->
  Forall (fun q => (0 <= q)%Qc) qs ->
  exists amts : list Qc,
    i_Amount <$> top_n_and_other sales = XFin <$> amts /\
    Forall (fun q => (0 <= q)%Qc) amts /\
    qsum amts = qsum qs.
Proof.
  intros Hqs Hnn. unfold top_n_and_other.
  destruct (N_TOP_ITEMS <? length sales)%nat; [|by exists qs].
  exists (take N_TOP_ITEMS qs ++ [qsum (drop N_TOP_ITEMS qs)]).
  split; [|split].
  - rewrite reset_index_Amount, fmap_app, <- list_fmap_compose.
    rewrite fmap_app. f_equal.
    + change (snd ∘ _) with (i_Amount (F:=xq)).
      by rewrite !fmap_take, Hqs.
    + simpl. by rewrite fmap_drop, Hqs, <- fmap_drop, nansum_XFin.
  - apply Forall_app. split; [by apply Forall_take|].
    apply Forall_singleton, qsum_nonneg. by apply Forall_drop.
  - rewrite qsum_app. simpl. rewrite Qcplus_0_r, <- qsum_app.
    by rewrite take_drop.
Qed.

(** The percentages of the Pareto rows, when no revenue is negative and the
    total revenue is not zero. *)
Lemma pareto_cumulative_pcts (df : list (sale xq)) (t : Qc) :
  Forall (fun r => nonneg (Amount r)) df ->
  nansum (Amount <$> df) = XFin t ->
  (0 < t)%Qc ->
  exists amts : list Qc,
    amts <> [] /\
    Forall (fun q => (0 <= q)%Qc) amts /\
    qsum amts = t /\
    Cumulative_Pct <$> (make_plot7_pareto_analysis df).1 =
    XFin <$> ((fun c => Qc_of_Z 100 * c / t)%Qc <$> running_sums 0 amts).
Proof.
  intros Hdf Ht Hpos.
  destruct (item_sales_amounts df Hdf) as (qs & Hqs & Hnn & Hsum).
  destruct (top_n_and_other_amounts _ qs Hqs Hnn) as (amts & Hamts & Hnn' & Hsum').
  rewrite Ht in Hsum. injection Hsum as Hsum.
  exists amts. split; [|split; [done|split; [congruence|]]].
  { intros ->. simpl in Hsum'. rewrite Hsum, <- Hsum' in Hpos.
    by apply (Qclt_not_eq _ _ Hpos). }
  cbn [make_plot7_pareto_analysis fst].
  rewrite (fmap_zip_with_snd _ _
             (fun c => (of_int 100 * c /
                        nansum (i_Amount <$> top_n_and_other (item_sales df)))%F)).
  - rewrite Hamts, nansum_XFin, Hsum', <- Hsum.
    unfold cumsum. change (of_int 0) with (XFin 0%Qc).
    rewrite cumsum_from_XFin, <- !list_fmap_compose.
    apply list_fmap_ext. intros _ c _. simpl.
    by rewrite (Qc_is0_false _ (Qclt_neq0 _ Hpos)).
  - done.
  - unfold cumsum. by rewrite length_cumsum_from, length_fmap.
Qed.




(** In binary64 the percentages can overflow, with a positive total
    revenue.  For the one item of [fortune_sales], sold for [2^1020], the
    product [100 * 2^1020] is infinite, and so is the only [Cumulative_Pct];
    for the two items of [twin_fortune_sales], sold for [2^1023] each, the
    total revenue is infinite, every [Cumulative_Pct] is nan, and no row
    reaches 80%. *)
Lemma pareto_cumulative_pct_overflow_b64 :
  Forall (fun r => (of_int 0 <? Amount r)%F = true /\ is_inf (Amount r) = false)
    (fortune_sales (F:=b64)) /\
  Cumulative_Pct <$> (make_plot7_pareto_analysis (fortune_sales (F:=b64))).1
  = [S754_infinity false] /\
  Forall (fun r => (of_int 0 <? Amount r)%F = true /\ is_inf (Amount r) = false)
    (twin_fortune_sales (F:=b64)) /\
  Cumulative_Pct <$> (make_plot7_pareto_analysis (twin_fortune_sales (F:=b64))).1
  = [S754_nan; S754_nan] /\
  (make_plot7_pareto_analysis (twin_fortune_sales (F:=b64))).2
  = Insufficient_item_diversity.
Proof.
  split; [apply (bool_decide_unpack _); vm_compute; reflexivity|].
  split; [vm_compute; reflexivity|].
  split; [apply (bool_decide_unpack _); vm_compute; reflexivity|].
  split; vm_compute; reflexivity.
Qed.

(** The percentage of the summary is taken over the distinct items of the
    dataset, collapsed or not. *)
Lemma pareto_pct_items_of_catalog {F} `{Float F} (df : list (sale F)) (n : Z) (p : F) :
  (make_plot7_pareto_analysis df).2 = Top_items n p ->
  p = (of_int (100 * n) /
       of_int (Z.of_nat (length (group_keys (Item_Name <$> df)))))%F.
Proof.
  cbn [make_plot7_pareto_analysis snd]. rewrite length_item_sales.
  destruct (filter _ _) as [|r l]; [discriminate|]. by intros [= <- <-].
Qed.

(** C4.  The analysis on a menu of 30 items of equal revenue, in exact
    arithmetic and in binary64: the 20 first rows stay below 80%, the row
    that reaches 80% is the synthetic row "All Other Items", and the summary
    is "Top 21 items", 70% of the menu.  The count includes the synthetic row
    as its 21st item; the percentage is taken over the 30 items of the
    uncollapsed catalog. *)
Theorem pareto_counts_other_bucket :
  length (group_keys (Item_Name <$> flat_menu (F:=xq) 30)) = 30%nat /\
  (make_plot7_pareto_analysis (flat_menu (F:=xq) 30)).2 = Top_items 21 (of_int 70) /\
  p_Item_Name <$> (make_plot7_pareto_analysis (flat_menu (F:=xq) 30)).1 !! 20%nat
    = Some "All Other Items" /\
  Forall (fun r => (Cumulative_Pct r >=? of_int 80)%F = false)
    (take 20 (make_plot7_pareto_analysis (flat_menu (F:=xq) 30)).1) /\
  (make_plot7_pareto_analysis (flat_menu (F:=b64) 30)).2 = Top_items 21 (of_int 70) /\
  p_Item_Name <$> (make_plot7_pareto_analysis (flat_menu (F:=b64) 30)).1 !! 20%nat
    = Some "All Other Items" /\
  Forall (fun r => (Cumulative_Pct r >=? of_int 80)%F = false)
    (take 20 (make_plot7_pareto_analysis (flat_menu (F:=b64) 30)).1).
Proof.
  split; [vm_compute; reflexivity|]. split.
  { assert (He : exists p, (make_plot7_pareto_analysis (flat_menu (F:=xq) 30)).2
                           = Top_items 21 p /\ xq_eqb p (of_int 70) = true).
    { eexists. split; vm_compute; reflexivity. }
    destruct He as (p & -> & Hp). f_equal. by apply xq_eqb_eq. }
  split; [vm_compute; reflexivity|]. split.
  { apply (bool_decide_unpack _). vm_compute. reflexivity. }
  split; [vm_compute; reflexivity|]. split; [vm_compute; reflexivity|].
  apply (bool_decide_unpack _). vm_compute. reflexivity.
Qed.

(** ** The Growth Analyzer *)

Lemma growth_table_row {F} `{Float F} (df : list (sale F)) (r : growth_row F) :
  r ∈ growth_table df ->
  Growth_Pct r =
    (of_int 100 * (Second_Half r - First_Half r) / (First_Half r + lit_1e_6))%F /\
  Total_Sales r = (First_Half r + Second_Half r)%F.
Proof.
  unfold growth_table. rewrite list_elem_of_fmap. by intros (k & -> & _).
Qed.

Lemma elem_of_growth_kept {F} `{Float F} (df : list (sale F)) (r : growth_row F) :
  r ∈ growth_table df ->
  is_inf (First_Half r) = false -> is_inf (Second_Half r) = false ->
  is_inf (Growth_Pct r) = false -> is_inf (Total_Sales r) = false ->
  (Total_Sales r >? of_int 500)%F = true ->
  row_notna r ->
  r ∈ growth_kept df.
Proof.
  intros Hr H1 H2 H3 H4 Hvol Hna. unfold growth_kept.
  apply list_elem_of_filter. split; [done|].
  apply list_elem_of_filter. split; [done|].
  apply list_elem_of_fmap. exists r. split; [|done].
  unfold replace_inf. rewrite H1, H2, H3, H4. by destruct r.
Qed.

Lemma growth_kept_finite (df : list (sale xq)) (r : growth_row xq) :
  r ∈ growth_kept df -> finite (Growth_Pct r).
Proof.
  unfold growth_kept. rewrite !list_elem_of_filter, list_elem_of_fmap.
  intros ((_ & _ & Hna & _) & _ & r0 & -> & _). simpl in *.
  unfold replace_inf, notna in *. destruct (Growth_Pct r0) as [q|b|]; simpl in *.
  - by exists q.
  - done.
  - done.
Qed.

Lemma nlargest_growth (n : nat) (kept : list (growth_row xq)) :
  Forall (fun x => finite (Growth_Pct x)) kept ->
  nlargest n Growth_Pct kept =
  take n (sort_by (fun y x => Qc_ltb (- xq_val (Growth_Pct y)) (- xq_val (Growth_Pct x)))
            kept).
Proof.
  intros Hfin. rewrite Forall_forall in Hfin. unfold nlargest. f_equal.
  rewrite filter_all.
  - apply sort_by_ext_in. intros x y Hx Hy.
    destruct (Hfin x Hx) as [p Hp], (Hfin y Hy) as [q Hq]. rewrite Hp, Hq. simpl.
    by rewrite Qc_ltb_opp.
  - intros x Hx. destruct (Hfin x Hx) as [p Hp]. unfold notna. by rewrite Hp.
Qed.

Lemma nsmallest_growth (n : nat) (kept : list (growth_row xq)) :
  Forall (fun x => finite (Growth_Pct x)) kept ->
  nsmallest n Growth_Pct kept =
  take n (sort_by (fun y x => Qc_ltb (xq_val (Growth_Pct y)) (xq_val (Growth_Pct x)))
            kept).
Proof.
  intros Hfin. rewrite Forall_forall in Hfin. unfold nsmallest. f_equal.
  rewrite filter_all.
  - apply sort_by_ext_in. intros x y Hx Hy.
    destruct (Hfin x Hx) as [p Hp], (Hfin y Hy) as [q Hq]. by rewrite Hp, Hq.
  - intros x Hx. destruct (Hfin x Hx) as [p Hp]. unfold notna. by rewrite Hp.
Qed.




(** In binary64 the growth of a new item can overflow.  The one item of
    [windfall_sales] has nothing in the first half and [2^1000] in the
    second: its growth [100 * 2^1000 / 1e-6] is infinite, the row is dropped
    with the infinite values, and the item is in neither list. *)
Lemma growth_new_item_overflow_b64 :
  (fun r => (g_Item_Name r, First_Half r, Second_Half r, Growth_Pct r))
  <$> growth_table (windfall_sales (F:=b64))
  = [("Spring Rolls", of_int 0, of_int (2 ^ 1000), S754_infinity false)] /\
  Forall (fun r => (Total_Sales r >? of_int 500)%F = true)
    (growth_table (windfall_sales (F:=b64))) /\
  growth_kept (windfall_sales (F:=b64)) = [] /\
  make_plot6_movers_and_shakers (windfall_sales (F:=b64)) = ([], []).
Proof.
  split; [vm_compute; reflexivity|]. split.
  { apply (bool_decide_unpack _). vm_compute. reflexivity. }
  split; vm_compute; reflexivity.
Qed.

(** * Further properties of the code *)

(** ** More on the sample data *)

Lemma sample_summary_names {F} `{Float F} :
  NoDup (s_Item_Name <$> sample_summary (F:=F)).
Proof. apply (bool_decide_unpack _). vm_compute. reflexivity. Defined.

Lemma sample_sales_amounts_nonneg :
  Forall (fun x => nonneg (Amount x)) (sample_sales (F:=xq)).
Proof.
  eapply Forall_impl; [exact sample_sales_nonneg|]. by intros x [Hx _].
Defined.

Lemma sample_sales_amounts_finite :
  Forall (fun x => finite (Amount x)) (sample_sales (F:=xq)).
Proof.
  eapply Forall_impl; [exact sample_sales_amounts_nonneg|].
  intros x. apply nonneg_finite.
Defined.

Lemma off_season_rows_finite :
  Forall (fun r => finite (raw_Amount r)) (off_season_rows (F:=xq)).
Proof. repeat constructor; by eexists. Defined.

(** ** Keywords as substrings *)

Lemma lower_app (s t : string) : lower (s ++ t)%string = (lower s ++ lower t)%string.
Proof. induction s as [|c s IH]; simpl; [reflexivity|]. now rewrite IH. Qed.

Lemma prefix_app (kw s : string) : String.prefix kw (kw ++ s)%string = true.
Proof.
  induction kw as [|c kw IH]; simpl; [now destruct s|].
  destruct (ascii_dec c c) as [_|Hc]; [exact IH|now destruct Hc].
Qed.

Lemma contains_here (kw s : string) : contains kw (kw ++ s)%string = true.
Proof.
  destruct kw as [|c kw]; [destruct s; reflexivity|].
  change (String.prefix (String c kw) (String c kw ++ s)%string ||
          contains (String c kw) (kw ++ s)%string = true).
  now rewrite prefix_app.
Qed.

Lemma contains_later (kw pre s : string) :
  contains kw s = true -> contains kw (pre ++ s)%string = true.
Proof.
  intros Hs. induction pre as [|c pre IH]; [exact Hs|].
  simpl. rewrite IH. apply orb_true_r.
Qed.

(** [kw in s] holds for every string that has [kw] somewhere inside. *)
Lemma contains_infix (kw pre post : string) :
  contains kw (pre ++ kw ++ post)%string = true.
Proof. apply contains_later, contains_here. Qed.

Lemma prefix_split (kw s : string) :
  String.prefix kw s = true -> exists post, s = (kw ++ post)%string.
Proof.
  revert s. induction kw as [|c kw IH]; intros s Hp; [now exists s|].
  destruct s as [|d s]; [discriminate|]. simpl in Hp.
  destruct (ascii_dec c d) as [->|]; [|discriminate].
  destruct (IH s Hp) as [post ->]. now exists post.
Qed.

Lemma contains_split (kw s : string) :
  contains kw s = true -> exists pre post, s = (pre ++ kw ++ post)%string.
Proof.
  induction s as [|c s IH]; intros Hc.
  - change (String.prefix kw "" || false = true) in Hc. rewrite orb_false_r in Hc.
    destruct (prefix_split _ _ Hc) as [post Hp]. now exists "", post.
  - change (String.prefix kw (String c s) || contains kw s = true) in Hc.
    apply orb_true_iff in Hc as [Hc|Hc].
    + destruct (prefix_split _ _ Hc) as [post Hp]. now exists "", post.
    + destruct (IH Hc) as (pre & post & ->). now exists (String c pre), post.
Qed.

(** X1.  A name that has a keyword of the first rule, in any letter case
    and at any place, is an appetizer, whatever else it contains. *)
Theorem categorize_item_appetizer_keyword (pre w post kw : string) :
  kw ∈ ["dumpling"; "wings"; "tenders"; "roll"; "crab"; "rangoon"; "bun"; "steam"] ->
  lower w = kw ->
  categorize_item (pre ++ w ++ post)%string = "Appetizers".
Proof.
  intros Hkw Hw. unfold categorize_item.
  rewrite !lower_app, Hw.
  assert (Hex : existsb (fun app => contains app (lower pre ++ kw ++ lower post)%string)
                  ["dumpling"; "wings"; "tenders"; "roll"; "crab"; "rangoon"; "bun";
                   "steam"] = true).
  { apply existsb_exists. exists kw. split; [|apply contains_infix].
    apply list_elem_of_In, Hkw. }
  now rewrite Hex.
Qed.

(** The theorem of X1 at a name with "STEAM", "Rice" and "Tea". *)
Lemma categorize_item_appetizer_keyword_witness :
  categorize_item ("Jasmine " ++ "STEAM" ++ "ed Rice with Thai Tea")%string = "Appetizers".
Proof.
  apply (categorize_item_appetizer_keyword "Jasmine " "STEAM" "ed Rice with Thai Tea" "steam").
  - apply (bool_decide_unpack _). vm_compute. reflexivity.
  - reflexivity.
Defined.

Lemma contains_iff (kw s : string) :
  contains kw s = true <-> exists pre post, s = (pre ++ kw ++ post)%string.
Proof.
  split; [apply contains_split|]. intros (pre & post & ->). apply contains_infix.
Qed.

(** X2.  The default category is given to the names in which none of the
    twenty keywords occurs, and to no other name. *)
Theorem categorize_item_default_iff (item_name : string) :
  categorize_item item_name = "Other Entrees" <->
  forall kw : string,
    kw ∈ ["dumpling"; "wings"; "tenders"; "roll"; "crab"; "rangoon"; "bun"; "steam";
          "ramen"; "noodle"; "rice"; "combo"; "special";
          "tea"; "lemonade"; "soda"; "coke"; "pepsi"; "starry"; "crush"] ->
    ~ exists pre post, lower item_name = (pre ++ kw ++ post)%string.
Proof.
  setoid_rewrite <- contains_iff.
  unfold categorize_item. cbn [existsb]. rewrite !orb_false_r.
  set (low := lower item_name). split.
  - intros Hc kw Hkw Hin.
    repeat (apply elem_of_cons in Hkw as [->|Hkw];
            [rewrite Hin in Hc; rewrite ?orb_true_r in Hc; cbn in Hc;
             repeat match type of Hc with
                    | (if ?b then _ else _) = _ => destruct b
                    end; discriminate Hc|]).
    by apply elem_of_nil in Hkw.
  - intros Hno.
    assert (Hf : forall kw, kw ∈ ["dumpling"; "wings"; "tenders"; "roll"; "crab";
                  "rangoon"; "bun"; "steam"; "ramen"; "noodle"; "rice"; "combo";
                  "special"; "tea"; "lemonade"; "soda"; "coke"; "pepsi"; "starry";
                  "crush"] -> contains kw low = false).
    { intros kw Hkw. apply not_true_iff_false. by apply Hno. }
    rewrite !Hf by (apply (bool_decide_unpack _); vm_compute; reflexivity).
    reflexivity.
Qed.

(** The theorem of X2 at a name of the default category. *)
Lemma categorize_item_default_iff_witness :
  categorize_item "Kung Pao Chicken" = "Other Entrees" <->
  forall kw : string,
    kw ∈ ["dumpling"; "wings"; "tenders"; "roll"; "crab"; "rangoon"; "bun"; "steam";
          "ramen"; "noodle"; "rice"; "combo"; "special";
          "tea"; "lemonade"; "soda"; "coke"; "pepsi"; "starry"; "crush"] ->
    ~ exists pre post, lower "Kung Pao Chicken" = (pre ++ kw ++ post)%string.
Proof. exact (categorize_item_default_iff "Kung Pao Chicken"). Defined.

(** ** The order of strings *)

Lemma ascii_compare_lt_trans (a b c : ascii) :
  Ascii.compare a b = Lt -> Ascii.compare b c = Lt -> Ascii.compare a c = Lt.
Proof.
  unfold Ascii.compare. rewrite !N.compare_lt_iff. apply N.lt_trans.
Qed.

Lemma string_compare_refl (s : string) : String.compare s s = Eq.
Proof.
  induction s as [|c s IH]; simpl; [reflexivity|].
  unfold Ascii.compare. now rewrite N.compare_refl.
Qed.

Lemma string_compare_lt_trans (s t u : string) :
  String.compare s t = Lt -> String.compare t u = Lt -> String.compare s u = Lt.
Proof.
  revert t u. induction s as [|a s IH]; intros [|b t] [|c u]; simpl; try done.
  destruct (Ascii.compare a b) eqn:Hab; try done;
    destruct (Ascii.compare b c) eqn:Hbc; try done; intros Hst Htu.
  - apply Ascii.compare_eq_iff in Hab as ->. rewrite Hbc. by eapply IH.
  - apply Ascii.compare_eq_iff in Hab as ->. by rewrite Hbc.
  - apply Ascii.compare_eq_iff in Hbc as <-. by rewrite Hab.
  - by rewrite (ascii_compare_lt_trans a b c).
Qed.

Lemma string_ltb_trans (s t u : string) :
  String.ltb s t = true -> String.ltb t u = true -> String.ltb s u = true.
Proof.
  unfold String.ltb. intros Hst Htu.
  destruct (String.compare s t) eqn:H1; try done.
  destruct (String.compare t u) eqn:H2; try done.
  by rewrite (string_compare_lt_trans s t u).
Qed.

Lemma string_ltb_irrefl (s : string) : String.ltb s s = false.
Proof. unfold String.ltb. by rewrite string_compare_refl. Qed.

(** Of two different strings one comes before the other. *)
Lemma string_ltb_total (s t : string) :
  s <> t -> String.ltb s t = false -> String.ltb t s = true.
Proof.
  unfold String.ltb. intros Hne Hst. rewrite String.compare_antisym.
  destruct (String.compare s t) eqn:Hc; try done.
  by apply String.compare_eq_iff in Hc.
Qed.

Abbreviation string_lt := (fun s t : string => String.ltb s t = true).

Lemma insert_by_ltb_sorted (x : string) (l : list string) :
  x ∉ l -> StronglySorted string_lt l ->
  StronglySorted string_lt (insert_by String.ltb x l).
Proof.
  intros Hx Hs. induction Hs as [|y l Hs IH Hy]; simpl; [repeat constructor|].
  apply not_elem_of_cons in Hx as [Hxy Hx].
  destruct (String.ltb y x) eqn:Hlt.
  - constructor; [by apply IH|].
    rewrite insert_by_Permutation. by constructor.
  - assert (Hxy' : String.ltb x y = true) by (by apply string_ltb_total).
    constructor; [by constructor|]. constructor; [done|].
    eapply Forall_impl; [exact Hy|]. intros z Hz. by eapply string_ltb_trans.
Qed.

Lemma sort_by_ltb_sorted (l : list string) :
  NoDup l -> StronglySorted string_lt (sort_by String.ltb l).
Proof.
  induction 1 as [|x l Hx Hnd IH]; simpl; [constructor|].
  apply insert_by_ltb_sorted; [|done]. by rewrite sort_by_Permutation.
Qed.

(** The keys of a [groupby] come in strictly ascending order. *)
Lemma group_keys_sorted (keys : list string) :
  StronglySorted string_lt (group_keys keys).
Proof. apply sort_by_ltb_sorted, NoDup_remove_dups. Qed.

(** Two strictly ascending lists with the same elements are equal. *)
Lemma sorted_unique (l1 l2 : list string) :
  StronglySorted string_lt l1 -> StronglySorted string_lt l2 ->
  (forall k, k ∈ l1 <-> k ∈ l2) -> l1 = l2.
Proof.
  intros Hs1. revert l2. induction Hs1 as [|x l1 Hs1 IH Hx]; intros l2 Hs2 Heq.
  - destruct l2 as [|y l2]; [done|]. specialize (Heq y). rewrite elem_of_nil in Heq.
    destruct (proj2 Heq). by left.
  - destruct Hs2 as [|y l2 Hs2 Hy].
    { specialize (Heq x). rewrite elem_of_nil in Heq. destruct (proj1 Heq). by left. }
    rewrite Forall_forall in Hx, Hy.
    assert (Hxy : x = y).
    { destruct (decide (x = y)) as [|Hne]; [done|]. exfalso.
      assert (Hx2 : x ∈ l2).
      { pose proof (proj1 (Heq x) ltac:(by left)) as H0.
        apply elem_of_cons in H0 as [?|?]; done. }
      assert (Hy1 : y ∈ l1).
      { pose proof (proj2 (Heq y) ltac:(by left)) as H0.
        apply elem_of_cons in H0 as [?|?]; [congruence|done]. }
      pose proof (string_ltb_trans _ _ _ (Hx y Hy1) (Hy x Hx2)) as Hxx.
      by rewrite string_ltb_irrefl in Hxx. }
    subst y. f_equal. apply IH; [done|]. intros k. split; intros Hk.
    + pose proof (proj1 (Heq k) ltac:(by right)) as H0.
      apply elem_of_cons in H0 as [->|?]; [|done].
      pose proof (Hx x Hk) as Hxx. by rewrite string_ltb_irrefl in Hxx.
    + pose proof (proj2 (Heq k) ltac:(by right)) as H0.
      apply elem_of_cons in H0 as [->|?]; [|done].
      pose proof (Hy x Hk) as Hxx. by rewrite string_ltb_irrefl in Hxx.
Qed.

(** The keys of a [groupby] depend on the set of the keys only. *)
Lemma group_keys_ext (keys1 keys2 : list string) :
  (forall k, k ∈ keys1 <-> k ∈ keys2) -> group_keys keys1 = group_keys keys2.
Proof.
  intros Heq. apply sorted_unique; [apply group_keys_sorted..|].
  intros k. by rewrite !elem_of_group_keys.
Qed.

(** ** More on the item summary *)

Lemma exact_sum_app (xs ys : list Z) :
  exact_sum (xs ++ ys) = exact_sum xs + exact_sum ys.
Proof.
  induction xs as [|x xs IH]; [done|].
  rewrite <- app_comm_cons, !exact_sum_cons, IH. lia.
Qed.

Lemma exact_sum_Permutation (xs ys : list Z) : xs ≡ₚ ys -> exact_sum xs = exact_sum ys.
Proof.
  induction 1 as [|x xs ys _ IH|x y xs|xs ys zs _ IH1 _ IH2].
  - done.
  - by rewrite !exact_sum_cons, IH.
  - rewrite !exact_sum_cons. lia.
  - congruence.
Qed.

Lemma exact_sum_concat (ls : list (list Z)) :
  exact_sum (concat ls) = exact_sum (exact_sum <$> ls).
Proof.
  induction ls as [|l ls IH]; [done|].
  by rewrite concat_cons, exact_sum_app, fmap_cons, exact_sum_cons, IH.
Qed.

(** Wrapping the terms of a sum does not change the wrapped sum. *)
Lemma wrap64_exact_sum_wrap (xs : list Z) :
  wrap64 (exact_sum (wrap64 <$> xs)) = wrap64 (exact_sum xs).
Proof.
  induction xs as [|x xs IH]; [done|].
  rewrite fmap_cons, !exact_sum_cons.
  by rewrite wrap64_add_l, <- wrap64_add_r, IH, wrap64_add_r.
Qed.

Lemma fmap_concat {A B} (f : A -> B) (ls : list (list A)) :
  f <$> concat ls = concat ((fun l : list A => f <$> l) <$> ls).
Proof.
  induction ls as [|l ls IH]; [done|].
  by rewrite !fmap_cons, !concat_cons, fmap_app, IH.
Qed.

(** X3.  The item summary has one row for every item name of the dataset,
    and no other row; the rows come by name, in strictly ascending order,
    so that no name has two rows.  An empty dataset has the empty
    summary. *)
Theorem item_summary_one_row_per_item {F : Type} `{Float F} (df : list (sale F)) :
  (forall k : string,
     k ∈ s_Item_Name <$> get_item_summary df <-> k ∈ Item_Name <$> df) /\
  StronglySorted (fun a b : string => String.ltb a b = true)
    (s_Item_Name <$> get_item_summary df) /\
  NoDup (s_Item_Name <$> get_item_summary df) /\
  (get_item_summary df = [] <-> df = []).
Proof.
  rewrite get_item_summary_names. split; [|split; [|split]].
  - intros k. apply elem_of_group_keys.
  - apply group_keys_sorted.
  - apply NoDup_group_keys.
  - split.
    + intros Hnil. destruct df as [|r df]; [done|].
      assert (Hr : Item_Name r ∈ s_Item_Name <$> get_item_summary (r :: df)).
      { rewrite get_item_summary_names. apply elem_of_group_keys. by left. }
      rewrite Hnil in Hr. by apply elem_of_nil in Hr.
    + by intros ->.
Qed.

(** X4.  The counts of the item summary are the int64 totals of the
    groups: the count of a row is the sum of the counts of the sales of its
    item, wrapped around at [2^63], and the int64 sum of the counts of all
    rows is the int64 sum of the counts of the dataset, every sale being
    counted in exactly one row.  For a dataset whose counts are not negative
    and add up to less than [2^63] no sum wraps around: the count of a row is
    the sum of the counts of its sales, and the counts of the rows add up to
    the number of units of the dataset. *)
Theorem item_summary_counts_add_up {F : Type} `{Float F} (df : list (sale F)) :
  exists counts : list Z,
    Total_Count <$> get_item_summary df = of_int <$> counts /\
    counts = (fun k => sum_int (Count <$> filter (fun r => Item_Name r = k) df))
             <$> (s_Item_Name <$> get_item_summary df) /\
    counts = (fun k => wrap64 (exact_sum (Count <$> filter (fun r => Item_Name r = k) df)))
             <$> (s_Item_Name <$> get_item_summary df) /\
    sum_int counts = sum_int (Count <$> df) /\
    (Forall (fun x => 0 <= Count x) df ->
     exact_sum (Count <$> df) < 2 ^ 63 ->
     counts = (fun k => exact_sum (Count <$> filter (fun r => Item_Name r = k) df))
              <$> (s_Item_Name <$> get_item_summary df) /\
     exact_sum counts = exact_sum (Count <$> df)).
Proof.
  set (names := s_Item_Name <$> get_item_summary df).
  set (grp := fun k => Count <$> filter (fun r => Item_Name r = k) df).
  assert (Hpart : exact_sum ((fun k => exact_sum (grp k)) <$> names)
                  = exact_sum (Count <$> df)).
  { rewrite <- (exact_sum_Permutation _ _
                  (fmap_Permutation Count _ _ (groupby_partition Item_Name df))).
    rewrite fmap_concat, exact_sum_concat.
    unfold names, get_item_summary, groupby. rewrite <- !list_fmap_compose.
    f_equal. }
  assert (Hwrap : (fun k => sum_int (grp k)) <$> names
                  = wrap64 <$> ((fun k => exact_sum (grp k)) <$> names)).
  { rewrite <- list_fmap_compose. apply list_fmap_ext. intros _ k _. simpl.
    apply sum_int_wrap. }
  exists ((fun k => sum_int (grp k)) <$> names). split; [|split; [|split; [|split]]].
  - unfold names, get_item_summary, groupby. rewrite <- !list_fmap_compose.
    by apply list_fmap_ext.
  - done.
  - rewrite Hwrap. by rewrite <- list_fmap_compose.
  - by rewrite !sum_int_wrap, Hwrap, wrap64_exact_sum_wrap, Hpart.
  - intros Hnn Hrange.
    assert (He : (fun k => sum_int (grp k)) <$> names
                 = (fun k => exact_sum (grp k)) <$> names).
    { apply list_fmap_ext. intros _ k _. by apply sum_int_group. }
    by rewrite He.
Qed.

(** The theorem of X4 at the sample dataset, whose counts are not negative
    and add up to 250: the counts of the three rows are the sums 100, 50 and
    100 of their items, and add up to 250. *)
Lemma item_summary_counts_add_up_witness :
  exists counts : list Z,
    Total_Count <$> get_item_summary (sample_sales (F:=b64)) = of_int <$> counts /\
    counts = [100; 50; 100] /\
    sum_int counts = sum_int (Count <$> sample_sales (F:=b64)) /\
    exact_sum counts = exact_sum (Count <$> sample_sales (F:=b64)) /\
    exact_sum (Count <$> sample_sales (F:=b64)) = 250.
Proof.
  destruct (item_summary_counts_add_up (sample_sales (F:=b64)))
    as (counts & Hc & _ & _ & Hsum & Hex).
  destruct Hex as [Hcounts Hexact]; [repeat constructor; simpl; lia|reflexivity|].
  exists counts. split; [exact Hc|]. split; [rewrite Hcounts; vm_compute; reflexivity|].
  split; [exact Hsum|]. split; [exact Hexact|reflexivity].
Defined.

(** The counts of the sample dataset, and the count of the item that was
    sold twice in bulk: the sum of [2^62] and [2^62] in int64. *)
Lemma item_summary_counts_samples :
  (fun r => (s_Item_Name r, Total_Count r)) <$> get_item_summary (sample_sales (F:=b64))
  = [("Beef Ramen", of_int 100); ("Spring Rolls", of_int 50); ("Thai Tea", of_int 100)] /\
  exact_sum (Count <$> sample_sales (F:=b64)) = 250 /\
  (fun r => (s_Item_Name r, Total_Count r)) <$> get_item_summary (bulk_sales (F:=b64))
  = [("Beef Ramen", of_int (- 2 ^ 63))] /\
  exact_sum (Count <$> bulk_sales (F:=b64)) = 2 ^ 63.
Proof. repeat split; vm_compute; reflexivity. Qed.

(** A division by the guard [1e-6] alone is a multiplication by a
    million. *)
Lemma Qc_div_1e_6 (a : Qc) :
  (a / (Qc_of_Z 0 + Q2Qc (1 # 1000000)))%Qc = (Qc_of_Z 1000000 * a)%Qc.
Proof. apply Qc_is_canon. unfold Qc_of_Z. Qc_unfold. field. Qed.

(** X5.  An item whose counts add up to 0 gets, through the guard of the
    division, the average price [1000000 * Total_Amount] (in exact
    arithmetic): not 0, and not a missing value. *)
Theorem avg_price_of_uncounted_item (df : list (sale xq)) (r : summary_row xq)
    (a : Qc) :
  r ∈ get_item_summary df ->
  Total_Count r = of_int 0 ->
  Total_Amount r = XFin a ->
  Avg_Price r = XFin (Qc_of_Z 1000000 * a).
Proof.
  intros Hr Hc Ha.
  destruct (elem_of_get_item_summary df r Hr) as (_ & _ & _ & Hp).
  rewrite Hp, Hc, Ha. cbn. by rewrite Qc_div_1e_6.
Qed.

(** The theorem of X5 at an item sold for 5 and counted 0 times. *)
Lemma avg_price_of_uncounted_item_witness :
  exists r : summary_row xq,
    get_item_summary uncounted_sales !! 0%nat = Some r /\
    Avg_Price r = XFin (Qc_of_Z 1000000 * Qc_of_Z 5).
Proof.
  destruct (get_item_summary (uncounted_sales (F:=xq)) !! 0%nat) as [r|] eqn:Hr;
    [|vm_compute in Hr; discriminate Hr].
  exists r. split; [reflexivity|].
  apply (avg_price_of_uncounted_item uncounted_sales r (Qc_of_Z 5)).
  - by eapply list_elem_of_lookup_2.
  - apply xq_eqb_eq. vm_compute in Hr. injection Hr as <-. vm_compute. reflexivity.
  - apply xq_eqb_eq. vm_compute in Hr. injection Hr as <-. vm_compute. reflexivity.
Defined.

(** ** The figure of the What-If simulation *)

Section WhatIfFigure.
Context {F : Type} `{Float F}.
Local Open Scope float_scope.
Implicit Types (s : state F) (df : ref) (rows : list (summary_row F))
  (r : summary_row F) (item : string).

(** In a table with one row per name the three assignments replace the
    row of the item. *)
Lemma what_if_rows_insert item nc na np rows t r :
  NoDup (s_Item_Name <$> rows) -> rows !! t = Some r -> s_Item_Name r = item ->
  assign_where item Col_Avg_Price np
    (assign_where item Col_Total_Amount na
       (assign_where item Col_Total_Count nc rows)) =
  <[t := {| s_Item_Name := item; Total_Amount := na; Total_Count := nc;
            Avg_Price := np |}]> rows.
Proof.
  intros Hnd Ht Hname. apply list_eq. intros j.
  destruct (decide (j = t)) as [->|Hjt].
  - rewrite list_lookup_insert_eq by (by eapply lookup_lt_Some).
    by eapply what_if_rows_target.
  - rewrite list_lookup_insert_ne by done.
    destruct (rows !! j) as [r'|] eqn:Hj.
    + apply what_if_rows_other; [done|]. intros Hname'. apply Hjt.
      eapply (NoDup_lookup (s_Item_Name <$> rows)); [done| |].
      * rewrite list_lookup_fmap, Hj. simpl. by rewrite Hname'.
      * rewrite list_lookup_fmap, Ht. simpl. by rewrite Hname.
    + by do 3 apply assign_where_none.
Qed.

Lemma names_apart rows t r j r' :
  NoDup (s_Item_Name <$> rows) -> rows !! t = Some r -> rows !! j = Some r' ->
  j <> t -> s_Item_Name r' <> s_Item_Name r.
Proof.
  intros Hnd Ht Hj Hjt Heq. apply Hjt.
  eapply (NoDup_lookup (s_Item_Name <$> rows)); [done| |].
  - rewrite list_lookup_fmap, Hj. simpl. by rewrite Heq.
  - by rewrite list_lookup_fmap, Ht.
Qed.

Lemma others_apart rows t r :
  NoDup (s_Item_Name <$> rows) -> rows !! t = Some r ->
  forall x, x ∈ take t rows ++ drop (S t) rows -> s_Item_Name x <> s_Item_Name r.
Proof.
  intros Hnd Ht x Hx. apply elem_of_app in Hx as [Hx|Hx].
  - apply list_elem_of_lookup in Hx as [j Hj].
    pose proof (lookup_lt_Some _ _ _ Hj) as Hlt. rewrite length_take in Hlt.
    rewrite lookup_take_lt in Hj by lia.
    eapply names_apart; [done..|lia].
  - apply list_elem_of_lookup in Hx as [j Hj]. rewrite lookup_drop in Hj.
    eapply names_apart; [done..|lia].
Qed.

(** The rows of the item, and the other rows, after its row is replaced. *)
Lemma filter_item_insert item rows t r x :
  NoDup (s_Item_Name <$> rows) -> rows !! t = Some r -> s_Item_Name r = item ->
  s_Item_Name x = item ->
  filter (fun r => s_Item_Name r = item) (<[t := x]> rows) = [x] /\
  filter (fun r => s_Item_Name r <> item) (<[t := x]> rows) = delete t rows.
Proof.
  intros Hnd Ht Hname Hx.
  pose proof (lookup_lt_Some _ _ _ Ht) as Hlt.
  pose proof (others_apart rows t r Hnd Ht) as Hap. rewrite Hname in Hap.
  rewrite insert_take_drop, delete_take_drop by done.
  rewrite !filter_app, !filter_cons. split.
  - rewrite decide_True by done.
    rewrite !filter_none; [done| |].
    + intros y Hy. apply Hap, elem_of_app. by right.
    + intros y Hy. apply Hap, elem_of_app. by left.
  - rewrite decide_False by (intros Hne; by apply Hne).
    rewrite !filter_all; [done| |].
    + intros y Hy. apply Hap, elem_of_app. by right.
    + intros y Hy. apply Hap, elem_of_app. by left.
Qed.
End WhatIfFigure.

(** The run of the simulation on a table with one row per name: the row
    of the item is replaced in the copy, and the figure is drawn from the
    copy. *)
Lemma what_if_run_insert {F : Type} `{Float F} (s : state F) (df : ref)
    (rows : list (summary_row F)) (item : string) (c p : F) (t : nat)
    (r : summary_row F) :
  frames s !! df = Some rows ->
  NoDup (s_Item_Name <$> rows) ->
  rows !! t = Some r ->
  s_Item_Name r = item ->
  let new_count := (Total_Count r * (of_int 1 + c / of_int 100))%F in
  let new_price := (Avg_Price r * (of_int 1 + p / of_int 100))%F in
  let new_amount := (new_count * new_price)%F in
  let rows' :=
    <[t := {| s_Item_Name := item; Total_Amount := new_amount;
              Total_Count := new_count; Avg_Price := new_price |}]> rows in
  make_plot3_what_if_quadrant df item c p s =
  Some (what_if_figure item rows',
        {| frames := <[fresh (dom (frames s)) := rows']> (frames s);
           st_errors := st_errors s |}).
Proof.
  intros Hdf Hnd Ht Hname. cbv zeta.
  pose proof (head_filter_unique item rows t r Hnd Ht Hname) as Hhead.
  rewrite (what_if_found s df rows item c p r Hdf Hhead). cbv zeta.
  by rewrite (what_if_rows_insert item _ _ _ rows t r Hnd Ht Hname).
Qed.

(** X6.  In a table with one row per name, the figure of the simulation
    has two traces: the trace "WHAT-IF" holds one point, the new count and
    the new amount of the item, and the trace "Other Items" holds the
    points of the other rows, with the counts and amounts of the source
    table, in the order of the table. *)
Theorem what_if_figure_points {F : Type} `{Float F} (s : state F) (df : ref)
    (rows : list (summary_row F)) (item : string) (c p : F) (t : nat)
    (r : summary_row F) :
  frames s !! df = Some rows ->
  NoDup (s_Item_Name <$> rows) ->
  rows !! t = Some r ->
  s_Item_Name r = item ->
  let new_count := (Total_Count r * (of_int 1 + c / of_int 100))%F in
  let new_price := (Avg_Price r * (of_int 1 + p / of_int 100))%F in
  let new_amount := (new_count * new_price)%F in
  exists fig s' other what_if,
    make_plot3_what_if_quadrant df item c p s = Some (fig, s') /\
    fig_data fig = [other; what_if] /\
    sc_name other = "Other Items" /\
    sc_x other = Total_Count <$> delete t rows /\
    sc_y other = Total_Amount <$> delete t rows /\
    sc_name what_if = ("WHAT-IF: " ++ item)%string /\
    sc_x what_if = [new_count] /\
    sc_y what_if = [new_amount] /\
    sc_marker_color what_if = [new_price] /\
    sc_text what_if = [item].
Proof.
  intros Hdf Hnd Ht Hname. cbv zeta.
  eexists _, _, _, _.
  split; [by apply (what_if_run_insert s df rows item c p t r)|].
  unfold what_if_figure. cbn [fig_data sc_name sc_x sc_y sc_marker_color sc_text].
  destruct (filter_item_insert item rows t r
              {| s_Item_Name := item;
                 Total_Amount :=
                   (Total_Count r * (of_int 1 + c / of_int 100) *
                    (Avg_Price r * (of_int 1 + p / of_int 100)))%F;
                 Total_Count := (Total_Count r * (of_int 1 + c / of_int 100))%F;
                 Avg_Price := (Avg_Price r * (of_int 1 + p / of_int 100))%F |}
              Hnd Ht Hname eq_refl) as [-> ->].
  repeat split; reflexivity.
Qed.

(** The theorem of X6 at the sample table, in binary64. *)
Lemma what_if_figure_points_witness :
  exists fig s' other what_if,
    make_plot3_what_if_quadrant 1%positive "Beef Ramen" (of_int 50) (of_int (-10))
      (sample_state (F:=b64)) = Some (fig, s') /\
    fig_data fig = [other; what_if] /\
    sc_name other = "Other Items" /\
    sc_x other = Total_Count <$> delete 0%nat sample_summary /\
    sc_y other = Total_Amount <$> delete 0%nat sample_summary /\
    sc_name what_if = "WHAT-IF: Beef Ramen" /\
    sc_x what_if = [(of_int 100 * (of_int 1 + of_int 50 / of_int 100))%F] /\
    sc_y what_if = [(of_int 100 * (of_int 1 + of_int 50 / of_int 100) *
                     (of_int 10 * (of_int 1 + of_int (-10) / of_int 100)))%F] /\
    sc_marker_color what_if = [(of_int 10 * (of_int 1 + of_int (-10) / of_int 100))%F] /\
    sc_text what_if = ["Beef Ramen"].
Proof.
  apply (what_if_figure_points sample_state 1%positive sample_summary "Beef Ramen"
           (of_int 50) (of_int (-10)) 0%nat
           {| s_Item_Name := "Beef Ramen"; Total_Amount := of_int 1000;
              Total_Count := of_int 100; Avg_Price := of_int 10 |}).
  - reflexivity.
  - apply sample_summary_names.
  - reflexivity.
  - reflexivity.
Defined.

(** X7.  The trace "Other Items" has one point less than the table has
    rows, but its hover texts and marker colours are the columns of the
    whole table.  The points of the rows before the item carry their own
    name; from the position of the item on, the point of a row carries the
    name and the colour of the row before it in the table, which is another
    item. *)
Theorem what_if_other_items_labels_shifted {F : Type} `{Float F} (s : state F)
    (df : ref) (rows : list (summary_row F)) (item : string) (c p : F) (t : nat)
    (r : summary_row F) :
  frames s !! df = Some rows ->
  NoDup (s_Item_Name <$> rows) ->
  rows !! t = Some r ->
  s_Item_Name r = item ->
  exists fig s' rows' other,
    make_plot3_what_if_quadrant df item c p s = Some (fig, s') /\
    frames s' !! fresh (dom (frames s)) = Some rows' /\
    fig_data fig !! 0%nat = Some other /\
    S (length (sc_x other)) = length rows /\
    length (sc_text other) = length rows /\
    length (sc_marker_color other) = length rows /\
    (forall k x, (k < t)%nat -> rows !! k = Some x ->
       sc_x other !! k = Some (Total_Count x) /\
       sc_y other !! k = Some (Total_Amount x) /\
       sc_text other !! k = Some (s_Item_Name x) /\
       sc_marker_color other !! k = Some (Avg_Price x)) /\
    (forall k x, (t <= k)%nat -> rows !! S k = Some x ->
       sc_x other !! k = Some (Total_Count x) /\
       sc_y other !! k = Some (Total_Amount x) /\
       exists y, rows' !! k = Some y /\
         s_Item_Name y <> s_Item_Name x /\
         sc_text other !! k = Some (s_Item_Name y) /\
         sc_marker_color other !! k = Some (Avg_Price y)).
Proof.
  intros Hdf Hnd Ht Hname.
  pose proof (what_if_run_insert s df rows item c p t r Hdf Hnd Ht Hname) as Hrun.
  cbv zeta in Hrun.
  set (target := {| s_Item_Name := item;
                    Total_Amount :=
                      (Total_Count r * (of_int 1 + c / of_int 100) *
                       (Avg_Price r * (of_int 1 + p / of_int 100)))%F;
                    Total_Count := (Total_Count r * (of_int 1 + c / of_int 100))%F;
                    Avg_Price := (Avg_Price r * (of_int 1 + p / of_int 100))%F |})
    in Hrun.
  pose proof (lookup_lt_Some _ _ _ Ht) as Hlt.
  eexists _, _, (<[t := target]> rows), _. split; [exact Hrun|].
  cbn [frames]. split; [by rewrite lookup_insert_eq|].
  unfold what_if_figure. cbn [fig_data]. split; [reflexivity|].
  cbn [sc_x sc_y sc_text sc_marker_color].
  destruct (filter_item_insert item rows t r target Hnd Ht Hname eq_refl) as [_ ->].
  rewrite !length_fmap, length_insert, length_delete by done.
  split; [lia|]. split; [done|]. split; [done|]. split.
  - intros k x Hk Hx. rewrite !list_lookup_fmap.
    rewrite list_lookup_delete_lt, list_lookup_insert_ne, Hx by lia. done.
  - intros k x Hk Hx. rewrite !list_lookup_fmap.
    rewrite list_lookup_delete_ge, Hx by lia. split; [done|]. split; [done|].
    pose proof (lookup_lt_Some _ _ _ Hx) as Hlt'.
    destruct (decide (k = t)) as [->|Hkt].
    + exists target. rewrite list_lookup_insert_eq by done.
      split; [done|]. split; [|done]. cbn [s_Item_Name target]. rewrite <- Hname.
      intros Heq. symmetry in Heq. revert Heq.
      eapply names_apart; [done..|lia].
    + destruct (lookup_lt_is_Some_2 rows k ltac:(lia)) as [y Hy].
      exists y. rewrite list_lookup_insert_ne, Hy by done.
      split; [done|]. split; [|done].
      intros Heq. symmetry in Heq. revert Heq.
      eapply names_apart; [done..|lia].
Qed.

(** The theorem at the item summary of the small dataset, "Spring Rolls"
    being the item: the point of "Thai Tea", the row after it, is labelled
    with another name. *)
Lemma what_if_other_items_labels_shifted_witness :
  exists fig s' other label,
    make_plot3_what_if_quadrant 1%positive "Spring Rolls" (of_int 0) (of_int 0)
      (sample_summary_state (F:=b64)) = Some (fig, s') /\
    fig_data fig !! 0%nat = Some other /\
    length (sc_x other) = 2%nat /\
    length (sc_text other) = 3%nat /\
    sc_x other !! 1%nat = Total_Count <$> get_item_summary sample_sales !! 2%nat /\
    s_Item_Name <$> get_item_summary (sample_sales (F:=b64)) !! 2%nat = Some "Thai Tea" /\
    sc_text other !! 1%nat = Some label /\
    label <> "Thai Tea".
Proof.
  set (rows := get_item_summary (sample_sales (F:=b64))).
  destruct (rows !! 1%nat) as [r|] eqn:Hr; [|vm_compute in Hr; discriminate Hr].
  destruct (rows !! 2%nat) as [x|] eqn:Hx; [|vm_compute in Hx; discriminate Hx].
  assert (Hrn : s_Item_Name <$> rows !! 1%nat = Some "Spring Rolls")
    by (vm_compute; reflexivity).
  assert (Hxn : s_Item_Name <$> rows !! 2%nat = Some "Thai Tea")
    by (vm_compute; reflexivity).
  assert (Hlen : length rows = 3%nat) by (vm_compute; reflexivity).
  rewrite Hr in Hrn. injection Hrn as Hrn. rewrite Hx in Hxn. injection Hxn as Hxn.
  destruct (what_if_other_items_labels_shifted sample_summary_state 1%positive rows
              "Spring Rolls" (of_int 0) (of_int 0) 1%nat r)
    as (fig & s' & rows' & other & Hrun & _ & Hother & Hlx & Hlt & _ & _ & Hafter).
  - reflexivity.
  - apply NoDup_get_item_summary.
  - exact Hr.
  - exact Hrn.
  - destruct (Hafter 1%nat x (le_n 1) Hx) as (Hsx & _ & y & _ & Hne & Hty & _).
    exists fig, s', other, (s_Item_Name y).
    split; [exact Hrun|]. split; [exact Hother|]. split; [lia|]. split; [lia|].
    split; [exact Hsx|]. split; [simpl; by rewrite Hxn|].
    split; [exact Hty|by rewrite <- Hxn].
Defined.

(** The labels of the two traces at the sample table: the one point of
    "Other Items" is "Thai Tea", and the first of the labels is "Beef
    Ramen". *)
Lemma what_if_sample_labels :
  (fun fs => (fun t => (sc_name t, length (sc_x t), sc_text t)) <$> fig_data fs.1)
  <$> make_plot3_what_if_quadrant 1%positive "Beef Ramen" (of_int 50) (of_int (-10))
        (sample_state (F:=b64))
  = Some [("Other Items", 1%nat, ["Beef Ramen"; "Thai Tea"]);
          ("WHAT-IF: Beef Ramen", 1%nat, ["Beef Ramen"])].
Proof. vm_compute. reflexivity. Qed.

(** X8.  Two simulations on the same summary table do not see each other:
    the figure of a simulation that runs after another one is the figure
    it gives when it runs first. *)
Theorem what_if_calls_independent {F : Type} `{Float F} (s : state F) (df : ref)
    (rows : list (summary_row F)) (item1 item2 : string) (c1 p1 c2 p2 : F) :
  frames s !! df = Some rows ->
  exists fig1 s1 fig2 s2 s2',
    make_plot3_what_if_quadrant df item1 c1 p1 s = Some (fig1, s1) /\
    make_plot3_what_if_quadrant df item2 c2 p2 s1 = Some (fig2, s2) /\
    make_plot3_what_if_quadrant df item2 c2 p2 s = Some (fig2, s2') /\
    frames s2 !! df = Some rows.
Proof.
  intros Hdf.
  destruct (what_if_frames s df rows item1 c1 p1 Hdf) as (fig1 & rows1 & errs1 & Hrun1).
  pose proof (fresh_frame s) as Hfresh.
  set (s1 := {| frames := <[fresh (dom (frames s)) := rows1]> (frames s);
                st_errors := errs1 |}) in *.
  assert (Hdf1 : frames s1 !! df = Some rows).
  { cbn [frames s1]. rewrite lookup_insert_ne; [done|].
    intros Heq. rewrite Heq in Hfresh. congruence. }
  pose proof (fresh_frame s1) as Hfresh1.
  exists fig1, s1.
  destruct (head (filter (fun r => s_Item_Name r = item2) rows)) as [item_row|] eqn:Hh.
  - eexists _, _, _. split; [exact Hrun1|].
    split; [by apply what_if_found|]. split; [by apply what_if_found|].
    cbn [frames]. rewrite lookup_insert_ne; [done|].
    intros Heq. rewrite Heq in Hfresh1. congruence.
  - eexists _, _, _. split; [exact Hrun1|].
    split; [by apply what_if_not_found|]. split; [by apply what_if_not_found|].
    cbn [frames]. rewrite lookup_insert_ne; [done|].
    intros Heq. rewrite Heq in Hfresh1. congruence.
Qed.

(** The theorem of X8 at the sample table, in binary64. *)
Lemma what_if_calls_independent_witness :
  exists fig1 s1 fig2 s2 s2',
    make_plot3_what_if_quadrant 1%positive "Beef Ramen" (of_int 50) (of_int (-10))
      (sample_state (F:=b64)) = Some (fig1, s1) /\
    make_plot3_what_if_quadrant 1%positive "Thai Tea" (of_int 0) (of_int 100) s1
      = Some (fig2, s2) /\
    make_plot3_what_if_quadrant 1%positive "Thai Tea" (of_int 0) (of_int 100)
      (sample_state (F:=b64)) = Some (fig2, s2') /\
    frames s2 !! 1%positive = Some sample_summary.
Proof.
  apply (what_if_calls_independent sample_state 1%positive sample_summary).
  reflexivity.
Defined.

(** ** The item selector of the dashboard *)

Lemma unique_from_NoDup (seen l : list string) :
  NoDup l -> (forall x, x ∈ l -> x ∉ seen) -> unique_from seen l = l.
Proof.
  intros Hnd. revert seen. induction Hnd as [|x l Hx Hnd IH]; intros seen Hs; [done|].
  simpl. rewrite bool_decide_eq_false_2 by (apply Hs; by left).
  f_equal. apply IH. intros y Hy. apply not_elem_of_cons. split.
  - by intros ->.
  - apply Hs. by right.
Qed.

Lemma unique_NoDup (l : list string) : NoDup l -> unique l = l.
Proof. intros Hnd. apply unique_from_NoDup; [done|]. intros x _. apply not_elem_of_nil. Qed.

Lemma list_index_Some (x : string) (l : list string) (i : nat) :
  list_index x l = Some i -> l !! i = Some x.
Proof.
  revert i. induction l as [|y l IH]; intros i; simpl; [done|].
  destruct (String.eqb y x) eqn:Hyx.
  - apply String.eqb_eq in Hyx as ->. by intros [= <-].
  - destruct (list_index x l) as [j|]; [|done]. intros [= <-]. by apply IH.
Qed.

Lemma list_index_None (x : string) (l : list string) :
  list_index x l = None -> x ∉ l.
Proof.
  induction l as [|y l IH]; simpl; [intros _; apply not_elem_of_nil|].
  destruct (String.eqb y x) eqn:Hyx; [done|].
  apply String.eqb_neq in Hyx.
  destruct (list_index x l) as [j|]; [done|]. intros _.
  apply not_elem_of_cons. split; [done|by apply IH].
Qed.

(** The preselected option exists; it is "Beef Ramen" when this is an
    option, and the first option when not. *)
Lemma default_index_lookup (item_list : list string) :
  item_list <> [] ->
  exists item, item_list !! default_index item_list = Some item /\
    (("Beef Ramen" ∈ item_list) /\ item = "Beef Ramen" \/
     ("Beef Ramen" ∉ item_list) /\ head item_list = Some item).
Proof.
  intros Hne. unfold default_index.
  destruct (list_index "Beef Ramen" item_list) as [i|] eqn:Hi.
  - apply list_index_Some in Hi. exists "Beef Ramen". split; [done|]. left.
    split; [|done]. by eapply list_elem_of_lookup_2.
  - apply list_index_None in Hi. destruct item_list as [|x l]; [done|].
    exists x. split; [done|]. by right.
Qed.

(** X9.  The planner of the dashboard always simulates an item of the
    dataset: the item the user has picked or, as long as none was picked,
    "Beef Ramen" if the dataset has it and the first item by name if not.
    So, for a dataset that is not empty, the simulation it runs finds its
    item: no error message is shown and the figure has its two traces. *)
Theorem main_what_if_finds_item {F : Type} `{Float F} (df : list (sale F))
    (s : state F) (summary : ref) (pick : option nat) (c p : Z) :
  frames s !! summary = Some (get_item_summary df) ->
  df <> [] ->
  (forall i, pick = Some i -> (i < length (get_item_summary df))%nat) ->
  exists item fig s',
    main_what_if summary pick c p s = Some (fig, s') /\
    make_plot3_what_if_quadrant summary item (of_int c) (of_int p) s = Some (fig, s') /\
    item ∈ Item_Name <$> df /\
    (forall i, pick = Some i ->
       (s_Item_Name <$> get_item_summary df) !! i = Some item) /\
    (pick = None ->
       ("Beef Ramen" ∈ Item_Name <$> df) /\ item = "Beef Ramen" \/
       ("Beef Ramen" ∉ Item_Name <$> df) /\
       head (s_Item_Name <$> get_item_summary df) = Some item) /\
    st_errors s' = st_errors s /\
    exists other what_if,
      fig_data fig = [other; what_if] /\ sc_text what_if = [item].
Proof.
  intros Hdf Hne Hpick.
  set (rows := get_item_summary df) in *.
  set (names := s_Item_Name <$> rows).
  assert (Hnd : NoDup names) by apply NoDup_get_item_summary.
  assert (Hnames : forall k, k ∈ names <-> k ∈ Item_Name <$> df).
  { intros k. unfold names, rows. rewrite get_item_summary_names.
    apply elem_of_group_keys. }
  assert (Hne' : names <> []).
  { destruct df as [|x df]; [done|]. intros Hnil.
    assert (Hx : Item_Name x ∈ names) by (apply Hnames; by left).
    rewrite Hnil in Hx. by apply elem_of_nil in Hx. }
  assert (Hsel : exists item,
            selectbox names (default_index names) pick = Some item /\
            (forall i, pick = Some i -> names !! i = Some item) /\
            (pick = None ->
               ("Beef Ramen" ∈ names) /\ item = "Beef Ramen" \/
               ("Beef Ramen" ∉ names) /\ head names = Some item)).
  { unfold selectbox. destruct pick as [i|]; simpl.
    - destruct (lookup_lt_is_Some_2 names i) as [item Hi].
      { unfold names. rewrite length_fmap. by apply Hpick. }
      exists item. split; [done|]. split; [by intros ? [= <-]|done].
    - destruct (default_index_lookup names Hne') as (item & Hi & Hcase).
      exists item. split; [done|]. split; [done|]. by intros _. }
  destruct Hsel as (item & Hsel & Hpicked & Hdefault).
  assert (Hin : item ∈ names).
  { unfold selectbox in Hsel. by eapply list_elem_of_lookup_2. }
  apply list_elem_of_lookup in Hin as [t Ht].
  unfold names in Ht. rewrite list_lookup_fmap in Ht.
  destruct (rows !! t) as [r|] eqn:Hr; [|done]. injection Ht as Hname.
  pose proof (what_if_run_insert s summary rows item (of_int c) (of_int p) t r
                Hdf Hnd Hr Hname) as Hrun.
  cbv zeta in Hrun.
  eexists item, _, _. split; [|split; [exact Hrun|]].
  - unfold main_what_if, bind, df_rows. rewrite Hdf. fold rows. fold names.
    rewrite (unique_NoDup names Hnd), Hsel. exact Hrun.
  - split. { apply Hnames. rewrite <- Hname. apply list_elem_of_fmap.
             exists r. split; [done|]. by eapply list_elem_of_lookup_2. }
    split; [exact Hpicked|]. split.
    { intros Hp. destruct (Hdefault Hp) as [[Hb ->]|[Hb Hh]].
      - left. split; [by apply Hnames|done].
      - right. split; [by rewrite <- Hnames|done]. }
    split; [done|].
    unfold what_if_figure. cbn [fig_data]. eexists _, _. split; [reflexivity|].
    cbn [sc_text].
    by destruct (filter_item_insert item rows t r
                   {| s_Item_Name := item;
                      Total_Amount :=
                        (Total_Count r * (of_int 1 + of_int c / of_int 100) *
                         (Avg_Price r * (of_int 1 + of_int p / of_int 100)))%F;
                      Total_Count :=
                        (Total_Count r * (of_int 1 + of_int c / of_int 100))%F;
                      Avg_Price :=
                        (Avg_Price r * (of_int 1 + of_int p / of_int 100))%F |}
                   Hnd Hr Hname eq_refl) as [-> _].
Qed.

(** The theorem of X9 at the item summary of the small dataset, with no
    item picked and both sliders at 0: the item is "Beef Ramen". *)
Lemma main_what_if_finds_item_witness :
  exists fig s',
    main_what_if 1%positive None 0 0 (sample_summary_state (F:=b64)) = Some (fig, s') /\
    make_plot3_what_if_quadrant 1%positive "Beef Ramen" (of_int 0) (of_int 0)
      (sample_summary_state (F:=b64)) = Some (fig, s') /\
    st_errors s' = [] /\
    exists other what_if,
      fig_data fig = [other; what_if] /\ sc_text what_if = ["Beef Ramen"].
Proof.
  destruct (main_what_if_finds_item sample_sales sample_summary_state 1%positive None 0 0)
    as (item & fig & s' & Hrun & Hplot & _ & _ & Hdefault & Herr & Hfig).
  - reflexivity.
  - discriminate.
  - intros i Hi. discriminate Hi.
  - destruct (Hdefault eq_refl) as [[_ ->]|[Hno _]].
    + by exists fig, s'.
    + exfalso. apply Hno. apply (bool_decide_unpack _). vm_compute. reflexivity.
Defined.

(** ** More on the Growth Analyzer *)

Lemma series_get_keyed {V} (absent : V) (f : string -> V) (k : string)
    (ks : list string) :
  series_get absent k ((fun k' => (k', f k')) <$> ks) =
  if bool_decide (k ∈ ks) then f k else absent.
Proof.
  unfold series_get. induction ks as [|k' ks IH]; [done|].
  rewrite fmap_cons. cbn [List.find fst].
  destruct (String.eqb k' k) eqn:Hk.
  - apply String.eqb_eq in Hk as ->. rewrite bool_decide_eq_true_2; [done|by left].
  - apply String.eqb_neq in Hk. rewrite IH.
    rewrite (bool_decide_ext (k ∈ k' :: ks) (k ∈ ks)); [done|].
    rewrite elem_of_cons. split; [intros [->|?]; done|by right].
Qed.

Lemma groupby_sum_keyed {F} `{Float F} {A} (key : A -> string) (val : A -> F)
    (df : list A) :
  groupby_sum key val df =
  (fun k => (k, nansum (val <$> filter (fun r => key r = k) df)))
  <$> group_keys (key <$> df).
Proof. unfold groupby_sum, groupby. by rewrite <- list_fmap_compose. Qed.

Lemma groupby_sum_keys {F} `{Float F} {A} (key : A -> string) (val : A -> F)
    (df : list A) :
  (groupby_sum key val df).*1 = group_keys (key <$> df).
Proof.
  rewrite groupby_sum_keyed, <- list_fmap_compose. apply list_fmap_id.
Qed.

(** The entry of a key in the totals of a [groupby], with 0 for a key
    that has no group. *)
Lemma series_get_groupby_sum {F} `{Float F} {A} (key : A -> string) (val : A -> F)
    (df : list A) (k : string) :
  is_nan (nan (F:=F)) = true ->
  fillna (of_int 0) (series_get nan k (groupby_sum key val df)) =
  fillna (of_int 0) (nansum (val <$> filter (fun r => key r = k) df)).
Proof.
  intros Hnan. rewrite groupby_sum_keyed, (series_get_keyed nan _ k).
  destruct (bool_decide_reflect (k ∈ group_keys (key <$> df))) as [Hk|Hk]; [done|].
  rewrite filter_none.
  - unfold fillna, nansum. rewrite fmap_nil, filter_nil. cbn [fold_left].
    rewrite Hnan. by destruct (is_nan (of_int 0)).
  - intros r Hr Hkey. apply Hk, elem_of_group_keys, list_elem_of_fmap. by exists r.
Qed.

Lemma isin_month_order (m : option string) :
  isin month_order m <->
  isin ["May"; "June"; "July"] m \/ isin ["August"; "September"; "October"] m.
Proof.
  destruct m as [m|]; simpl; [|tauto]. unfold month_order.
  rewrite !elem_of_cons, !elem_of_nil. tauto.
Qed.

(** The two halves of a row of the growth table. *)
Lemma growth_table_row_halves {F} `{Float F} (df : list (sale F)) (r : growth_row F) :
  is_nan (nan (F:=F)) = true ->
  r ∈ growth_table df ->
  First_Half r =
    fillna (of_int 0)
      (nansum (Amount <$>
               filter (fun x => Item_Name x = g_Item_Name r /\
                                isin ["May"; "June"; "July"] (Month x)) df)) /\
  Second_Half r =
    fillna (of_int 0)
      (nansum (Amount <$>
               filter (fun x => Item_Name x = g_Item_Name r /\
                                isin ["August"; "September"; "October"] (Month x))
                 df)).
Proof.
  intros Hnan Hr. unfold growth_table in Hr.
  apply list_elem_of_fmap in Hr as (k & -> & _).
  cbn [First_Half Second_Half g_Item_Name].
  rewrite !series_get_groupby_sum, !list_filter_filter by done. done.
Qed.

(** X10.  The growth table has one row for every item that has a sale in
    one of the six months, by name; its two halves are the revenues of the
    item in May to July and in August to October, 0 for a half without a
    sale.  A sale whose month is not one of the six names counts in neither
    half, and an item that has only such sales has no row.  For every
    number type whose [nan] is recognised by [is_nan]. *)
Theorem growth_table_halves {F : Type} `{Float F} (df : list (sale F)) :
  is_nan (nan (F:=F)) = true ->
  g_Item_Name <$> growth_table df =
    group_keys (Item_Name <$> filter (fun x => isin month_order (Month x)) df) /\
  forall r : growth_row F, r ∈ growth_table df ->
    First_Half r =
      fillna (of_int 0)
        (nansum (Amount <$>
                 filter (fun x => Item_Name x = g_Item_Name r /\
                                  isin ["May"; "June"; "July"] (Month x)) df)) /\
    Second_Half r =
      fillna (of_int 0)
        (nansum (Amount <$>
                 filter (fun x => Item_Name x = g_Item_Name r /\
                                  isin ["August"; "September"; "October"] (Month x))
                   df)).
Proof.
  intros Hnan. split; [|intros r; by apply growth_table_row_halves].
  unfold growth_table. rewrite <- list_fmap_compose.
  rewrite (list_fmap_ext _ id) by done. rewrite list_fmap_id.
  apply group_keys_ext. intros k.
  rewrite elem_of_app, !groupby_sum_keys, !elem_of_group_keys, !list_elem_of_fmap.
  setoid_rewrite list_elem_of_filter. setoid_rewrite isin_month_order.
  split.
  - intros [(x & -> & Hx & Hin)|(x & -> & Hx & Hin)]; exists x; tauto.
  - intros (x & -> & [Hx|Hx] & Hin); [left|right]; by exists x.
Qed.

(** The theorem of X10 at the dataset with a sale in April, in binary64. *)
Lemma growth_table_halves_witness :
  g_Item_Name <$> growth_table (off_season_sales (F:=b64)) =
    group_keys (Item_Name <$> filter (fun x => isin month_order (Month x))
                                (off_season_sales (F:=b64))) /\
  forall r : growth_row b64, r ∈ growth_table off_season_sales ->
    First_Half r =
      fillna (of_int 0)
        (nansum (Amount <$>
                 filter (fun x => Item_Name x = g_Item_Name r /\
                                  isin ["May"; "June"; "July"] (Month x))
                   off_season_sales)) /\
    Second_Half r =
      fillna (of_int 0)
        (nansum (Amount <$>
                 filter (fun x => Item_Name x = g_Item_Name r /\
                                  isin ["August"; "September"; "October"] (Month x))
                   off_season_sales)).
Proof. apply (growth_table_halves (off_season_sales (F:=b64))). reflexivity. Defined.

Lemma nlargest_all_notna {F} `{Float F} {A} (n : nat) (col : A -> F) (df : list A) :
  (forall r, r ∈ df -> notna (col r)) ->
  nlargest n col df = take n (sort_by (fun y x => (col x <? col y)%F) df).
Proof. intros Hna. unfold nlargest. by rewrite filter_all. Qed.

Lemma nsmallest_all_notna {F} `{Float F} {A} (n : nat) (col : A -> F) (df : list A) :
  (forall r, r ∈ df -> notna (col r)) ->
  nsmallest n col df = take n (sort_by (fun y x => (col y <? col x)%F) df).
Proof. intros Hna. unfold nsmallest. by rewrite filter_all. Qed.

Lemma growth_kept_row {F} `{Float F} (df : list (sale F)) (r : growth_row F) :
  r ∈ growth_kept df -> (Total_Sales r >? of_int 500)%F = true /\ row_notna r.
Proof.
  unfold growth_kept. rewrite !list_elem_of_filter. by intros (Hna & Hvol & _).
Qed.

Lemma growth_table_names {F} `{Float F} (df : list (sale F)) :
  NoDup (g_Item_Name <$> growth_table df).
Proof.
  unfold growth_table. rewrite <- !list_fmap_compose.
  rewrite (list_fmap_ext _ id) by done. rewrite list_fmap_id.
  apply NoDup_group_keys.
Qed.

Lemma growth_kept_names {F} `{Float F} (df : list (sale F)) :
  NoDup (g_Item_Name <$> growth_kept df).
Proof.
  assert (Hsub : g_Item_Name <$> growth_kept df `sublist_of`
                 g_Item_Name <$> growth_table df).
  { unfold growth_kept.
    etrans; [apply fmap_sublist, sublist_filter|].
    etrans; [apply fmap_sublist, sublist_filter|].
    by rewrite <- !list_fmap_compose. }
  eapply sublist_NoDup; [apply growth_table_names|exact Hsub].
Qed.

(** The first rows of a sorted table keep its distinct names and, when the
    table is long enough, their number. *)
Lemma take_sort_by_names {A} (name : A -> string) (before : A -> A -> bool) (n : nat)
    (l : list A) :
  NoDup (name <$> l) ->
  length (take n (sort_by before l)) = min n (length l) /\
  NoDup (name <$> take n (sort_by before l)) /\
  forall r, r ∈ take n (sort_by before l) -> r ∈ l.
Proof.
  intros Hnd. split; [|split].
  - by rewrite length_take, (Permutation_length (sort_by_Permutation before l)).
  - eapply sublist_NoDup; [|apply fmap_sublist, sublist_take].
    by rewrite sort_by_Permutation.
  - intros r Hr. rewrite <- (sort_by_Permutation before l).
    eapply elem_of_sublist; [exact Hr|apply sublist_take].
Qed.

(** X11.  Each of the two lists of the Growth Analyzer holds 10 rows, or
    all the rows that passed the filters if these are fewer than 10; no
    item is twice in a list; and every row of the lists has passed the
    filters: its combined revenue is above 500 and none of its values is
    missing. *)
Theorem movers_and_shakers_lists {F : Type} `{Float F} (df : list (sale F)) :
  let kept := growth_kept df in
  let rising_stars := (make_plot6_movers_and_shakers df).1 in
  let fading_items := (make_plot6_movers_and_shakers df).2 in
  length rising_stars = min 10 (length kept) /\
  length fading_items = min 10 (length kept) /\
  NoDup (g_Item_Name <$> rising_stars) /\
  NoDup (g_Item_Name <$> fading_items) /\
  forall r : growth_row F, r ∈ rising_stars \/ r ∈ fading_items ->
    r ∈ kept /\ (Total_Sales r >? of_int 500)%F = true /\ row_notna r.
Proof.
  cbv zeta. unfold make_plot6_movers_and_shakers. cbn [fst snd].
  assert (Hna : forall r, r ∈ growth_kept df -> notna (Growth_Pct r)).
  { intros r Hr. by destruct (growth_kept_row df r Hr) as (_ & _ & _ & Hg & _). }
  rewrite (nlargest_all_notna 10 Growth_Pct _ Hna),
    (nsmallest_all_notna 10 Growth_Pct _ Hna).
  pose proof (growth_kept_names df) as Hnd.
  destruct (take_sort_by_names g_Item_Name
              (fun y x => (Growth_Pct x <? Growth_Pct y)%F) 10 _ Hnd) as (Hl1 & Hn1 & Hs1).
  destruct (take_sort_by_names g_Item_Name
              (fun y x => (Growth_Pct y <? Growth_Pct x)%F) 10 _ Hnd) as (Hl2 & Hn2 & Hs2).
  split; [done|]. split; [done|]. split; [done|]. split; [done|].
  intros r Hr. assert (Hk : r ∈ growth_kept df) by (destruct Hr; auto).
  split; [done|]. by apply (growth_kept_row df).
Qed.

Section TopRows.
Context {A : Type} (rank : A -> Qc).

Local Abbreviation by_rank := (fun y x : A => Qc_ltb (rank y) (rank x)).
Local Abbreviation rank_le := (fun x y : A => (rank x <= rank y)%Qc).

#[local] Instance rank_le_refl : Reflexive rank_le.
Proof. intros x. apply Qcle_refl. Qed.

(** The first [n] rows of a ranking are in the order of the ranks. *)
Lemma take_sorted_lookup_le (s : list A) (n i j : nat) (x y : A) :
  StronglySorted rank_le s -> (i <= j)%nat ->
  take n s !! i = Some x -> take n s !! j = Some y -> (rank x <= rank y)%Qc.
Proof.
  intros Hs Hij Hi Hj.
  apply lookup_take_Some in Hi as [Hi _]. apply lookup_take_Some in Hj as [Hj _].
  by eapply (StronglySorted_lookup_le rank_le s i j).
Qed.

(** A row beyond the first [n] rows does not outrank any of them. *)
Lemma take_sorted_outranks (s : list A) (n : nat) (x r : A) :
  StronglySorted rank_le s -> x ∈ take n s -> r ∈ s -> r ∉ take n s ->
  (rank x <= rank r)%Qc.
Proof.
  intros Hs Hx Hr Hnr.
  apply list_elem_of_lookup in Hx as [i Hi]. apply lookup_take_Some in Hi as [Hi Hin].
  apply list_elem_of_lookup in Hr as [j Hj].
  destruct (decide (j < n)%nat) as [Hjn|Hjn].
  - destruct Hnr. apply list_elem_of_lookup. exists j. by rewrite lookup_take_lt.
  - eapply (StronglySorted_lookup_le rank_le s i j); [done|lia|done..].
Qed.
End TopRows.

(** X12.  The rising list comes by decreasing growth and the fading list by
    increasing growth, and a row that passed the filters and is left out of
    a list is not ahead of any row of that list: the rising list holds the
    largest growth values, the fading list the smallest (in exact
    arithmetic). *)
Theorem movers_and_shakers_ranked (df : list (sale xq)) :
  let kept := growth_kept df in
  let rising_stars := (make_plot6_movers_and_shakers df).1 in
  let fading_items := (make_plot6_movers_and_shakers df).2 in
  (forall (i j : nat) (x y : growth_row xq),
     (i <= j)%nat -> rising_stars !! i = Some x -> rising_stars !! j = Some y ->
     (Growth_Pct y <=? Growth_Pct x)%F = true) /\
  (forall x r : growth_row xq,
     x ∈ rising_stars -> r ∈ kept -> r ∉ rising_stars ->
     (Growth_Pct r <=? Growth_Pct x)%F = true) /\
  (forall (i j : nat) (x y : growth_row xq),
     (i <= j)%nat -> fading_items !! i = Some x -> fading_items !! j = Some y ->
     (Growth_Pct x <=? Growth_Pct y)%F = true) /\
  (forall x r : growth_row xq,
     x ∈ fading_items -> r ∈ kept -> r ∉ fading_items ->
     (Growth_Pct x <=? Growth_Pct r)%F = true).
Proof.
  cbv zeta. unfold make_plot6_movers_and_shakers. cbn [fst snd].
  assert (Hfin : Forall (fun x => finite (Growth_Pct x)) (growth_kept df)).
  { apply Forall_forall. intros x. apply growth_kept_finite. }
  rewrite nlargest_growth, nsmallest_growth by done.
  set (up := fun r : growth_row xq => xq_val (Growth_Pct r)).
  set (down := fun r : growth_row xq => (- xq_val (Growth_Pct r))%Qc).
  pose proof (sort_by_rank_sorted down (growth_kept df)) as Hdown.
  pose proof (sort_by_rank_sorted up (growth_kept df)) as Hup.
  assert (Hle : forall x y : growth_row xq,
            x ∈ growth_kept df -> y ∈ growth_kept df ->
            (up x <= up y)%Qc -> (Growth_Pct x <=? Growth_Pct y)%F = true).
  { intros x y Hx Hy. rewrite Forall_forall in Hfin.
    destruct (Hfin x Hx) as [p Hp], (Hfin y Hy) as [q Hq]. unfold up.
    rewrite Hp, Hq. simpl. by rewrite Qc_leb_le. }
  assert (Hin : forall before n (x : growth_row xq),
            x ∈ take n (sort_by before (growth_kept df)) -> x ∈ growth_kept df).
  { intros before n x Hx. rewrite <- (sort_by_Permutation before).
    eapply elem_of_sublist; [exact Hx|apply sublist_take]. }
  split; [|split; [|split]].
  - intros i j x y Hij Hi Hj. apply Hle.
    + eapply Hin, list_elem_of_lookup_2, Hj.
    + eapply Hin, list_elem_of_lookup_2, Hi.
    + apply Qcle_opp. by eapply (take_sorted_lookup_le down _ 10 i j).
  - intros x r Hx Hr Hnr. apply Hle; [done|by eapply Hin|].
    apply Qcle_opp. eapply (take_sorted_outranks down _ 10); [done..| |done].
    by rewrite sort_by_Permutation.
  - intros i j x y Hij Hi Hj. apply Hle.
    + eapply Hin, list_elem_of_lookup_2, Hi.
    + eapply Hin, list_elem_of_lookup_2, Hj.
    + by eapply (take_sorted_lookup_le up _ 10 i j).
  - intros x r Hx Hr Hnr. apply Hle; [by eapply Hin|done|].
    eapply (take_sorted_outranks up _ 10); [done..| |done].
    by rewrite sort_by_Permutation.
Qed.

(** The revenue of a group of rows without missing and infinite amounts. *)
Lemma nansum_filter_nonneg (df : list (sale xq)) (P : sale xq -> Prop)
    `{!forall x, Decision (P x)} :
  Forall (fun x => nonneg (Amount x)) df ->
  exists q : Qc, nansum (Amount <$> filter P df) = XFin q /\ (0 <= q)%Qc.
Proof.
  intros Hdf.
  assert (Hnn : Forall nonneg (Amount <$> filter P df)).
  { rewrite Forall_fmap. apply Forall_forall. intros x Hx.
    apply list_elem_of_filter in Hx as [_ Hx].
    rewrite Forall_forall in Hdf. by apply Hdf. }
  rewrite nansum_finite by (eapply Forall_impl; [exact Hnn|apply nonneg_finite]).
  eexists. split; [done|]. apply qsum_nonneg.
  rewrite Forall_fmap. eapply Forall_impl; [exact Hnn|].
  by intros x (q & -> & Hq).
Qed.

Lemma Qc_growth_sign (f s : Qc) :
  (0 <= f)%Qc -> (0 <= s)%Qc ->
  let g := (Qc_of_Z 100 * (s - f) / (f + Q2Qc (1 # 1000000)))%Qc in
  ((0 < g)%Qc <-> (f < s)%Qc) /\ ((g < 0)%Qc <-> (s < f)%Qc) /\
  (Qc_of_Z (-100) < g)%Qc.
Proof.
  intros Hf Hs. cbv zeta. unfold Qc_of_Z. Qc_unfold.
  revert Hf Hs. Qc_unfold. intros Hf Hs.
  set (d := (f + (1 # 1000000))%Q).
  assert (Hd : (0 < d)%Q) by (unfold d; lra).
  assert (Hi : (0 < / d)%Q) by (by apply Qinv_lt_0_compat).
  assert (Hone : (d * / d == 1)%Q) by (apply Qmult_inv_r; lra).
  set (i := (/ d)%Q) in *.
  change (inject_Z 100) with (100 # 1)%Q. change (inject_Z (-100)) with (-100 # 1)%Q.
  change 0%Qc with (Q2Qc 0). cbn [this Q2Qc]. rewrite ?Qred_correct.
  assert (Heq : ((100 # 1) * (s - f) * i == (100 # 1) * ((s - f) * i))%Q) by ring.
  rewrite Heq.
  assert (Hpos : forall n : Q, (0 < n -> 0 < n * i)%Q).
  { intros n Hn. by apply Qmult_lt_0_compat. }
  assert (Hsf : ((s - f) * i == (s + (1 # 1000000)) * i - 1)%Q).
  { transitivity ((s + (1 # 1000000)) * i - d * i)%Q; [unfold d; ring|].
    rewrite Hone. ring. }
  split; [|split].
  - split; intros Hg.
    + destruct (Qlt_le_dec f s) as [|Hle]; [done|]. exfalso.
      destruct (Qle_lt_or_eq _ _ Hle) as [Hlt|Heq'].
      * pose proof (Hpos (f - s)%Q ltac:(lra)) as Hn.
        assert (((f - s) * i == - ((s - f) * i))%Q) by ring. lra.
      * assert (((s - f) * i == 0)%Q) by (rewrite Heq'; ring). lra.
    + pose proof (Hpos (s - f)%Q ltac:(lra)). lra.
  - split; intros Hg.
    + destruct (Qlt_le_dec s f) as [|Hle]; [done|]. exfalso.
      destruct (Qle_lt_or_eq _ _ Hle) as [Hlt|Heq'].
      * pose proof (Hpos (s - f)%Q ltac:(lra)) as Hn. lra.
      * assert (((s - f) * i == 0)%Q) by (rewrite Heq'; ring). lra.
    + pose proof (Hpos (f - s)%Q ltac:(lra)) as Hn.
      assert (((f - s) * i == - ((s - f) * i))%Q) by ring. lra.
  - pose proof (Hpos (s + (1 # 1000000))%Q ltac:(lra)) as Hn. lra.
Qed.

(** X13.  For a dataset without negative amounts, the growth of an item
    has the sign of the change of its revenue from the first half of the
    season to the second: it is positive exactly when the revenue went up
    and negative exactly when it went down; and it is above -100 (in exact
    arithmetic). *)
Theorem growth_pct_sign (df : list (sale xq)) (r : growth_row xq) :
  Forall (fun x => nonneg (Amount x)) df ->
  r ∈ growth_table df ->
  exists f s g : Qc,
    First_Half r = XFin f /\ Second_Half r = XFin s /\ Growth_Pct r = XFin g /\
    (0 <= f)%Qc /\ (0 <= s)%Qc /\
    ((0 < g)%Qc <-> (f < s)%Qc) /\
    ((g < 0)%Qc <-> (s < f)%Qc) /\
    (Qc_of_Z (-100) < g)%Qc.
Proof.
  intros Hdf Hr.
  assert (Hnan : is_nan (nan (F:=xq)) = true) by reflexivity.
  destruct (growth_table_row_halves df r Hnan Hr) as [Hf Hs].
  destruct (nansum_filter_nonneg df
              (fun x => Item_Name x = g_Item_Name r /\
                        isin ["May"; "June"; "July"] (Month x)) Hdf) as (f & Hf' & Hf0).
  destruct (nansum_filter_nonneg df
              (fun x => Item_Name x = g_Item_Name r /\
                        isin ["August"; "September"; "October"] (Month x)) Hdf)
    as (s & Hs' & Hs0).
  rewrite Hf' in Hf. rewrite Hs' in Hs. cbn in Hf, Hs.
  destruct (growth_table_row df r Hr) as [Hg _].
  rewrite Hf, Hs in Hg.
  assert (Hd : (0 < f + Q2Qc (1 # 1000000))%Qc).
  { by apply Qcplus_pos_nonneg. }
  cbn [fadd fsub fmul fdiv of_int lit_1e_6 xq_float xq_add xq_sub xq_mul xq_div] in Hg.
  rewrite (Qc_is0_false _ (Qclt_neq0 _ Hd)) in Hg.
  destruct (Qc_growth_sign f s Hf0 Hs0) as (Hpos & Hneg & Hlow).
  exists f, s. eexists. split; [done|]. split; [done|]. split; [exact Hg|].
  split; [done|]. split; [done|]. split; [exact Hpos|]. split; [exact Hneg|exact Hlow].
Qed.

(** The theorem of X13 at the first row of the growth table of the small
    dataset. *)
Lemma growth_pct_sign_witness :
  exists (r : growth_row xq) (f s g : Qc),
    growth_table sample_sales !! 0%nat = Some r /\
    First_Half r = XFin f /\ Second_Half r = XFin s /\ Growth_Pct r = XFin g /\
    (0 <= f)%Qc /\ (0 <= s)%Qc /\
    ((0 < g)%Qc <-> (f < s)%Qc) /\
    ((g < 0)%Qc <-> (s < f)%Qc) /\
    (Qc_of_Z (-100) < g)%Qc.
Proof.
  destruct (growth_table (sample_sales (F:=xq)) !! 0%nat) as [r|] eqn:Hr;
    [|vm_compute in Hr; discriminate Hr].
  destruct (growth_pct_sign sample_sales r sample_sales_amounts_nonneg
              (list_elem_of_lookup_2 _ _ _ Hr)) as (f & s & g & Hfsg).
  exists r, f, s, g. split; [reflexivity|exact Hfsg].
Defined.

(** ** More on the Pareto analysis *)

Lemma fmap_zip_with_fst {A B C D} (f : A -> B -> C) (g : C -> D) (h : A -> D)
    (l : list A) (k : list B) :
  (forall x y, g (f x y) = h x) -> length l = length k ->
  g <$> zip_with f l k = h <$> l.
Proof.
  intros Hg. revert k. induction l as [|x l IH]; intros [|y k] Hlen; try done.
  simpl in *. rewrite Hg, IH; [done|lia].
Qed.

Lemma reset_index_lookup {F} `{Float F} (rows : list (string * F)) (i : nat)
    (x : item_sales_row F) :
  reset_index rows !! i = Some x <->
  exists k v, rows !! i = Some (k, v) /\
    x = {| i_index := Z.of_nat i; i_Item_Name := k; i_Amount := v |}.
Proof.
  unfold reset_index. rewrite list_lookup_imap.
  destruct (rows !! i) as [[k v]|]; simpl; split.
  - intros [= <-]. by exists k, v.
  - by intros (k' & v' & [= <- <-] & ->).
  - done.
  - by intros (k' & v' & ? & _).
Qed.

Lemma length_reset_index {F} `{Float F} (rows : list (string * F)) :
  length (reset_index rows) = length rows.
Proof. unfold reset_index. apply length_imap. Qed.

Lemma reset_index_labels {F} `{Float F} (rows : list (string * F)) :
  i_index <$> reset_index rows = Z.of_nat <$> seq 0 (length rows).
Proof.
  apply list_eq. intros i. rewrite !list_lookup_fmap.
  destruct (rows !! i) as [[k v]|] eqn:Hi.
  - rewrite (proj2 (reset_index_lookup rows i _)) by (by exists k, v).
    rewrite lookup_seq_lt by (by eapply lookup_lt_Some). done.
  - rewrite lookup_seq_ge by (by apply lookup_ge_None).
    destruct (reset_index rows !! i) as [x|] eqn:Hx; [|done].
    apply reset_index_lookup in Hx as (k & v & Hkv & _). congruence.
Qed.

Lemma reset_index_names {F} `{Float F} (rows : list (string * F)) :
  i_Item_Name <$> reset_index rows = rows.*1.
Proof.
  apply list_eq. intros i. rewrite !list_lookup_fmap.
  destruct (rows !! i) as [[k v]|] eqn:Hi.
  - by rewrite (proj2 (reset_index_lookup rows i _)) by (by exists k, v).
  - destruct (reset_index rows !! i) as [x|] eqn:Hx; [|done].
    apply reset_index_lookup in Hx as (k & v & Hkv & _). congruence.
Qed.

(** The label of a row of [item_sales] is the position of its item among
    the item names in ascending order, whatever the rank of the row. *)
Lemma item_sales_label {F} `{Float F} (df : list (sale F)) (x : item_sales_row F) :
  x ∈ item_sales df ->
  (0 <= i_index x < Z.of_nat (length (item_sales df)))%Z /\
  group_keys (Item_Name <$> df) !! Z.to_nat (i_index x) = Some (i_Item_Name x).
Proof.
  intros Hx. rewrite length_item_sales.
  unfold item_sales in Hx. rewrite sort_values_desc_Permutation in Hx.
  apply list_elem_of_lookup in Hx as [i Hi].
  apply reset_index_lookup in Hi as (k & v & Hkv & ->). cbn [i_index i_Item_Name].
  rewrite Nat2Z.id.
  assert (Hk : (groupby_sum Item_Name Amount df).*1 !! i = Some k).
  { by rewrite list_lookup_fmap, Hkv. }
  rewrite groupby_sum_keys in Hk. split; [|done].
  apply lookup_lt_Some in Hk. lia.
Qed.

(** The rows of [pareto_df] are those of the collapsed ranking. *)
Lemma pareto_rows_columns {F} `{Float F} (df : list (sale F)) :
  let pareto_df := top_n_and_other (item_sales df) in
  let rows := (make_plot7_pareto_analysis df).1 in
  p_index <$> rows = i_index <$> pareto_df /\
  p_Item_Name <$> rows = i_Item_Name <$> pareto_df /\
  p_Amount <$> rows = i_Amount <$> pareto_df /\
  length rows = length pareto_df.
Proof.
  cbv zeta. cbn [make_plot7_pareto_analysis fst].
  assert (Hlen : length (top_n_and_other (item_sales df)) =
                 length (cumsum (i_Amount <$> top_n_and_other (item_sales df)))).
  { unfold cumsum. by rewrite length_cumsum_from, length_fmap. }
  split; [|split; [|split]].
  - by apply fmap_zip_with_fst.
  - by apply fmap_zip_with_fst.
  - by apply fmap_zip_with_fst.
  - rewrite length_zip_with. lia.
Qed.

Lemma top_n_and_other_small {F} `{Float F} (sales : list (item_sales_row F)) :
  (length sales <= 20)%nat -> top_n_and_other sales = sales.
Proof.
  intros Hlen. unfold top_n_and_other, N_TOP_ITEMS.
  destruct (Nat.ltb_spec 20 (length sales)); [lia|done].
Qed.

Lemma top_n_and_other_large {F} `{Float F} (sales : list (item_sales_row F)) :
  (20 < length sales)%nat ->
  top_n_and_other sales =
  reset_index (((fun r => (i_Item_Name r, i_Amount r)) <$> take 20 sales) ++
               [("All Other Items", nansum (i_Amount <$> drop 20 sales))]).
Proof.
  intros Hlen. unfold top_n_and_other, N_TOP_ITEMS.
  destruct (Nat.ltb_spec 20 (length sales)); [done|lia].
Qed.

(** X14.  The Pareto chart has one bar for every item when the dataset has
    at most 20 items.  With more items it has 21 bars, labelled 0 to 20:
    the 20 first items of the ranking, with their revenues, and the bar
    "All Other Items" with the sum of the revenues of all the items
    beyond. *)
Theorem pareto_rows_shape {F : Type} `{Float F} (df : list (sale F)) :
  let items := length (group_keys (Item_Name <$> df)) in
  let ranking := item_sales df in
  let rows := (make_plot7_pareto_analysis df).1 in
  ((items <= 20)%nat ->
     length rows = items /\
     p_Item_Name <$> rows = i_Item_Name <$> ranking /\
     p_Amount <$> rows = i_Amount <$> ranking /\
     p_Item_Name <$> rows ≡ₚ group_keys (Item_Name <$> df)) /\
  ((20 < items)%nat ->
     length rows = 21%nat /\
     p_index <$> rows = Z.of_nat <$> seq 0 21 /\
     p_Item_Name <$> rows = (i_Item_Name <$> take 20 ranking) ++ ["All Other Items"] /\
     p_Amount <$> rows =
       (i_Amount <$> take 20 ranking) ++ [nansum (i_Amount <$> drop 20 ranking)]).
Proof.
  cbv zeta. rewrite <- length_item_sales.
  destruct (pareto_rows_columns df) as (Hidx & Hnames & Hamts & Hlen).
  split; intros Hitems.
  - rewrite Hnames, Hamts, Hlen, top_n_and_other_small by done.
    split; [done|]. split; [done|]. split; [done|].
    unfold item_sales. rewrite sort_values_desc_Permutation, reset_index_names.
    by rewrite groupby_sum_keys.
  - rewrite Hidx, Hnames, Hamts, Hlen, top_n_and_other_large by done.
    assert (Hl : length (((fun r : item_sales_row F => (i_Item_Name r, i_Amount r)) <$>
                          take 20 (item_sales df)) ++
                         [("All Other Items",
                           nansum (i_Amount <$> drop 20 (item_sales df)))]) = 21%nat).
    { rewrite length_app, length_fmap, length_take_le by lia. done. }
    rewrite length_reset_index, reset_index_labels, reset_index_names,
      reset_index_Amount, Hl.
    split; [done|]. split; [done|].
    rewrite !fmap_app, <- !list_fmap_compose. done.
Qed.

Lemma filter_head_first {A} (P : A -> Prop) `{!forall x, Decision (P x)} (l : list A)
    (r : A) (rest : list A) :
  filter P l = r :: rest ->
  exists i, l !! i = Some r /\ P r /\
    forall j y, (j < i)%nat -> l !! j = Some y -> ~ P y.
Proof.
  induction l as [|x l IH]; [done|]. rewrite filter_cons.
  destruct (decide (P x)) as [Hx|Hx].
  - intros [= -> _]. exists 0%nat. split; [done|]. split; [done|]. intros; lia.
  - intros Hf. destruct (IH Hf) as (i & Hi & Hr & Hbefore).
    exists (S i). split; [done|]. split; [done|].
    intros [|j] y Hj Hy; simpl in Hy; [by simplify_eq|].
    apply (Hbefore j); [lia|done].
Qed.

Lemma pareto_row_lookup {F} `{Float F} (df : list (sale F)) (i : nat)
    (r : pareto_row F) :
  (make_plot7_pareto_analysis df).1 !! i = Some r ->
  exists x, top_n_and_other (item_sales df) !! i = Some x /\
    p_index r = i_index x /\ p_Item_Name r = i_Item_Name x /\ p_Amount r = i_Amount x.
Proof.
  cbn [make_plot7_pareto_analysis fst]. intros Hr.
  apply lookup_zip_with_Some in Hr as (x & cum & -> & Hx & _). by exists x.
Qed.

(** The labels of the Pareto rows are positions of the table. *)
Lemma pareto_labels_in_range {F} `{Float F} (df : list (sale F)) (r : pareto_row F) :
  r ∈ (make_plot7_pareto_analysis df).1 ->
  (0 <= p_index r < Z.of_nat (length (make_plot7_pareto_analysis df).1))%Z.
Proof.
  intros Hr. apply list_elem_of_lookup in Hr as [i Hi].
  destruct (pareto_row_lookup df i r Hi) as (x & Hx & -> & _).
  destruct (pareto_rows_columns df) as (_ & _ & _ & ->).
  destruct (decide (length (item_sales df) <= 20)%nat) as [Hlen|Hlen].
  - rewrite top_n_and_other_small in * by done.
    apply item_sales_label. by eapply list_elem_of_lookup_2.
  - assert (Hlab : (i_index <$> top_n_and_other (item_sales df)) !! i
                   = Some (i_index x)) by (by rewrite list_lookup_fmap, Hx).
    pose proof (lookup_lt_Some _ _ _ Hx) as Hlt.
    rewrite top_n_and_other_large in * by lia.
    rewrite reset_index_labels, list_lookup_fmap in Hlab.
    rewrite length_reset_index in *.
    destruct (seq 0 _ !! i) as [i'|] eqn:Hseq; [|done].
    apply lookup_seq in Hseq as [-> _]. injection Hlab as <-. lia.
Qed.

(** X15.  For a dataset of at most 20 items the number of "top items" in
    the summary is not the rank of the row at which the cumulative share
    first reaches 80%: it is one more than the label of that row, and the
    label is the position of the item among the item names in ascending
    order. *)
Theorem pareto_count_reads_label {F : Type} `{Float F} (df : list (sale F))
    (num_items_for_80 : Z) (pct_items : F) :
  (length (group_keys (Item_Name <$> df)) <= 20)%nat ->
  (make_plot7_pareto_analysis df).2 = Top_items num_items_for_80 pct_items ->
  exists (rank : nat) (r : pareto_row F),
    (make_plot7_pareto_analysis df).1 !! rank = Some r /\
    (Cumulative_Pct r >=? of_int 80)%F = true /\
    (forall (j : nat) (y : pareto_row F),
       (j < rank)%nat -> (make_plot7_pareto_analysis df).1 !! j = Some y ->
       (Cumulative_Pct y >=? of_int 80)%F <> true) /\
    num_items_for_80 = (p_index r + 1)%Z /\
    (1 <= num_items_for_80)%Z /\
    group_keys (Item_Name <$> df) !! Z.to_nat (num_items_for_80 - 1)
      = Some (p_Item_Name r).
Proof.
  intros Hitems Hsum. rewrite <- length_item_sales in Hitems.
  set (rows := (make_plot7_pareto_analysis df).1).
  assert (Hs : (make_plot7_pareto_analysis df).2 =
               match filter (fun r => (Cumulative_Pct r >=? of_int 80)%F = true) rows with
               | [] => Insufficient_item_diversity
               | r :: _ =>
                   Top_items (p_index r + 1)
                     (of_int (100 * (p_index r + 1)) /
                      of_int (Z.of_nat (length (item_sales df))))%F
               end) by reflexivity.
  rewrite Hs in Hsum.
  destruct (filter _ rows) as [|r rest] eqn:Hf; [discriminate|].
  injection Hsum as <- _.
  destruct (filter_head_first _ rows r rest Hf) as (i & Hi & Hr & Hbefore).
  exists i, r. split; [done|]. split; [done|]. split; [done|]. split; [done|].
  destruct (pareto_row_lookup df i r Hi) as (x & Hx & Hidx & Hname & _).
  rewrite top_n_and_other_small in Hx by done.
  destruct (item_sales_label df x (list_elem_of_lookup_2 _ _ _ Hx)) as [Hrange Hkey].
  rewrite Hidx, Hname. split; [lia|].
  replace (i_index x + 1 - 1)%Z with (i_index x) by lia. done.
Qed.

(** The theorem at a dataset of two items: "Thai Tea" alone has 90% of the
    revenue and is the first row, but its label is 1, and the summary says
    "Top 2 items", all of the menu. *)
Lemma pareto_count_reads_label_witness :
  (make_plot7_pareto_analysis (tea_house_sales (F:=b64))).2 = Top_items 2 (of_int 100) /\
  (fun r => (p_index r, p_Item_Name r, Cumulative_Pct r))
    <$> (make_plot7_pareto_analysis (tea_house_sales (F:=b64))).1
    = [(1, "Thai Tea", of_int 90); (0, "Beef Ramen", of_int 100)] /\
  exists (rank : nat) (r : pareto_row b64),
    (make_plot7_pareto_analysis tea_house_sales).1 !! rank = Some r /\
    (Cumulative_Pct r >=? of_int 80)%F = true /\
    (forall (j : nat) (y : pareto_row b64),
       (j < rank)%nat -> (make_plot7_pareto_analysis tea_house_sales).1 !! j = Some y ->
       (Cumulative_Pct y >=? of_int 80)%F <> true) /\
    2 = (p_index r + 1)%Z /\
    (1 <= 2)%Z /\
    group_keys (Item_Name <$> tea_house_sales (F:=b64)) !! Z.to_nat (2 - 1)
      = Some (p_Item_Name r).
Proof.
  split; [vm_compute; reflexivity|]. split; [vm_compute; reflexivity|].
  apply (pareto_count_reads_label (tea_house_sales (F:=b64)) 2 (of_int 100)).
  - vm_compute. lia.
  - vm_compute. reflexivity.
Defined.

Lemma Qc_pct_all (t : Qc) : (0 < t)%Qc -> (Qc_of_Z 100 * t / t)%Qc = Qc_of_Z 100.
Proof.
  intros Ht. unfold Qcdiv. rewrite <- Qcmult_assoc, Qcmult_inv_r, Qcmult_1_r; [done|].
  by apply Qclt_neq0.
Qed.

(** X16.  For a dataset without negative amounts and with a positive total
    revenue the analysis is never "incomplete": the last row of the table
    has the cumulative share 100, so a row that reaches 80% exists, and the
    summary names a number of top items between 1 and the number of rows
    of the table (in exact arithmetic).  For the empty dataset the table is
    empty and the summary is the "incomplete" one. *)
Theorem pareto_summary_complete :
  (forall (df : list (sale xq)) (t : Qc),
     Forall (fun r => nonneg (Amount r)) df ->
     nansum (Amount <$> df) = XFin t ->
     (0 < t)%Qc ->
     exists (num_items_for_80 : Z) (pct_items : xq),
       (make_plot7_pareto_analysis df).2 = Top_items num_items_for_80 pct_items /\
       (1 <= num_items_for_80 <=
        Z.of_nat (length (make_plot7_pareto_analysis df).1))%Z) /\
  make_plot7_pareto_analysis (F:=xq) [] = ([], Insufficient_item_diversity).
Proof.
  split; [|reflexivity].
  intros df t Hdf Ht Hpos.
  destruct (pareto_cumulative_pcts df t Hdf Ht Hpos) as (amts & Hne & Hnn & Hsum & Hpcts).
  set (rows := (make_plot7_pareto_analysis df).1) in *.
  assert (Hlast : last (Cumulative_Pct <$> rows) = Some (XFin (Qc_of_Z 100))).
  { rewrite Hpcts, !fmap_last, last_running_sums by done. simpl.
    by rewrite Qcplus_0_l, Hsum, Qc_pct_all. }
  rewrite fmap_last in Hlast.
  destruct (last rows) as [r_last|] eqn:Hl; [|done]. injection Hlast as Hlast.
  assert (Hin : r_last ∈ filter (fun r => (Cumulative_Pct r >=? of_int 80)%F = true) rows).
  { apply list_elem_of_filter. split.
    - rewrite Hlast. vm_compute. reflexivity.
    - apply last_Some in Hl as [l' ->]. apply elem_of_app. right. by left. }
  assert (Hs : (make_plot7_pareto_analysis df).2 =
               match filter (fun r => (Cumulative_Pct r >=? of_int 80)%F = true) rows with
               | [] => Insufficient_item_diversity
               | r :: _ =>
                   Top_items (p_index r + 1)
                     (of_int (100 * (p_index r + 1)) /
                      of_int (Z.of_nat (length (item_sales df))))%F
               end) by reflexivity.
  destruct (filter _ rows) as [|r rest] eqn:Hf; [by apply elem_of_nil in Hin|].
  eexists _, _. split; [exact Hs|].
  assert (Hr : r ∈ rows).
  { assert (Hr : r ∈ r :: rest) by (by left).
    rewrite <- Hf in Hr. by apply list_elem_of_filter in Hr as [_ Hr]. }
  pose proof (pareto_labels_in_range df r Hr). fold rows in H. lia.
Qed.

(** The theorem of X16 at the small dataset, whose revenue is 1900. *)
Lemma pareto_summary_complete_witness :
  exists (num_items_for_80 : Z) (pct_items : xq),
    (make_plot7_pareto_analysis (sample_sales (F:=xq))).2 =
      Top_items num_items_for_80 pct_items /\
    (1 <= num_items_for_80 <=
     Z.of_nat (length (make_plot7_pareto_analysis (sample_sales (F:=xq))).1))%Z.
Proof.
  apply (proj1 pareto_summary_complete sample_sales (Qc_of_Z 1900)
           sample_sales_amounts_nonneg).
  - apply xq_eqb_eq. vm_compute. reflexivity.
  - reflexivity.
Defined.

(** ** The monthly revenue chart *)

Lemma month_groups_sublist {F} `{Float F} (observed : bool) (df : list (sale F)) :
  month_groups observed df `sublist_of` month_order.
Proof. apply sublist_filter. Qed.

Lemma NoDup_month_order : NoDup month_order.
Proof. apply (bool_decide_unpack _). vm_compute. reflexivity. Qed.

Lemma NoDup_month_groups {F} `{Float F} (observed : bool) (df : list (sale F)) :
  NoDup (month_groups observed df).
Proof. apply NoDup_filter, NoDup_month_order. Qed.

Lemma make_plot1_months {F} `{Float F} (observed : bool) (df : list (sale F)) :
  (make_plot1_sales_per_month observed df).*1 = month_groups observed df.
Proof.
  unfold make_plot1_sales_per_month. rewrite <- list_fmap_compose. apply list_fmap_id.
Qed.

(** The monthly totals add up to the revenue of the rows that have a
    month. *)
Lemma make_plot1_total (observed : bool) (df : list (sale xq)) :
  Forall (fun r => finite (Amount r)) df ->
  (forall r m, r ∈ df -> Month r = Some m -> m ∈ month_order) ->
  nansum (make_plot1_sales_per_month observed df).*2 =
  nansum (Amount <$> filter (fun r => is_Some (Month r)) df).
Proof.
  intros Hfin Hcat.
  assert (Hfin' : Forall finite (Amount <$> df)) by (by rewrite Forall_fmap).
  set (val := fun r : sale xq => xq_val (Amount r)).
  set (dated := filter (fun r => is_Some (Month r)) df).
  assert (Hcol : (make_plot1_sales_per_month observed df).*2 =
                 XFin <$> ((fun k => qsum (val <$> filter (fun r => Month r = k) dated))
                           <$> (Some <$> month_groups observed df))).
  { unfold make_plot1_sales_per_month. rewrite <- !list_fmap_compose.
    apply list_fmap_ext. intros _ m _. simpl.
    rewrite nansum_finite by (by apply Forall_finite_filter).
    f_equal. rewrite <- list_fmap_compose. unfold dated.
    rewrite list_filter_filter. change (xq_val ∘ Amount) with val.
    do 2 f_equal. apply filter_ext_in. intros r _.
    split; [intros Hm; split; [done|by rewrite Hm]|by intros [Hm _]]. }
  rewrite Hcol, nansum_XFin, nansum_finite by (by apply Forall_finite_filter).
  f_equal. rewrite <- (list_fmap_compose Amount xq_val). apply qsum_groups.
  - apply (NoDup_fmap_2 Some), NoDup_month_groups.
  - intros r Hr. apply list_elem_of_filter in Hr as [[m Hm] Hr].
    rewrite Hm. apply list_elem_of_fmap. exists m. split; [done|].
    apply list_elem_of_filter. split; [|by eapply Hcat].
    right. rewrite <- Hm. apply list_elem_of_fmap. by exists r.
Qed.

Lemma load_and_clean_data_Month {F} `{Float F} (rows : list (raw_sale F))
    (r : sale F) (m : string) :
  r ∈ load_and_clean_data rows -> Month r = Some m -> m ∈ month_order.
Proof.
  unfold load_and_clean_data. rewrite list_elem_of_fmap. intros (raw & -> & _).
  cbn [Month]. unfold categorical. case_bool_decide; [|done]. by intros [= <-].
Qed.

(** X17.  The months of the monthly revenue chart come in the order of the
    calendar, May to October, each at most once: all six of them with
    [observed=False], and with [observed=True] those in which the dataset
    has a sale.  The bars add up to the revenue of the sales whose month is
    one of the six names; the sales of any other month are in no bar (in
    exact arithmetic). *)
Theorem sales_per_month_totals (observed : bool) (rows : list (raw_sale xq)) :
  Forall (fun r => finite (raw_Amount r)) rows ->
  let df := load_and_clean_data rows in
  let sales_per_month := make_plot1_sales_per_month observed df in
  sales_per_month.*1 `sublist_of` month_order /\
  (observed = false -> sales_per_month.*1 = month_order) /\
  (forall m : string, m ∈ sales_per_month.*1 <->
     m ∈ month_order /\ (observed = false \/ m ∈ raw_Month <$> rows)) /\
  nansum sales_per_month.*2 =
    nansum (raw_Amount <$> filter (fun r => raw_Month r ∈ month_order) rows).
Proof.
  intros Hfin. cbv zeta. rewrite make_plot1_months.
  split; [apply month_groups_sublist|]. split; [|split].
  - intros ->. unfold month_groups. apply filter_all. intros m _. by left.
  - intros m. unfold month_groups. rewrite list_elem_of_filter.
    split; intros [H1 H2].
    + split; [done|]. destruct H1 as [H1|H1]; [by left|right].
      apply list_elem_of_fmap in H1 as (r & Hm & Hr).
      unfold load_and_clean_data in Hr. apply list_elem_of_fmap in Hr as (raw & -> & Hraw).
      cbn [Month] in Hm. unfold categorical in Hm. case_bool_decide; [|done].
      injection Hm as ->. apply list_elem_of_fmap. by exists raw.
    + split; [|done]. destruct H2 as [H2|H2]; [by left|right].
      apply list_elem_of_fmap in H2 as (raw & -> & Hraw).
      apply list_elem_of_fmap. eexists. split; [|apply list_elem_of_fmap; by exists raw].
      cbn [Month]. unfold categorical. by rewrite bool_decide_eq_true_2.
  - rewrite make_plot1_total.
    + unfold load_and_clean_data. rewrite filter_fmap, <- list_fmap_compose.
      rewrite (filter_ext_in _ (fun r => raw_Month r ∈ month_order)); [done|].
      intros raw _. cbn [Month]. unfold categorical.
      case_bool_decide; split; intros Hm; try done; by destruct Hm.
    + unfold load_and_clean_data. rewrite Forall_fmap. by simpl.
    + apply load_and_clean_data_Month.
Qed.

(** The theorem of X17 at the dataset with a sale in April. *)
Lemma sales_per_month_totals_witness :
  let df := load_and_clean_data (off_season_rows (F:=xq)) in
  let sales_per_month := make_plot1_sales_per_month true df in
  sales_per_month.*1 `sublist_of` month_order /\
  (true = false -> sales_per_month.*1 = month_order) /\
  (forall m : string, m ∈ sales_per_month.*1 <->
     m ∈ month_order /\ (true = false \/ m ∈ raw_Month <$> off_season_rows (F:=xq))) /\
  nansum sales_per_month.*2 =
    nansum (raw_Amount <$> filter (fun r => raw_Month r ∈ month_order)
                             (off_season_rows (F:=xq))).
Proof. exact (sales_per_month_totals true off_season_rows off_season_rows_finite). Defined.

(** The monthly chart of the dataset with a sale in April, for both
    values of [observed], in binary64: the sale of April is in no bar. *)
Lemma sales_per_month_off_season :
  make_plot1_sales_per_month false (off_season_sales (F:=b64)) =
    [("May", of_int 700); ("June", of_int 300); ("July", of_int 0);
     ("August", of_int 300); ("September", of_int 600); ("October", of_int 0)] /\
  make_plot1_sales_per_month true (off_season_sales (F:=b64)) =
    [("May", of_int 700); ("June", of_int 300);
     ("August", of_int 300); ("September", of_int 600)].
Proof. split; vm_compute; reflexivity. Qed.

(** ** The top 10 items and the Executive Summary *)

Lemma nlargest_finite {A} (n : nat) (col : A -> xq) (l : list A) :
  Forall (fun x => finite (col x)) l ->
  nlargest n col l =
  take n (sort_by (fun y x => Qc_ltb (- xq_val (col y)) (- xq_val (col x))) l).
Proof.
  intros Hfin. rewrite Forall_forall in Hfin. unfold nlargest. f_equal.
  rewrite filter_all.
  - apply sort_by_ext_in. intros x y Hx Hy.
    destruct (Hfin x Hx) as [p Hp], (Hfin y Hy) as [q Hq]. rewrite Hp, Hq. simpl.
    by rewrite Qc_ltb_opp.
  - intros x Hx. destruct (Hfin x Hx) as [p Hp]. unfold notna. by rewrite Hp.
Qed.

Lemma groupby_sum_totals_finite (df : list (sale xq)) :
  Forall (fun r => finite (Amount r)) df ->
  Forall (fun x => finite x.2) (groupby_sum Item_Name Amount df).
Proof.
  intros Hfin. rewrite groupby_sum_finite by (by rewrite Forall_fmap).
  rewrite Forall_fmap. apply Forall_forall. intros k _. by eexists.
Qed.

(** The table of the top 10 items, for a dataset without missing and
    infinite amounts: the first rows of the ranking of the item totals. *)
Lemma top_10_items_ranking (df : list (sale xq)) :
  Forall (fun r => finite (Amount r)) df ->
  let totals := groupby_sum Item_Name Amount df in
  let ranking :=
    sort_by (fun y x : string * xq => Qc_ltb (- xq_val y.2) (- xq_val x.2)) totals in
  make_plot2_top_10_items df = take 10 ranking /\
  ranking ≡ₚ totals /\
  StronglySorted (fun x y : string * xq => (- xq_val x.2 <= - xq_val y.2)%Qc) ranking /\
  forall x y : string * xq, x ∈ totals -> y ∈ totals ->
    (- xq_val y.2 <= - xq_val x.2)%Qc -> (x.2 <=? y.2)%F = true.
Proof.
  intros Hfin. cbv zeta. pose proof (groupby_sum_totals_finite df Hfin) as Htot.
  split; [|split; [|split]].
  - unfold make_plot2_top_10_items. by apply nlargest_finite.
  - apply sort_by_Permutation.
  - apply (sort_by_rank_sorted (fun x : string * xq => (- xq_val x.2)%Qc)).
  - intros x y Hx Hy Hle. rewrite Forall_forall in Htot.
    destruct (Htot x Hx) as [p Hp], (Htot y Hy) as [q Hq].
    rewrite Hp, Hq in *. simpl in *. by rewrite Qc_leb_le, <- Qcle_opp.
Qed.

(** X18.  The table of the top 10 items holds 10 items, or all the items of
    the dataset if these are fewer, each once and with its total revenue;
    it comes by decreasing revenue, and no item outside the table has a
    larger revenue than an item of the table (in exact arithmetic). *)
Theorem top_10_items_largest (df : list (sale xq)) :
  Forall (fun r => finite (Amount r)) df ->
  let totals := groupby_sum Item_Name Amount df in
  let top_10_items := make_plot2_top_10_items df in
  length top_10_items = min 10 (length (group_keys (Item_Name <$> df))) /\
  NoDup top_10_items.*1 /\
  (forall (k : string) (v : xq), (k, v) ∈ top_10_items ->
     k ∈ Item_Name <$> df /\
     v = nansum (Amount <$> filter (fun r => Item_Name r = k) df)) /\
  (forall (i j : nat) (x y : string * xq),
     (i <= j)%nat -> top_10_items !! i = Some x -> top_10_items !! j = Some y ->
     (y.2 <=? x.2)%F = true) /\
  (forall x r : string * xq,
     x ∈ top_10_items -> r ∈ totals -> r ∉ top_10_items -> (r.2 <=? x.2)%F = true).
Proof.
  intros Hfin. cbv zeta.
  destruct (top_10_items_ranking df Hfin) as (-> & Hperm & Hsorted & Hle).
  set (totals := groupby_sum Item_Name Amount df) in *.
  set (ranking := sort_by _ totals) in *.
  assert (Hin : forall x, x ∈ take 10 ranking -> x ∈ totals).
  { intros x Hx. rewrite <- Hperm. eapply elem_of_sublist; [exact Hx|apply sublist_take]. }
  split; [|split; [|split; [|split]]].
  - rewrite length_take, (Permutation_length Hperm). unfold totals.
    by rewrite <- (groupby_sum_keys Item_Name Amount df), length_fmap.
  - eapply sublist_NoDup; [|apply fmap_sublist, sublist_take].
    rewrite Hperm. unfold totals. rewrite groupby_sum_keys. apply NoDup_group_keys.
  - intros k v Hkv. by apply elem_of_groupby_sum, Hin.
  - intros i j x y Hij Hi Hj. apply Hle.
    + eapply Hin, list_elem_of_lookup_2, Hj.
    + eapply Hin, list_elem_of_lookup_2, Hi.
    + by eapply (take_sorted_lookup_le (fun x : string * xq => (- xq_val x.2)%Qc)
                   ranking 10 i j).
  - intros x r Hx Hr Hnr. apply Hle; [done|by apply Hin|].
    eapply (take_sorted_outranks (fun x : string * xq => (- xq_val x.2)%Qc)
              ranking 10); [done..| |done].
    by rewrite Hperm.
Qed.

(** The theorem of X18 at the small dataset. *)
Lemma top_10_items_largest_witness :
  let totals := groupby_sum Item_Name Amount (sample_sales (F:=xq)) in
  let top_10_items := make_plot2_top_10_items (sample_sales (F:=xq)) in
  length top_10_items = min 10 (length (group_keys (Item_Name <$> sample_sales (F:=xq)))) /\
  NoDup top_10_items.*1 /\
  (forall (k : string) (v : xq), (k, v) ∈ top_10_items ->
     k ∈ Item_Name <$> sample_sales (F:=xq) /\
     v = nansum (Amount <$> filter (fun r => Item_Name r = k) sample_sales)) /\
  (forall (i j : nat) (x y : string * xq),
     (i <= j)%nat -> top_10_items !! i = Some x -> top_10_items !! j = Some y ->
     (y.2 <=? x.2)%F = true) /\
  (forall x r : string * xq,
     x ∈ top_10_items -> r ∈ totals -> r ∉ top_10_items -> (r.2 <=? x.2)%F = true).
Proof. exact (top_10_items_largest sample_sales sample_sales_amounts_finite). Defined.

Lemma main_action_plan_entries {F} `{Float F} (df : list (sale F)) :
  main_action_plan df =
  executive_summary (make_plot7_pareto_analysis df).2 (make_plot2_top_10_items df)
    (make_plot6_movers_and_shakers df).1 (make_plot6_movers_and_shakers df).2.
Proof.
  unfold main_action_plan.
  destruct (make_plot6_movers_and_shakers df) as [rising fading].
  by destruct (make_plot7_pareto_analysis df) as [rows summary].
Qed.

(** X19.  The "superstar" of the Executive Summary is an item of the largest
    total revenue: no item of the dataset has a larger one (in exact
    arithmetic).  For the empty dataset the four entries are the
    "incomplete" summary and the three "N/A" texts. *)
Theorem superstar_has_largest_revenue :
  (forall df : list (sale xq),
     Forall (fun r => finite (Amount r)) df ->
     df <> [] ->
     exists v : xq,
       (superstar_str (main_action_plan df), v) ∈ groupby_sum Item_Name Amount df /\
       forall r : string * xq, r ∈ groupby_sum Item_Name Amount df ->
         (r.2 <=? v)%F = true) /\
  main_action_plan (F:=xq) [] =
    {| pareto_str := Insufficient_item_diversity;
       superstar_str := "N/A";
       rising_str := "N/A (no significant rising stars)";
       fading_str := "N/A (no significant fading items)" |}.
Proof.
  split; [|reflexivity].
  intros df Hfin Hne. rewrite main_action_plan_entries. cbn [executive_summary superstar_str].
  destruct (top_10_items_ranking df Hfin) as (-> & Hperm & Hsorted & Hle).
  set (totals := groupby_sum Item_Name Amount df) in *.
  set (ranking := sort_by _ totals) in *.
  assert (Hlen : length ranking <> 0%nat).
  { rewrite (Permutation_length Hperm). unfold totals.
    rewrite <- (length_fmap fst), groupby_sum_keys.
    destruct df as [|x df]; [done|]. intros Hnil.
    assert (Hx : Item_Name x ∈ group_keys (Item_Name <$> x :: df)).
    { apply elem_of_group_keys. by left. }
    apply nil_length_inv in Hnil. rewrite Hnil in Hx. by apply elem_of_nil in Hx. }
  destruct ranking as [|[k v] rest] eqn:Hr; [done|]. cbn [take fst].
  assert (Hkv : (k, v) ∈ totals) by (rewrite <- Hperm; by left).
  exists v. split; [done|]. intros r Hin.
  apply (Hle r (k, v)); [done..|]. rewrite <- Hperm in Hin.
  apply StronglySorted_inv in Hsorted as [_ Hall]. rewrite Forall_forall in Hall.
  apply elem_of_cons in Hin as [->|Hin]; [apply Qcle_refl|by apply Hall].
Qed.

(** The theorem of X19 at the small dataset. *)
Lemma superstar_has_largest_revenue_witness :
  exists v : xq,
    (superstar_str (main_action_plan (sample_sales (F:=xq))), v)
      ∈ groupby_sum Item_Name Amount sample_sales /\
    forall r : string * xq, r ∈ groupby_sum Item_Name Amount sample_sales ->
      (r.2 <=? v)%F = true.
Proof.
  apply (proj1 superstar_has_largest_revenue sample_sales sample_sales_amounts_finite).
  discriminate.
Defined.

(** The Executive Summary of the small dataset, in binary64. *)
Lemma main_action_plan_sample :
  main_action_plan (sample_sales (F:=b64)) =
  {| pareto_str := Top_items 2 (of_int (100 * 2) / of_int 3)%F;
     superstar_str := "Beef Ramen";
     rising_str := "Spring Rolls";
     fading_str := "Beef Ramen" |}.
Proof. vm_compute. reflexivity. Qed.

(** X20.  When one item only passes the filters of the Growth Analyzer, the
    Executive Summary names this item twice: as the fastest-growing item
    of the "Reorder Alert" and as the item "declining fast" of the
    "Overstock Alert". *)
Theorem single_mover_rising_and_fading {F : Type} `{Float F} (df : list (sale F))
    (r : growth_row F) :
  growth_kept df = [r] ->
  rising_str (main_action_plan df) = g_Item_Name r /\
  fading_str (main_action_plan df) = g_Item_Name r.
Proof.
  intros Hkept. rewrite main_action_plan_entries.
  unfold make_plot6_movers_and_shakers. cbn [fst snd executive_summary rising_str fading_str].
  assert (Hna : forall x, x ∈ growth_kept df -> notna (Growth_Pct x)).
  { intros x Hx. by destruct (growth_kept_row df x Hx) as (_ & _ & _ & Hg & _). }
  rewrite (nlargest_all_notna 10 Growth_Pct _ Hna),
    (nsmallest_all_notna 10 Growth_Pct _ Hna), Hkept.
  done.
Qed.

(** The theorem of X20 at the dataset of one item, sold in September
    only, in binary64. *)
Lemma single_mover_rising_and_fading_witness :
  rising_str (main_action_plan (new_item_sales (F:=b64))) = "Spring Rolls" /\
  fading_str (main_action_plan (new_item_sales (F:=b64))) = "Spring Rolls".
Proof.
  destruct (growth_kept (new_item_sales (F:=b64))) as [|r [|r' kept]] eqn:Hkept;
    [vm_compute in Hkept; discriminate Hkept| |vm_compute in Hkept; discriminate Hkept].
  assert (Hname : g_Item_Name <$> growth_kept (new_item_sales (F:=b64)) = ["Spring Rolls"])
    by (vm_compute; reflexivity).
  rewrite Hkept in Hname. injection Hname as Hname.
  rewrite <- Hname. by apply single_mover_rising_and_fading.
Defined.

(** ** The monthly trends of the top 10 items *)

Lemma sort_by_sorted {A} (before : A -> A -> bool) (l : list A) :
  StronglySorted (fun a b => before b a = false) l -> sort_by before l = l.
Proof.
  induction 1 as [|x l Hs IH Hx]; [done|].
  simpl. rewrite IH. destruct Hx as [|y l' Hy _]; [done|].
  simpl. by rewrite Hy.
Qed.

Lemma StronglySorted_sublist {A} (R : relation A) (l1 l2 : list A) :
  l1 `sublist_of` l2 -> StronglySorted R l2 -> StronglySorted R l1.
Proof.
  induction 1 as [|x l1 l2 Hsub IH|x l1 l2 Hsub IH]; intros Hs; [done| |].
  - apply StronglySorted_inv in Hs as [Hs Hx]. constructor; [by apply IH|].
    rewrite Forall_forall in *. intros y Hy. apply Hx. by eapply elem_of_sublist.
  - apply StronglySorted_inv in Hs as [Hs _]. by apply IH.
Qed.

Lemma StronglySorted_fmap_2 {A B} (R : relation B) (f : A -> B) (l : list A) :
  StronglySorted (fun a b => R (f a) (f b)) l -> StronglySorted R (f <$> l).
Proof.
  induction 1 as [|x l Hs IH Hx]; [constructor|].
  rewrite fmap_cons. constructor; [done|]. by rewrite Forall_fmap.
Qed.

Lemma StronglySorted_list_prod {A B} (R : relation A) (l : list A) (k : list B) :
  (forall a, R a a) ->
  StronglySorted R l -> StronglySorted (fun p q => R p.1 q.1) (list_prod l k).
Proof.
  intros Hrefl.
  assert (Hblock : forall (x : A) (k' : list B),
            StronglySorted (fun p q : A * B => R p.1 q.1) (map (fun y => (x, y)) k')).
  { intros x k'. induction k' as [|b k' IHk]; [constructor|]. simpl.
    constructor; [exact IHk|]. apply Forall_forall. intros p Hp.
    apply list_elem_of_In, in_map_iff in Hp as (b' & <- & _). simpl. apply Hrefl. }
  induction 1 as [|x l Hs IH Hx]; [constructor|].
  simpl. apply StronglySorted_app. split; [|split; [apply Hblock|done]].
  intros p q Hp Hq. apply list_elem_of_In, in_map_iff in Hp as (b & <- & _).
  destruct q as [a b']. apply list_elem_of_In, in_prod_iff in Hq as [Ha _].
  simpl. rewrite Forall_forall in Hx. by apply Hx, list_elem_of_In.
Qed.

Lemma month_order_codes :
  StronglySorted (fun a b => (month_code b <? month_code a)%nat = false) month_order.
Proof. unfold month_order. repeat constructor. Qed.

Lemma filter_list_prod_snd {A} `{EqDecision B} (l : list A) (k : list B) (b : B) :
  NoDup k -> b ∈ k ->
  filter (fun p => p.2 = b) (list_prod l k) = (fun a => (a, b)) <$> l.
Proof.
  intros Hnd Hb.
  assert (Hblock : forall a, filter (fun p : A * B => p.2 = b) (map (fun y => (a, y)) k)
                             = [(a, b)]).
  { intros a. clear l. induction Hnd as [|b' k Hb' Hnd IHk]; [by apply elem_of_nil in Hb|].
    cbn [map]. rewrite filter_cons. cbn [snd]. destruct (decide (b' = b)) as [->|Hne].
    - f_equal. apply filter_none. intros p Hp.
      apply list_elem_of_In, in_map_iff in Hp as (b'' & <- & Hb''). simpl.
      intros ->. by apply Hb', list_elem_of_In.
    - apply IHk. apply elem_of_cons in Hb as [->|Hb]; done. }
  induction l as [|a l IH]; [done|].
  cbn [list_prod]. by rewrite filter_app, IH, Hblock, fmap_cons.
Qed.

(** The table of the trends is in the order of the months before it is
    sorted, so that the sort keeps it as it is. *)
Lemma make_plot4_unfold {F} `{Float F} (observed : bool) (df : list (sale F))
    (names : list string) :
  let df_top_10 := filter (fun r => Item_Name r ∈ names) df in
  make_plot4_top_10_trends observed df names =
  (fun mk =>
     {| t_Month := mk.1; t_Item_Name := mk.2;
        t_Amount :=
          nansum (Amount <$>
                  filter (fun r => Month r = Some mk.1 /\ Item_Name r = mk.2) df_top_10) |})
  <$> filter (fun mk => observed = false \/
                        (Some mk.1, mk.2) ∈
                          (fun r => (Month r, Item_Name r)) <$> df_top_10)
        (list_prod month_order (group_keys (Item_Name <$> df_top_10))).
Proof.
  cbv zeta. unfold make_plot4_top_10_trends. apply sort_by_sorted.
  apply (StronglySorted_fmap_2
           (fun a b => (month_code (t_Month b) <? month_code (t_Month a))%nat = false)).
  cbn [t_Month]. eapply StronglySorted_sublist; [apply sublist_filter|].
  apply (StronglySorted_list_prod
           (fun a b => (month_code b <? month_code a)%nat = false)).
  - intros m. apply Nat.ltb_irrefl.
  - apply month_order_codes.
Qed.

(** X21.  The table of the monthly trends has rows for the items of the
    given names that occur in the dataset, and for no other item.  For
    each of these items its rows, in the order of the table, are the rows of
    the monthly revenue chart of the sales of this item alone. *)
Theorem top_10_trends_per_item {F : Type} `{Float F} (observed : bool)
    (df : list (sale F)) (top_10_item_names : list string) :
  let monthly_sales_top_10 := make_plot4_top_10_trends observed df top_10_item_names in
  (forall r : trend_row F, r ∈ monthly_sales_top_10 ->
     t_Item_Name r ∈ top_10_item_names /\ t_Item_Name r ∈ Item_Name <$> df) /\
  (forall k : string, k ∈ top_10_item_names -> k ∈ Item_Name <$> df ->
     (fun r => (t_Month r, t_Amount r))
       <$> filter (fun r => t_Item_Name r = k) monthly_sales_top_10 =
     make_plot1_sales_per_month observed (filter (fun r => Item_Name r = k) df)).
Proof.
  cbv zeta. rewrite make_plot4_unfold. cbv zeta.
  set (df_top_10 := filter (fun r => Item_Name r ∈ top_10_item_names) df).
  set (items := group_keys (Item_Name <$> df_top_10)).
  assert (Hitems : forall k, k ∈ items <-> k ∈ top_10_item_names /\ k ∈ Item_Name <$> df).
  { intros k. unfold items, df_top_10. rewrite elem_of_group_keys, !list_elem_of_fmap.
    setoid_rewrite list_elem_of_filter. split.
    - intros (r & -> & Hr & Hin). split; [done|by exists r].
    - intros (Hk & r & -> & Hin). by exists r. }
  split.
  - intros r Hr. apply list_elem_of_fmap in Hr as ([m k] & -> & Hmk).
    apply list_elem_of_filter in Hmk as [_ Hmk].
    apply list_elem_of_In, in_prod_iff in Hmk as [_ Hk]. cbn [t_Item_Name snd].
    by apply Hitems, list_elem_of_In.
  - intros k Hk Hdf.
    assert (Hki : k ∈ items) by (by apply Hitems).
    assert (Hdk : filter (fun r => Item_Name r = k) df_top_10 =
                  filter (fun r => Item_Name r = k) df).
    { unfold df_top_10. rewrite list_filter_filter. apply filter_ext_in.
      intros r _. split; [by intros [? _]|]. intros Hr. split; [done|by rewrite Hr]. }
    rewrite filter_fmap. cbn [t_Item_Name].
    rewrite list_filter_filter.
    rewrite (filter_ext_in _
               (fun mk : string * string =>
                  (observed = false \/
                   Some mk.1 ∈ Month <$> filter (fun r => Item_Name r = k) df) /\
                  mk.2 = k)).
    2:{ intros [m k'] _. cbn [fst snd]. rewrite !list_elem_of_fmap.
        setoid_rewrite list_elem_of_filter. split.
        - intros [-> [Ho|(r & [= Hm Hr] & Hin)]]; (split; [|done]); [by left|right].
          exists r. split; [done|]. split; [done|].
          unfold df_top_10 in Hin. by apply list_elem_of_filter in Hin as [_ Hin].
        - intros [[Ho|(r & Hm & Hr & Hin)] ->]; (split; [done|]); [by left|right].
          exists r. split; [by rewrite Hm, Hr|]. unfold df_top_10.
          apply list_elem_of_filter. split; [by rewrite Hr|done]. }
    rewrite <- list_filter_filter, filter_list_prod_snd
      by (done || apply NoDup_group_keys).
    rewrite filter_fmap, <- !list_fmap_compose. cbn [fst].
    unfold make_plot1_sales_per_month, month_groups.
    apply list_fmap_ext. intros _ m _. cbn [compose fst snd t_Month t_Amount].
    do 3 f_equal. rewrite <- Hdk, list_filter_filter. apply filter_ext_in.
    intros r _. tauto.
Qed.

(** The theorem of X21 at the dataset with a sale in April, in binary64. *)
Lemma top_10_trends_per_item_witness :
  (fun r => (t_Month r, t_Amount r))
    <$> filter (fun r => t_Item_Name r = "Beef Ramen")
          (make_plot4_top_10_trends false (off_season_sales (F:=b64))
             ["Beef Ramen"; "Thai Tea"]) =
  make_plot1_sales_per_month false
    (filter (fun r => Item_Name r = "Beef Ramen") (off_season_sales (F:=b64))).
Proof.
  apply (proj2 (top_10_trends_per_item false (off_season_sales (F:=b64))
                  ["Beef Ramen"; "Thai Tea"])).
  - apply (bool_decide_unpack _). vm_compute. reflexivity.
  - apply (bool_decide_unpack _). vm_compute. reflexivity.
Defined.

(** The trends of two items of the dataset with a sale in April, for both
    values of [observed], in binary64. *)
Lemma top_10_trends_off_season :
  (fun r => (t_Month r, t_Item_Name r, t_Amount r))
    <$> make_plot4_top_10_trends true (off_season_sales (F:=b64))
          ["Beef Ramen"; "Thai Tea"; "Pad Thai"] =
    [("May", "Beef Ramen", of_int 700); ("June", "Thai Tea", of_int 300);
     ("August", "Beef Ramen", of_int 300)] /\
  length (make_plot4_top_10_trends false (off_season_sales (F:=b64))
            ["Beef Ramen"; "Thai Tea"; "Pad Thai"]) = 12%nat.
Proof. split; vm_compute; reflexivity. Qed.
